(** * Mini-Shell: the Windows shell of [minishell_windows_full.cpp]

    A shallow embedding of the command-line parser, the builtins, the
    single-command and pipeline launchers and the background-job registry
    of [class WindowsShell], together with the properties of the pipeline
    execution engine that its specification states.

    The operating system is not part of the program.  Every Win32 call the
    shell makes is recorded in a trace of events, and the answer of the
    system to each call is read from an environment [Env] over which the
    theorems quantify.

    The file has three parts: the program, the vocabulary in which its
    properties are stated (sessions, what a trace shows, example systems),
    and the properties with their proofs. *)

From Stdlib Require Import ZArith String Ascii List Bool Lia.
From stdpp Require Import base option list sorting gmap strings pretty.
Import ListNotations.

Local Open Scope string_scope.
Local Open Scope list_scope.
Local Open Scope Z_scope.

(** * The program *)

(** ** Data structures *)

(** [struct Command]. *)
Record Command := mkCommand {
  args : list string;
  input_file : string;
  output_file : string;
  append_output : bool;
  background : bool
}.

(** The default constructor [Command()]. *)
Definition Command0 : Command :=
  {| args := []; input_file := ""; output_file := "";
     append_output := false; background := false |}.

Definition set_args (c : Command) (v : list string) : Command :=
  {| args := v; input_file := input_file c; output_file := output_file c;
     append_output := append_output c; background := background c |}.

Definition set_input_file (c : Command) (v : string) : Command :=
  {| args := args c; input_file := v; output_file := output_file c;
     append_output := append_output c; background := background c |}.

Definition set_output_file (c : Command) (v : string) : Command :=
  {| args := args c; input_file := input_file c; output_file := v;
     append_output := append_output c; background := background c |}.

Definition set_append_output (c : Command) (v : bool) : Command :=
  {| args := args c; input_file := input_file c; output_file := output_file c;
     append_output := v; background := background c |}.

Definition set_background (c : Command) (v : bool) : Command :=
  {| args := args c; input_file := input_file c; output_file := output_file c;
     append_output := append_output c; background := v |}.

(** ** Parsing *)

(** The white space of [operator>>] in the classic locale. *)
Definition isspace (c : ascii) : bool :=
  let n := nat_of_ascii c in
  ((9 <=? n) && (n <=? 13) || (n =? 32))%nat.

Definition string_empty (s : string) : bool :=
  match s with EmptyString => true | String _ _ => false end.

(** [while (iss >> token)]: the maximal runs of characters that are not
    white space, in order.  [tok] is the run being read. *)
Fixpoint read_tokens (s : string) (tok : string) : list string :=
  match s with
  | EmptyString => if string_empty tok then [] else [tok]
  | String c rest =>
      if isspace c then
        if string_empty tok then read_tokens rest ""
        else tok :: read_tokens rest ""
      else read_tokens rest (tok +:+ String c "")
  end.

Definition tokenize (input : string) : list string := read_tokens input "".

(** The local variables of [parse_input]. *)
Record PState := mkPState {
  commands : list Command;
  current_cmd : Command;
  expect_input_file : bool;
  expect_output_file : bool
}.

Definition parse_init : PState :=
  {| commands := []; current_cmd := Command0;
     expect_input_file := false; expect_output_file := false |}.

Definition vec_empty {A} (v : list A) : bool :=
  match v with [] => true | _ :: _ => false end.

(** One iteration of the loop body of [parse_input]. *)
Definition parse_step (st : PState) (token : string) : PState :=
  let cur := current_cmd st in
  if String.eqb token "|" then
    if negb (vec_empty (args cur)) then
      {| commands := commands st ++ [cur]; current_cmd := Command0;
         expect_input_file := expect_input_file st;
         expect_output_file := expect_output_file st |}
    else st
  else if String.eqb token "<" then
    {| commands := commands st; current_cmd := cur;
       expect_input_file := true;
       expect_output_file := expect_output_file st |}
  else if String.eqb token ">" then
    {| commands := commands st;
       current_cmd := set_append_output cur false;
       expect_input_file := expect_input_file st;
       expect_output_file := true |}
  else if String.eqb token ">>" then
    {| commands := commands st;
       current_cmd := set_append_output cur true;
       expect_input_file := expect_input_file st;
       expect_output_file := true |}
  else if String.eqb token "&" then
    {| commands := commands st;
       current_cmd := set_background cur true;
       expect_input_file := expect_input_file st;
       expect_output_file := expect_output_file st |}
  else if expect_input_file st then
    {| commands := commands st;
       current_cmd := set_input_file cur token;
       expect_input_file := false;
       expect_output_file := expect_output_file st |}
  else if expect_output_file st then
    {| commands := commands st;
       current_cmd := set_output_file cur token;
       expect_input_file := expect_input_file st;
       expect_output_file := false |}
  else
    {| commands := commands st;
       current_cmd := set_args cur (args cur ++ [token]);
       expect_input_file := expect_input_file st;
       expect_output_file := expect_output_file st |}.

(** The loop, started in any state. *)
Definition parse_loop (st : PState) (tokens : list string) : PState :=
  fold_left parse_step tokens st.

(** The code after the loop: the last stage is kept when it has arguments. *)
Definition parse_finish (st : PState) : list Command :=
  if negb (vec_empty (args (current_cmd st)))
  then commands st ++ [current_cmd st]
  else commands st.

Definition parse_tokens (tokens : list string) : list Command :=
  parse_finish (parse_loop parse_init tokens).

Definition parse_input (input : string) : list Command :=
  parse_tokens (tokenize input).

(** The five operator tokens; every other token is a plain one. *)
Definition is_operator (token : string) : bool :=
  String.eqb token "|" || String.eqb token "<" || String.eqb token ">"
  || String.eqb token ">>" || String.eqb token "&".

Definition is_redirect (token : string) : bool :=
  String.eqb token "<" || String.eqb token ">" || String.eqb token ">>".

(** ** The operating system *)

Definition HANDLE := Z.
Definition NULL : HANDLE := 0.
Definition INVALID_HANDLE_VALUE : HANDLE := -1.
Definition STILL_ACTIVE : Z := 259.

Inductive StdHandle := STD_INPUT_HANDLE | STD_OUTPUT_HANDLE | STD_ERROR_HANDLE.
Inductive Access := GENERIC_READ | GENERIC_WRITE.
Inductive Creation := OPEN_EXISTING | OPEN_ALWAYS | CREATE_ALWAYS.

(** The fields of [STARTUPINFOA] the shell sets; [dwFlags] is the bit
    [STARTF_USESTDHANDLES]. *)
Record STARTUPINFO := mkSI {
  hStdInput : HANDLE;
  hStdOutput : HANDLE;
  hStdError : HANDLE;
  dwFlags : bool
}.

Record PROCESS_INFORMATION := mkPI {
  pi_hProcess : HANDLE;
  pi_hThread : HANDLE;
  dwProcessId : Z
}.

(** What the shell does to the outside, one event per call. *)
Inductive Event :=
| EvOut (text : string)
| EvErr (text : string)
| EvCreateFile (name : string) (access : Access) (creation : Creation)
    (result : HANDLE)
| EvSetFilePointerEnd (h : HANDLE)
| EvCreatePipe (result : option (HANDLE * HANDLE))
| EvCreateProcess (cmdline : string) (si : STARTUPINFO)
    (result : option PROCESS_INFORMATION)
| EvCloseHandle (h : HANDLE)
| EvWaitForSingleObject (h : HANDLE)
| EvWaitForMultipleObjects (hs : list HANDLE)
| EvGetExitCodeProcess (h : HANDLE) (result : option Z)
| EvTerminateProcess (h : HANDLE) (ok : bool)
| EvChdir (path : string) (ok : bool)
| EvSystem (cmd : string).

(** The state of the outside as the shell sees it: the supply of handle and
    process identifiers, the identifier of each process handle, and the
    trace of the calls made so far. *)
Record World := mkWorld {
  next_handle : Z;
  next_pid : Z;
  pids : list (HANDLE * Z);
  trace : list Event
}.

(** The answers of the system.  Each may depend on everything that happened
    before the call. *)
Record Env := mkEnv {
  env_create_file : World -> string -> Access -> Creation -> bool;
  env_create_pipe : World -> bool;
  env_create_process : World -> string -> STARTUPINFO -> bool;
  env_exit_code : World -> HANDLE -> option Z;
  env_terminate : World -> HANDLE -> bool;
  env_getenv : string -> option string;
  env_chdir : World -> string -> bool;
  env_std_handle : StdHandle -> HANDLE;
  env_last_error : World -> Z
}.

(** Calls are sequenced in a state monad over [World]. *)
Definition M (A : Type) : Type := World -> A * World.

Definition ret {A} (a : A) : M A := fun w => (a, w).

Definition bind {A B} (m : M A) (k : A -> M B) : M B :=
  fun w => let '(a, w') := m w in k a w'.

Notation "x <- m ;; k" := (bind m (fun x => k))
  (at level 20, m at level 99, k at level 200, only parsing).
Notation "m ;; k" := (bind m (fun _ => k))
  (at level 100, k at level 200, only parsing, right associativity).

(** The world after the events [evs], when no handle was handed out. *)
Definition log (w : World) (evs : list Event) : World :=
  {| next_handle := next_handle w; next_pid := next_pid w;
     pids := pids w; trace := trace w ++ evs |}.

Definition emit (e : Event) : M unit := fun w => (tt, log w [e]).

Definition cout (text : string) : M unit := emit (EvOut text).
Definition cerr (text : string) : M unit := emit (EvErr text).

Definition endl : string := String "010"%char "".
Definition dquote : string := String "034"%char "".

(** Like [emit], for a call that returns [n] new handles. *)
Definition emit_alloc (n : Z) (e : Event) : M unit :=
  fun w => (tt, {| next_handle := next_handle w + n; next_pid := next_pid w;
                   pids := pids w; trace := trace w ++ [e] |}).

Section Win32.
Variable env : Env.

Definition GetStdHandle (which : StdHandle) : HANDLE :=
  env_std_handle env which.

Definition CreateFileA (name : string) (access : Access)
    (creation : Creation) : M HANDLE :=
  fun w =>
    if env_create_file env w name access creation then
      let h := next_handle w in
      (h, snd (emit_alloc 1 (EvCreateFile name access creation h) w))
    else
      (INVALID_HANDLE_VALUE,
       snd (emit (EvCreateFile name access creation INVALID_HANDLE_VALUE) w)).

Definition SetFilePointerEnd (h : HANDLE) : M unit :=
  emit (EvSetFilePointerEnd h).

Definition CreatePipe : M (option (HANDLE * HANDLE)) :=
  fun w =>
    if env_create_pipe env w then
      let r := (next_handle w, next_handle w + 1) in
      (Some r, snd (emit_alloc 2 (EvCreatePipe (Some r)) w))
    else (None, snd (emit (EvCreatePipe None) w)).

Definition CreateProcessA (cmdline : string) (si : STARTUPINFO)
    : M (option PROCESS_INFORMATION) :=
  fun w =>
    if env_create_process env w cmdline si then
      let p := {| pi_hProcess := next_handle w;
                  pi_hThread := next_handle w + 1;
                  dwProcessId := next_pid w |} in
      (Some p,
       {| next_handle := next_handle w + 2; next_pid := next_pid w + 1;
          pids := (pi_hProcess p, dwProcessId p) :: pids w;
          trace := trace w ++ [EvCreateProcess cmdline si (Some p)] |})
    else (None, snd (emit (EvCreateProcess cmdline si None) w)).

Definition CloseHandle (h : HANDLE) : M unit := emit (EvCloseHandle h).

Definition WaitForSingleObject (h : HANDLE) : M unit :=
  emit (EvWaitForSingleObject h).

Definition WaitForMultipleObjects (hs : list HANDLE) : M unit :=
  emit (EvWaitForMultipleObjects hs).

Definition GetExitCodeProcess (h : HANDLE) : M (option Z) :=
  fun w => let r := env_exit_code env w h in
           (r, snd (emit (EvGetExitCodeProcess h r) w)).

Definition TerminateProcess (h : HANDLE) : M bool :=
  fun w => let r := env_terminate env w h in
           (r, snd (emit (EvTerminateProcess h r) w)).

Definition chdir (path : string) : M bool :=
  fun w => let r := env_chdir env w path in
           (r, snd (emit (EvChdir path r) w)).

Definition GetLastError : M Z := fun w => (env_last_error env w, w).

Fixpoint lookup_pid (h : HANDLE) (l : list (HANDLE * Z)) : Z :=
  match l with
  | [] => 0
  | (h', pid) :: rest => if Z.eqb h h' then pid else lookup_pid h rest
  end.

Definition GetProcessId (h : HANDLE) : M Z :=
  fun w => (lookup_pid h (pids w), w).

(** [for (auto h : hs) CloseHandle(h);] *)
Fixpoint close_all (hs : list HANDLE) : M unit :=
  match hs with
  | [] => ret tt
  | h :: rest => CloseHandle h ;; close_all rest
  end.
End Win32.

(** ** The shell *)

(** [struct Job]. *)
Record Job := mkJob {
  hProcess : HANDLE;
  processId : Z;
  command : string;
  completed : bool
}.

(** The data members of [class WindowsShell]. *)
Record Shell := mkShell {
  jobs : gmap Z Job;
  job_counter : Z;
  running : bool
}.

(** The state the constructor leaves. *)
Definition shell_init : Shell :=
  {| jobs := ∅; job_counter := 1; running := true |}.

(** What a call leaves behind: the shell goes on, or [exit] ended the
    process with a code. *)
Inductive Outcome :=
| Running (sh : Shell)
| Exited (code : Z).

(** *** Integers *)

Definition INT_MIN : Z := - 2 ^ 31.
Definition INT_MAX : Z := 2 ^ 31 - 1.

(** Arithmetic on [int] is taken to wrap around (two's complement). *)
Definition wrap_int (x : Z) : Z := (x + 2 ^ 31) mod 2 ^ 32 - 2 ^ 31.

Definition is_digit (c : ascii) : bool :=
  let n := nat_of_ascii c in ((48 <=? n) && (n <=? 57))%nat.

Definition digit_value (c : ascii) : Z := Z.of_nat (nat_of_ascii c) - 48.

Fixpoint skip_spaces (s : string) : string :=
  match s with
  | String c rest => if isspace c then skip_spaces rest else s
  | EmptyString => s
  end.

(** The value of the longest prefix of decimal digits. *)
Fixpoint read_digits (s : string) (acc : Z) : Z :=
  match s with
  | String c rest =>
      if is_digit c then read_digits rest (10 * acc + digit_value c) else acc
  | EmptyString => acc
  end.

(** [std::stoi(s)]: white space, an optional sign, then decimal digits; what
    follows the digits is not looked at.  [None] stands for the exception
    thrown when there is no digit ([invalid_argument]) or when the value is
    not an [int] ([out_of_range]). *)
Definition stoi (s : string) : option Z :=
  let s1 := skip_spaces s in
  let '(neg, s2) :=
    match s1 with
    | String "-"%char rest => (true, rest)
    | String "+"%char rest => (false, rest)
    | _ => (false, s1)
    end in
  match s2 with
  | String c _ =>
      if is_digit c then
        let v := read_digits s2 0 in
        let v := if neg then - v else v in
        if (INT_MIN <=? v) && (v <=? INT_MAX) then Some v else None
      else None
  | EmptyString => None
  end.

(** *** Command lines *)

Fixpoint has_space (s : string) : bool :=
  match s with
  | String c rest => if Ascii.eqb c " "%char then true else has_space rest
  | EmptyString => false
  end.

(** The loop of [build_command_line], from index [i] with [cmdline] built so
    far. *)
Fixpoint build_loop (i : nat) (rest : list string) (cmdline : string) : string :=
  match rest with
  | [] => cmdline
  | a :: rest' =>
      let cmdline := if (0 <? i)%nat then cmdline +:+ " " else cmdline in
      let cmdline :=
        if has_space a then cmdline +:+ (dquote +:+ a +:+ dquote)
        else cmdline +:+ a in
      build_loop (S i) rest' cmdline
  end.

Definition build_command_line (a : list string) : string := build_loop 0 a "".

(** *** Job management *)

Definition add_job (h : HANDLE) (pid : Z) (cmd : string) (sh : Shell) : Shell :=
  {| jobs := <[job_counter sh := mkJob h pid cmd false]> (jobs sh);
     job_counter := wrap_int (job_counter sh + 1);
     running := running sh |}.

Definition remove_job (job_id : Z) (sh : Shell) : Shell :=
  {| jobs := delete job_id (jobs sh);
     job_counter := job_counter sh;
     running := running sh |}.

Definition key_le (a b : Z * Job) : Prop := a.1 <= b.1.

Local Instance key_le_dec (a b : Z * Job) : Decision (key_le a b).
Proof. unfold key_le. apply _. Defined.

(** The entries of a [std::map<int, Job>] in the order of iteration. *)
Definition in_order (m : gmap Z Job) : list (Z * Job) :=
  merge_sort key_le (map_to_list m).

Definition show (n : Z) : string := pretty.pretty n.

Section Shell.
Variable env : Env.

(** The first loop of [check_background_jobs]: [completed_jobs] after the
    entries in [l]. *)
Fixpoint poll_jobs (l : list (Z * Job)) (completed_jobs : list Z)
    : M (list Z) :=
  match l with
  | [] => ret completed_jobs
  | (job_id, job) :: rest =>
      if negb (Z.eqb (hProcess job) NULL) then
        r <- GetExitCodeProcess env (hProcess job) ;;
        match r with
        | Some exitCode =>
            if negb (Z.eqb exitCode STILL_ACTIVE) then
              cout ("[" +:+ show job_id +:+ "] Done    "
                    +:+ command job +:+ endl) ;;
              CloseHandle (hProcess job) ;;
              poll_jobs rest (completed_jobs ++ [job_id])
            else poll_jobs rest completed_jobs
        | None => poll_jobs rest completed_jobs
        end
      else poll_jobs rest completed_jobs
  end.

Definition check_background_jobs (sh : Shell) : M Shell :=
  completed_jobs <- poll_jobs (in_order (jobs sh)) [] ;;
  ret (fold_left (fun s job_id => remove_job job_id s) completed_jobs sh).

Definition when (b : bool) (m : M unit) : M unit := if b then m else ret tt.

(** [args[i]]; the tokens of a parsed stage are never indexed out of range
    where that matters, the empty string stands for the rest. *)
Definition arg (i : nat) (a : list string) : string := nth i a "".

(** [for (auto& job_pair : jobs) if (hProcess) CloseHandle(hProcess);] *)
Fixpoint close_jobs (l : list (Z * Job)) : M unit :=
  match l with
  | [] => ret tt
  | (_, job) :: rest =>
      when (negb (Z.eqb (hProcess job) NULL)) (CloseHandle (hProcess job)) ;;
      close_jobs rest
  end.

(** *** Builtins *)

Definition builtin_cd (a : list string) : M unit :=
  let go (path : string) : M unit :=
    ok <- chdir env path ;;
    when (negb ok) (cerr ("cd: cannot change directory to " +:+ path +:+ endl))
  in
  if (length a <? 2)%nat then
    match env_getenv env "USERPROFILE" with
    | Some path => go path
    | None =>
        match env_getenv env "HOME" with
        | Some path => go path
        | None => cerr ("cd: HOME not set" +:+ endl)
        end
    end
  else go (arg 1 a).

(** [running = false] is followed at once by [exit(exit_code)], which ends
    the process: the outcome is [Exited]. *)
Definition builtin_exit (a : list string) (sh : Shell) : M Outcome :=
  let finish (exit_code : Z) : M Outcome :=
    close_jobs (in_order (jobs sh)) ;;
    ret (Exited exit_code)
  in
  if (1 <? length a)%nat then
    match stoi (arg 1 a) with
    | Some exit_code => finish exit_code
    | None => cerr ("exit: invalid argument" +:+ endl) ;; ret (Running sh)
    end
  else finish 0.

Fixpoint list_jobs (l : list (Z * Job)) : M unit :=
  match l with
  | [] => ret tt
  | (job_id, job) :: rest =>
      when (negb (completed job))
        (cout ("[" +:+ show job_id +:+ "] " +:+ "PID:"
               +:+ show (processId job) +:+ " " +:+ command job +:+ endl)) ;;
      list_jobs rest
  end.

Definition builtin_jobs (sh : Shell) : M Shell :=
  sh <- check_background_jobs sh ;;
  if bool_decide (jobs sh = ∅) then
    cout ("No background jobs" +:+ endl) ;; ret sh
  else list_jobs (in_order (jobs sh)) ;; ret sh.

Definition builtin_fg (a : list string) (sh : Shell) : M Shell :=
  if (length a <? 2)%nat then
    cerr ("fg: job id required" +:+ endl) ;; ret sh
  else
    match stoi (arg 1 a) with
    | None => cerr ("fg: invalid job id" +:+ endl) ;; ret sh
    | Some job_id =>
        match jobs sh !! job_id with
        | None => cerr ("fg: job not found" +:+ endl) ;; ret sh
        | Some job =>
            cout (command job +:+ endl) ;;
            WaitForSingleObject (hProcess job) ;;
            CloseHandle (hProcess job) ;;
            ret (remove_job job_id sh)
        end
    end.

Definition builtin_kill (a : list string) (sh : Shell) : M Shell :=
  if (length a <? 2)%nat then
    cerr ("kill: job id required" +:+ endl) ;; ret sh
  else
    match stoi (arg 1 a) with
    | None => cerr ("kill: invalid job id" +:+ endl) ;; ret sh
    | Some job_id =>
        match jobs sh !! job_id with
        | None => cerr ("kill: job not found" +:+ endl) ;; ret sh
        | Some job =>
            ok <- TerminateProcess env (hProcess job) ;;
            if ok then
              cout ("[" +:+ show job_id +:+ "] Terminated" +:+ endl) ;;
              CloseHandle (hProcess job) ;;
              ret (remove_job job_id sh)
            else
              cerr ("kill: failed to terminate process" +:+ endl) ;; ret sh
        end
    end.

Definition builtin_help : M unit :=
  cout (endl +:+ "=== Windows Mini Shell Help ===" +:+ endl +:+ endl) ;;
  cout ("Built-in Commands:" +:+ endl) ;;
  cout ("  cd [dir]     - Change directory" +:+ endl) ;;
  cout ("  exit [code]  - Exit shell" +:+ endl) ;;
  cout ("  jobs         - List background jobs" +:+ endl) ;;
  cout ("  fg <id>      - Bring job to foreground" +:+ endl) ;;
  cout ("  kill <id>    - Terminate background job" +:+ endl) ;;
  cout ("  cls/clear    - Clear screen" +:+ endl) ;;
  cout ("  help         - Show this help" +:+ endl +:+ endl) ;;
  cout ("Features:" +:+ endl) ;;
  cout ("  Pipes:       cmd1 | cmd2 | cmd3" +:+ endl) ;;
  cout ("  Redirect:    cmd < input.txt > output.txt" +:+ endl) ;;
  cout ("  Append:      cmd >> output.txt" +:+ endl) ;;
  cout ("  Background:  cmd &" +:+ endl +:+ endl) ;;
  cout ("Examples:" +:+ endl) ;;
  cout ("  dir | findstr .cpp" +:+ endl) ;;
  cout ("  type file.txt | sort > sorted.txt" +:+ endl) ;;
  cout ("  ping google.com -n 10 &" +:+ endl) ;;
  cout ("  jobs" +:+ endl) ;;
  cout ("  kill 1" +:+ endl +:+ endl).

(** [handle_builtin]: [None] when the command is not a builtin (the
    function returns [false]), the outcome of the builtin otherwise. *)
Definition handle_builtin (cmd : Command) (sh : Shell) : M (option Outcome) :=
  if vec_empty (args cmd) then ret None
  else
    let name := arg 0 (args cmd) in
    if String.eqb name "cd" then
      builtin_cd (args cmd) ;; ret (Some (Running sh))
    else if String.eqb name "exit" then
      o <- builtin_exit (args cmd) sh ;; ret (Some o)
    else if String.eqb name "jobs" then
      sh <- builtin_jobs sh ;; ret (Some (Running sh))
    else if String.eqb name "fg" then
      sh <- builtin_fg (args cmd) sh ;; ret (Some (Running sh))
    else if String.eqb name "kill" then
      sh <- builtin_kill (args cmd) sh ;; ret (Some (Running sh))
    else if String.eqb name "help" then
      builtin_help ;; ret (Some (Running sh))
    else if String.eqb name "cls" || String.eqb name "clear" then
      emit (EvSystem "cls") ;; ret (Some (Running sh))
    else ret None.

(** *** Process creation and execution *)

Definition valid (h : HANDLE) : bool := negb (Z.eqb h INVALID_HANDLE_VALUE).

(** [execute_command] from [CreateProcessA] on, with the files opened. *)
Definition execute_command_launch (cmd : Command) (sh : Shell)
    (hInputFile hOutputFile : HANDLE) (si : STARTUPINFO) : M Shell :=
  let cmdline := build_command_line (args cmd) in
  r <- CreateProcessA env cmdline si ;;
  when (valid hInputFile) (CloseHandle hInputFile) ;;
  when (valid hOutputFile) (CloseHandle hOutputFile) ;;
  match r with
  | None =>
      cerr ("Error: Cannot execute command: " +:+ arg 0 (args cmd) +:+ endl) ;;
      e <- GetLastError env ;;
      cerr ("Error code: " +:+ show e +:+ endl) ;;
      ret sh
  | Some p =>
      if background cmd then
        let cmd_string := build_command_line (args cmd) in
        let sh := add_job (pi_hProcess p) (dwProcessId p) cmd_string sh in
        cout ("[" +:+ show (wrap_int (job_counter sh - 1)) +:+ "] "
              +:+ show (dwProcessId p) +:+ endl) ;;
        CloseHandle (pi_hThread p) ;;
        ret sh
      else
        WaitForSingleObject (pi_hProcess p) ;;
        CloseHandle (pi_hProcess p) ;;
        CloseHandle (pi_hThread p) ;;
        ret sh
  end.

(** [execute_command] from the output redirection on. *)
Definition execute_command_output (cmd : Command) (sh : Shell)
    (hInputFile : HANDLE) (si : STARTUPINFO) : M Shell :=
  if negb (string_empty (output_file cmd)) then
    let creation := if append_output cmd then OPEN_ALWAYS else CREATE_ALWAYS in
    hOutputFile <- CreateFileA env (output_file cmd) GENERIC_WRITE creation ;;
    if negb (valid hOutputFile) then
      cerr ("Error: Cannot open output file " +:+ output_file cmd +:+ endl) ;;
      when (valid hInputFile) (CloseHandle hInputFile) ;;
      ret sh
    else
      when (append_output cmd) (SetFilePointerEnd hOutputFile) ;;
      execute_command_launch cmd sh hInputFile hOutputFile
        {| hStdInput := hStdInput si; hStdOutput := hOutputFile;
           hStdError := hOutputFile; dwFlags := true |}
  else execute_command_launch cmd sh hInputFile INVALID_HANDLE_VALUE si.

Definition execute_command (cmd : Command) (sh : Shell) : M Shell :=
  if vec_empty (args cmd) then ret sh
  else
    let si := {| hStdInput := NULL; hStdOutput := NULL; hStdError := NULL;
                 dwFlags := false |} in
    if negb (string_empty (input_file cmd)) then
      hInputFile <- CreateFileA env (input_file cmd) GENERIC_READ OPEN_EXISTING ;;
      if negb (valid hInputFile) then
        cerr ("Error: Cannot open input file " +:+ input_file cmd +:+ endl) ;;
        ret sh
      else
        execute_command_output cmd sh hInputFile
          {| hStdInput := hInputFile; hStdOutput := hStdOutput si;
             hStdError := hStdError si; dwFlags := true |}
    else execute_command_output cmd sh INVALID_HANDLE_VALUE si.

(** The first loop of [execute_pipeline], with [k] pipes still to create:
    [None] when [CreatePipe] fails and the function returns. *)
Fixpoint create_pipes (k : nat) (hReadPipes hWritePipes : list HANDLE)
    : M (option (list HANDLE * list HANDLE)) :=
  match k with
  | O => ret (Some (hReadPipes, hWritePipes))
  | S k' =>
      r <- CreatePipe env ;;
      match r with
      | None => cerr ("Error: Cannot create pipe" +:+ endl) ;; ret None
      | Some (hReadPipe, hWritePipe) =>
          create_pipes k' (hReadPipes ++ [hReadPipe])
            (hWritePipes ++ [hWritePipe])
      end
  end.

(** The standard input of stage [i]. *)
Definition setup_stdin (i : nat) (cmd : Command) (hReadPipes : list HANDLE)
    : M HANDLE :=
  if (i =? 0)%nat then
    if negb (string_empty (input_file cmd)) then
      CreateFileA env (input_file cmd) GENERIC_READ OPEN_EXISTING
    else ret (GetStdHandle env STD_INPUT_HANDLE)
  else ret (nth (i - 1) hReadPipes NULL).

(** The standard output of stage [i]. *)
Definition setup_stdout (num_commands i : nat) (cmd : Command)
    (hWritePipes : list HANDLE) : M HANDLE :=
  if (i =? num_commands - 1)%nat then
    if negb (string_empty (output_file cmd)) then
      let creation :=
        if append_output cmd then OPEN_ALWAYS else CREATE_ALWAYS in
      h <- CreateFileA env (output_file cmd) GENERIC_WRITE creation ;;
      when (append_output cmd && valid h) (SetFilePointerEnd h) ;;
      ret h
    else ret (GetStdHandle env STD_OUTPUT_HANDLE)
  else ret (nth i hWritePipes NULL).

(** The second loop of [execute_pipeline], from stage [i] on; [rest] are the
    stages [commands[i]], [commands[i+1]], ... *)
Fixpoint launch_stages (num_commands : nat) (hReadPipes hWritePipes : list HANDLE)
    (i : nat) (rest : list Command) (hProcesses : list HANDLE)
    : M (list HANDLE) :=
  match rest with
  | [] => ret hProcesses
  | cmd :: rest' =>
      hin <- setup_stdin i cmd hReadPipes ;;
      hout <- setup_stdout num_commands i cmd hWritePipes ;;
      let si := {| hStdInput := hin; hStdOutput := hout;
                   hStdError := GetStdHandle env STD_ERROR_HANDLE;
                   dwFlags := true |} in
      let cmdline := build_command_line (args cmd) in
      r <- CreateProcessA env cmdline si ;;
      match r with
      | None =>
          cerr ("Error: Cannot execute " +:+ arg 0 (args cmd) +:+ endl) ;;
          launch_stages num_commands hReadPipes hWritePipes (S i) rest'
            hProcesses
      | Some p =>
          CloseHandle (pi_hThread p) ;;
          launch_stages num_commands hReadPipes hWritePipes (S i) rest'
            (hProcesses ++ [pi_hProcess p])
      end
  end.

(** The text of a background pipeline: the stages joined by [" | "]. *)
Fixpoint pipeline_text (cmds : list Command) (cmd_string : string) : string :=
  match cmds with
  | [] => cmd_string
  | cmd :: rest =>
      let cmd_string := cmd_string +:+ build_command_line (args cmd) in
      let cmd_string :=
        if vec_empty rest then cmd_string else cmd_string +:+ " | " in
      pipeline_text rest cmd_string
  end.

(** [commands.back()]. *)
Definition back (cmds : list Command) : Command := List.last cmds Command0.

(** [execute_pipeline] after the parent closed its pipe handles. *)
Definition execute_pipeline_finish (cmds : list Command) (sh : Shell)
    (hProcesses : list HANDLE) : M Shell :=
  let background := background (back cmds) in
  if background then
    sh <- (match hProcesses with
           | [] => ret sh
           | h0 :: _ =>
               let cmd_string := pipeline_text cmds "" in
               pid <- GetProcessId h0 ;;
               let sh := add_job h0 pid cmd_string sh in
               cout ("[" +:+ show (wrap_int (job_counter sh - 1)) +:+ "] "
                     +:+ show pid +:+ endl) ;;
               ret sh
           end) ;;
    close_all (tail hProcesses) ;;
    ret sh
  else
    when (negb (vec_empty hProcesses)) (WaitForMultipleObjects hProcesses) ;;
    close_all hProcesses ;;
    ret sh.

Definition execute_pipeline (cmds : list Command) (sh : Shell) : M Outcome :=
  match cmds with
  | [] => ret (Running sh)
  | [cmd] =>
      r <- handle_builtin cmd sh ;;
      match r with
      | Some o => ret o
      | None => sh <- execute_command cmd sh ;; ret (Running sh)
      end
  | _ =>
      let num_commands := length cmds in
      pipes <- create_pipes (num_commands - 1) [] [] ;;
      match pipes with
      | None => ret (Running sh)
      | Some (hReadPipes, hWritePipes) =>
          hProcesses <-
            launch_stages num_commands hReadPipes hWritePipes 0 cmds [] ;;
          close_all hReadPipes ;;
          close_all hWritePipes ;;
          sh <- execute_pipeline_finish cmds sh hProcesses ;;
          ret (Running sh)
      end
  end.
End Shell.

(** The world before the first call. *)
Definition world_init : World :=
  {| next_handle := 4; next_pid := 1000; pids := []; trace := [] |}.

(** * Vocabulary of the properties *)

(** ** Numerals *)

(** A numeral: an optional sign, then decimal digits up to the end and at
    least one of them. *)
Fixpoint all_digits (s : string) : bool :=
  match s with
  | String c rest => is_digit c && all_digits rest
  | EmptyString => true
  end.

Definition is_integer (s : string) : bool :=
  let body :=
    match s with
    | String "-"%char rest => rest
    | String "+"%char rest => rest
    | _ => s
    end in
  negb (string_empty body) && all_digits body.

Definition starts_with_digit (s : string) : bool :=
  match s with
  | String c _ => is_digit c
  | EmptyString => false
  end.

(** What [stoi] does after the sign. *)
Definition stoi_body (neg : bool) (s2 : string) : option Z :=
  match s2 with
  | String c _ =>
      if is_digit c then
        let v := read_digits s2 0 in
        let v := if neg then - v else v in
        if (INT_MIN <=? v) && (v <=? INT_MAX) then Some v else None
      else None
  | EmptyString => None
  end.

(** ** Sessions of registry operations *)

(** The poll counts a job as finished when its handle is not [NULL] and
    the query of its exit code succeeds with a code other than
    [STILL_ACTIVE]. *)
Definition finished (env : Env) (job : Job) : Prop :=
  hProcess job <> NULL
  /\ exists (w : World) (exitCode : Z),
       env_exit_code env w (hProcess job) = Some exitCode
       /\ exitCode <> STILL_ACTIVE.

(** The operations on the registry: the two primitives, the poll, [fg] and
    [kill], and the execution of a parsed line, which dispatches to the
    builtins or launches processes. *)
Inductive Op :=
| OpAdd (h : HANDLE) (pid : Z) (cmd : string)
| OpRemove (job_id : Z)
| OpPoll
| OpFg (a : list string)
| OpKill (a : list string)
| OpExec (cmds : list Command).

Definition run_op (env : Env) (op : Op) (sh : Shell) : M Outcome :=
  match op with
  | OpAdd h pid cmd => ret (Running (add_job h pid cmd sh))
  | OpRemove job_id => ret (Running (remove_job job_id sh))
  | OpPoll => sh <- check_background_jobs env sh ;; ret (Running sh)
  | OpFg a => sh <- builtin_fg a sh ;; ret (Running sh)
  | OpKill a => sh <- builtin_kill env a sh ;; ret (Running sh)
  | OpExec cmds => execute_pipeline env cmds sh
  end.

(** The ids in use, in ascending order. *)
Definition job_ids (sh : Shell) : list Z := (in_order (jobs sh)).*1.

(** The ids an operation assigned: those in use after it that were not
    before. *)
Definition new_ids (sh sh' : Shell) : list Z :=
  filter (fun k => jobs sh !! k = None) (job_ids sh').

(** The ids assigned over a session, in the order of assignment.  The
    session ends with the list of operations or at [exit]. *)
Fixpoint session (env : Env) (ops : list Op) (sh : Shell) : M (list Z) :=
  match ops with
  | [] => ret []
  | op :: rest =>
      o <- run_op env op sh ;;
      match o with
      | Exited _ => ret []
      | Running sh' =>
          ids <- session env rest sh' ;;
          ret (new_ids sh sh' ++ ids)
      end
  end.

(** [start], [start + 1], ..., [n] numbers. *)
Definition Z_seq (start : Z) (n : nat) : list Z :=
  map (fun i => start + Z.of_nat i) (seq 0 n).

(** Every id in use is positive and below the counter. *)
Definition ids_below_counter (sh : Shell) : Prop :=
  1 <= job_counter sh
  /\ forall (k : Z) (job : Job), jobs sh !! k = Some job -> 1 <= k < job_counter sh.

(** What an operation can do to the registry: drop entries, or add one job
    with [add_job]. *)
Definition registry_step (sh sh' : Shell) : Prop :=
  (job_counter sh' = job_counter sh /\ jobs sh' ⊆ jobs sh)
  \/ exists h pid cmd, sh' = add_job h pid cmd sh.

(** Two background launches with a poll in between that removes the first
    job, which has exited: the second launch still gets the id 2. *)
Definition two_launches : list Op :=
  [OpExec (parse_input "ping a &"); OpPoll; OpExec (parse_input "ping b &")].

(** ** What a trace shows *)

(** The pipes created, as pairs of the read and the write end. *)
Definition created_pipes (tr : list Event) : list (HANDLE * HANDLE) :=
  flat_map (fun e => match e with EvCreatePipe (Some p) => [p] | _ => [] end) tr.

(** The pipe handles opened by the parent. *)
Definition pipe_ends (tr : list Event) : list HANDLE :=
  flat_map (fun p => [fst p; snd p]) (created_pipes tr).

(** The handles closed by the parent. *)
Definition closed (tr : list Event) : list HANDLE :=
  flat_map (fun e => match e with EvCloseHandle h => [h] | _ => [] end) tr.

(** The launches attempted: command line and standard handles. *)
Definition launches (tr : list Event) : list (string * STARTUPINFO) :=
  flat_map (fun e => match e with
                     | EvCreateProcess c si _ => [(c, si)]
                     | _ => []
                     end) tr.

(** The handles of the processes launched. *)
Definition launched (tr : list Event) : list HANDLE :=
  flat_map (fun e => match e with
                     | EvCreateProcess _ _ (Some p) => [pi_hProcess p]
                     | _ => []
                     end) tr.

(** The handles the shell waited on. *)
Definition waited (tr : list Event) : list HANDLE :=
  flat_map (fun e => match e with
                     | EvWaitForSingleObject h => [h]
                     | EvWaitForMultipleObjects hs => hs
                     | _ => []
                     end) tr.

(** The files the shell tried to open. *)
Definition opened_files (tr : list Event) : list string :=
  flat_map (fun e => match e with EvCreateFile n _ _ _ => [n] | _ => [] end) tr.

(** The messages on [std::cerr]. *)
Definition errors (tr : list Event) : list string :=
  flat_map (fun e => match e with EvErr t => [t] | _ => [] end) tr.

(** The pipe handles the parent still holds: opened and not closed. *)
Definition leaked_pipe_ends (tr : list Event) : list HANDLE :=
  list_difference (pipe_ends tr) (closed tr).

(** The events of the calls after which the trace is [trace w ++ evs]. *)
Definition appends (w w' : World) (evs : list Event) : Prop :=
  trace w' = trace w ++ evs.

(** The events of opening a redirection file. *)
Definition is_file_event (e : Event) : bool :=
  match e with
  | EvCreateFile _ _ _ _ | EvSetFilePointerEnd _ => true
  | _ => false
  end.

(** Stage [i] of [num_commands] is wired to the pipes: its input is the
    read end of pipe [i - 1] unless it is the first stage, its output is
    the write end of pipe [i] unless it is the last one. *)
Definition stage_wired (num_commands : nat) (rs ws : list HANDLE) (i : nat)
    (si : STARTUPINFO) : Prop :=
  ((0 < i)%nat -> hStdInput si = nth (i - 1) rs NULL)
  /\ ((i < num_commands - 1)%nat -> hStdOutput si = nth i ws NULL).

Fixpoint stages_wired (num_commands : nat) (rs ws : list HANDLE) (i : nat)
    (sis : list STARTUPINFO) : Prop :=
  match sis with
  | [] => True
  | si :: rest =>
      stage_wired num_commands rs ws i si
      /\ stages_wired num_commands rs ws (S i) rest
  end.

(** The redirection files the launch loop opens from stage [i] on: the
    input file of the first stage and the output file of the last. *)
Fixpoint stage_files (num_commands i : nat) (rest : list Command)
    : list string :=
  match rest with
  | [] => []
  | cmd :: rest' =>
      (if (i =? 0)%nat && negb (string_empty (input_file cmd))
       then [input_file cmd] else [])
      ++ (if (i =? num_commands - 1)%nat
             && negb (string_empty (output_file cmd))
          then [output_file cmd] else [])
      ++ stage_files num_commands (S i) rest'
  end.

Definition pipe_events (ps : list (HANDLE * HANDLE)) : list Event :=
  map (fun p => EvCreatePipe (Some p)) ps.

(** What the end of [execute_pipeline] does with the processes [hp]: the
    shell after it and the events. *)
Definition finish_spec (cmds : list Command) (sh : Shell) (hp : list HANDLE)
    (sh' : Shell) (fin : list Event) : Prop :=
  if background (back cmds) then
    match hp with
    | [] => sh' = sh /\ fin = []
    | h0 :: hs =>
        exists pid : Z,
          sh' = add_job h0 pid (pipeline_text cmds "") sh
          /\ fin = [EvOut ("[" +:+ show (wrap_int (job_counter sh' - 1)) +:+ "] "
                           +:+ show pid +:+ endl)]
                   ++ map EvCloseHandle hs
    end
  else
    sh' = sh
    /\ fin = (if vec_empty hp then [] else [EvWaitForMultipleObjects hp])
             ++ map EvCloseHandle hp.

(** The two ways through [execute_pipeline] for [cmds] of two stages or
    more.  Either a [CreatePipe] fails: the pipes [ps] created before it are
    fewer than needed and the function returns after the error message.  Or
    all pipes [ps] are created, the stages are launched (events [evs]), the
    parent closes the read ends and then the write ends, and the end of the
    function (events [fin]) waits or registers a job. *)
Inductive pipeline_run (env : Env) (cmds : list Command) (sh : Shell)
    (w : World) : Outcome * World -> Prop :=
| PipeFailed (ps : list (HANDLE * HANDLE)) (w' : World) :
    (length ps < length cmds - 1)%nat ->
    (exists w0, env_create_pipe env w0 = false) ->
    appends w w' (pipe_events ps
                  ++ [EvCreatePipe None;
                      EvErr ("Error: Cannot create pipe" +:+ endl)]) ->
    pipeline_run env cmds sh w (Running sh, w')
| PipeLaunched (ps : list (HANDLE * HANDLE)) (evs fin : list Event)
    (sh' : Shell) (w' : World) :
    length ps = (length cmds - 1)%nat ->
    map fst (launches evs) = map (fun c => build_command_line (args c)) cmds ->
    stages_wired (length cmds) ps.*1 ps.*2 0 (map snd (launches evs)) ->
    waited evs = [] ->
    created_pipes evs = [] ->
    opened_files evs = stage_files (length cmds) 0 cmds ->
    (length (errors evs) + length (launched evs))%nat = length cmds ->
    finish_spec cmds sh (launched evs) sh' fin ->
    appends w w' (pipe_events ps ++ evs ++ map EvCloseHandle ps.*1
                  ++ map EvCloseHandle ps.*2 ++ fin) ->
    pipeline_run env cmds sh w (Running sh', w').

(** ** Stages that an execution cannot tell apart *)

(** Two stages at index [i] that the launch loop cannot tell apart: they
    agree on the arguments and on the output redirection, and on the input
    file if they are the first stage. *)
Definition stage_equiv (i : nat) (c c' : Command) : Prop :=
  args c = args c'
  /\ output_file c = output_file c'
  /\ append_output c = append_output c'
  /\ (i = 0%nat -> input_file c = input_file c').

Fixpoint stages_equiv (i : nat) (l l' : list Command) : Prop :=
  match l, l' with
  | [], [] => True
  | c :: rest, c' :: rest' => stage_equiv i c c' /\ stages_equiv (S i) rest rest'
  | _, _ => False
  end.


(** Two stages that differ at most in their input file. *)
Definition same_but_input (c c' : Command) : Prop :=
  args c = args c' /\ output_file c = output_file c'
  /\ append_output c = append_output c' /\ background c = background c'.

(** ** Systems and registries of the examples *)

(** An environment in which every call of the system succeeds and every
    process tracked is still active. *)
Definition env_ok : Env :=
  {| env_create_file := fun _ _ _ _ => true;
     env_create_pipe := fun _ => true;
     env_create_process := fun _ _ _ => true;
     env_exit_code := fun _ _ => Some STILL_ACTIVE;
     env_terminate := fun _ _ => true;
     env_getenv := fun _ => None;
     env_chdir := fun _ _ => true;
     env_std_handle := fun s =>
       match s with
       | STD_INPUT_HANDLE => 1
       | STD_OUTPUT_HANDLE => 2
       | STD_ERROR_HANDLE => 3
       end;
     env_last_error := fun _ => 0 |}.

(** A system that refuses to terminate anything. *)
Definition env_no_terminate : Env :=
  {| env_create_file := env_create_file env_ok;
     env_create_pipe := env_create_pipe env_ok;
     env_create_process := env_create_process env_ok;
     env_exit_code := env_exit_code env_ok;
     env_terminate := fun _ _ => false;
     env_getenv := env_getenv env_ok;
     env_chdir := env_chdir env_ok;
     env_std_handle := env_std_handle env_ok;
     env_last_error := env_last_error env_ok |}.

(** A system whose query of the exit code fails for every handle. *)
Definition env_no_query : Env :=
  {| env_create_file := env_create_file env_ok;
     env_create_pipe := env_create_pipe env_ok;
     env_create_process := env_create_process env_ok;
     env_exit_code := fun _ _ => None;
     env_terminate := env_terminate env_ok;
     env_getenv := env_getenv env_ok;
     env_chdir := env_chdir env_ok;
     env_std_handle := env_std_handle env_ok;
     env_last_error := env_last_error env_ok |}.

(** A system in which every tracked process has exited with code 0. *)
Definition env_all_exited : Env :=
  {| env_create_file := env_create_file env_ok;
     env_create_pipe := env_create_pipe env_ok;
     env_create_process := env_create_process env_ok;
     env_exit_code := fun _ _ => Some 0;
     env_terminate := env_terminate env_ok;
     env_getenv := env_getenv env_ok;
     env_chdir := env_chdir env_ok;
     env_std_handle := env_std_handle env_ok;
     env_last_error := env_last_error env_ok |}.

(** A system with room for a single pipe: [CreatePipe] succeeds as long as
    no pipe was created. *)
Definition env_one_pipe : Env :=
  {| env_create_file := env_create_file env_ok;
     env_create_pipe := fun w => (length (created_pipes (trace w)) <? 1)%nat;
     env_create_process := env_create_process env_ok;
     env_exit_code := env_exit_code env_ok;
     env_terminate := env_terminate env_ok;
     env_getenv := env_getenv env_ok;
     env_chdir := env_chdir env_ok;
     env_std_handle := env_std_handle env_ok;
     env_last_error := env_last_error env_ok |}.

(** A system in which no file can be opened. *)
Definition env_no_files : Env :=
  {| env_create_file := fun _ _ _ _ => false;
     env_create_pipe := env_create_pipe env_ok;
     env_create_process := env_create_process env_ok;
     env_exit_code := env_exit_code env_ok;
     env_terminate := env_terminate env_ok;
     env_getenv := env_getenv env_ok;
     env_chdir := env_chdir env_ok;
     env_std_handle := env_std_handle env_ok;
     env_last_error := env_last_error env_ok |}.

(** A system in which [cat missing.txt] cannot be launched. *)
Definition env_no_cat : Env :=
  {| env_create_file := env_create_file env_ok;
     env_create_pipe := env_create_pipe env_ok;
     env_create_process := fun _ c _ => negb (String.eqb c "cat missing.txt");
     env_exit_code := env_exit_code env_ok;
     env_terminate := env_terminate env_ok;
     env_getenv := env_getenv env_ok;
     env_chdir := env_chdir env_ok;
     env_std_handle := env_std_handle env_ok;
     env_last_error := env_last_error env_ok |}.

(** A registry with the single job 1. *)
Definition shell_one_job : Shell := add_job 8 1000 "ping" shell_init.

(** ** Lines and tokens *)

(** A string of white space only. *)
Fixpoint all_space (s : string) : bool :=
  match s with
  | String c rest => isspace c && all_space rest
  | EmptyString => true
  end.

(** A string without white space. *)
Fixpoint no_space (s : string) : bool :=
  match s with
  | String c rest => negb (isspace c) && no_space rest
  | EmptyString => true
  end.

(** A word: not empty and without white space. *)
Definition is_word (s : string) : bool := negb (string_empty s) && no_space s.

(** A plain word: a word that is none of the five operators. *)
Definition is_plain (s : string) : bool := is_word s && negb (is_operator s).

(** A stage made from [tokens]: its arguments are tokens that are not
    operators, and so are its files when they are set. *)
Definition stage_of (tokens : list string) (c : Command) : Prop :=
  Forall (fun a => a ∈ tokens /\ is_operator a = false) (args c)
  /\ (input_file c = "" \/ input_file c ∈ tokens /\ is_operator (input_file c) = false)
  /\ (output_file c = "" \/ output_file c ∈ tokens /\ is_operator (output_file c) = false).

(** An argument as [build_command_line] writes it. *)
Definition quote_arg (a : string) : string :=
  if has_space a then dquote +:+ a +:+ dquote else a.

(** The stage of a command without redirection. *)
Definition plain_stage (a : list string) : Command := set_args Command0 a.

(** The tokens of the stages [stages] separated by ['|']. *)
Fixpoint pipe_tokens (stages : list (list string)) : list string :=
  match stages with
  | [] => []
  | [a] => a
  | a :: rest => a ++ "|" :: pipe_tokens rest
  end.

(** ** Builtins *)

(** The names [handle_builtin] knows. *)
Definition is_builtin (name : string) : bool :=
  existsb (String.eqb name)
    ["cd"; "exit"; "jobs"; "fg"; "kill"; "help"; "cls"; "clear"].

(** A launch: a single command that is not a builtin and has no
    redirection. *)
Definition is_launch (cmd : Command) : bool :=
  negb (vec_empty (args cmd)) && negb (is_builtin (arg 0 (args cmd)))
  && string_empty (input_file cmd) && string_empty (output_file cmd).

(** The operations of a session whose effect on the registry is told by the
    operation alone where processes can be created: the two primitives, the
    poll, [fg], [kill], and the launch of a single command. *)
Definition registry_op (op : Op) : bool :=
  match op with
  | OpExec [cmd] => is_launch cmd
  | OpExec _ => false
  | _ => true
  end.

(** The jobs such an operation registers: one for [add_job] and for the
    launch of a command in the background, none for the others. *)
Definition registrations (op : Op) : nat :=
  match op with
  | OpAdd _ _ _ => 1
  | OpExec [cmd] => if background cmd then 1 else 0
  | _ => 0
  end.

Definition registered (ops : list Op) : nat :=
  sum_list (map registrations ops).

(** The handles [builtin_exit] and the destructor close: those of the
    tracked jobs that are not [NULL], in the order of the ids. *)
Definition tracked_handles (sh : Shell) : list HANDLE :=
  List.filter (fun h => negb (Z.eqb h NULL))
    (map (fun e => hProcess (snd e)) (in_order (jobs sh))).

(** The line [builtin_jobs] prints for a job. *)
Definition job_line (e : Z * Job) : string :=
  "[" +:+ show (fst e) +:+ "] " +:+ "PID:" +:+ show (processId (snd e))
  +:+ " " +:+ command (snd e) +:+ endl.

(** The texts on [std::cout]. *)
Definition printed (tr : list Event) : list string :=
  flat_map (fun e => match e with EvOut t => [t] | _ => [] end) tr.

(** The line the poll prints for a finished job. *)
Definition done_line (e : Z * Job) : string :=
  "[" +:+ show (fst e) +:+ "] Done    " +:+ command (snd e) +:+ endl.

(** A system whose answer on the exit code of a process does not change:
    no job changes state. *)
Definition exit_codes_stable (env : Env) : Prop :=
  forall (w1 w2 : World) (h : HANDLE),
    env_exit_code env w1 h = env_exit_code env w2 h.

(** A system that answers, in every world, that the process of handle 8 has
    exited and that every other process is active. *)
Definition env_job_exited : Env :=
  {| env_create_file := env_create_file env_ok;
     env_create_pipe := env_create_pipe env_ok;
     env_create_process := env_create_process env_ok;
     env_exit_code := fun _ h => if Z.eqb h 8 then Some 0 else Some STILL_ACTIVE;
     env_terminate := env_terminate env_ok;
     env_getenv := env_getenv env_ok;
     env_chdir := env_chdir env_ok;
     env_std_handle := env_std_handle env_ok;
     env_last_error := env_last_error env_ok |}.


(** The directory [builtin_cd] goes to: its argument, or the value of
    [USERPROFILE], or that of [HOME]. *)
Definition cd_target (env : Env) (a : list string) : option string :=
  if (length a <? 2)%nat then
    match env_getenv env "USERPROFILE" with
    | Some path => Some path
    | None => env_getenv env "HOME"
    end
  else Some (arg 1 a).

(** ** Handles *)

(** The file handles the shell got: the results of [CreateFileA] other than
    [INVALID_HANDLE_VALUE]. *)
Definition opened_handles (tr : list Event) : list HANDLE :=
  flat_map (fun e => match e with
                     | EvCreateFile _ _ _ h => if valid h then [h] else []
                     | _ => []
                     end) tr.

(** The thread handles of the processes launched. *)
Definition launched_threads (tr : list Event) : list HANDLE :=
  flat_map (fun e => match e with
                     | EvCreateProcess _ _ (Some p) => [pi_hThread p]
                     | _ => []
                     end) tr.

(** ** The session *)

(** [input.find_first_not_of(chars)], counted from [pos]; [None] is
    [std::string::npos]. *)
Fixpoint find_first_not_of (input chars : string) (pos : nat) : option nat :=
  match input with
  | EmptyString => None
  | String c rest =>
      if existsb (Ascii.eqb c) (list_ascii_of_string chars)
      then find_first_not_of rest chars (S pos)
      else Some pos
  end.

(** The test of [run] on a line: the line is skipped. *)
Definition skipped (input : string) : bool :=
  string_empty input
  || match find_first_not_of input
             (String " " (String "009" (String "010" ""))) 0 with
     | None => true
     | Some _ => false
     end.

(** The lines [run] executes. *)
Definition executed (lines : list string) : list string :=
  List.filter (fun input => negb (skipped input)) lines.

(** The code with which a line ends the shell, if it does: the line parses
    to one stage whose first argument is [exit], and the code is the value
    of its second argument, or 0 without one. *)
Definition exit_code (input : string) : option Z :=
  match parse_input input with
  | [cmd] =>
      if String.eqb (arg 0 (args cmd)) "exit" then
        if (1 <? length (args cmd))%nat then stoi (arg 1 (args cmd))
        else Some 0
      else None
  | _ => None
  end.

Section Session.
Variable env : Env.

(** [getcwd]: the current directory, if it can be told.  It may depend on
    everything that happened before the call. *)
Variable getcwd : World -> option string.

Definition display_prompt : M unit :=
  fun w =>
    match getcwd w with
    | Some cwd => cout ("shell:" +:+ cwd +:+ "> ") w
    | None => cout "shell> " w
    end.

(** The constructor. *)
Definition WindowsShell : M Shell :=
  cout endl ;;
  cout ("=============================================================" +:+ endl) ;;
  cout ("  Windows Mini Shell " +:+ endl) ;;
  cout ("=============================================================" +:+ endl) ;;
  cout ("Native Windows shell using Windows API" +:+ endl) ;;
  cout ("Type 'help' for available commands" +:+ endl) ;;
  cout ("Type 'exit' to quit" +:+ endl +:+ endl) ;;
  cout ("Features:" +:+ endl) ;;
  cout ("Command execution (CreateProcess)" +:+ endl) ;;
  cout ("  Pipelines (|)" +:+ endl) ;;
  cout ("  I/O Redirection (<, >, >>)" +:+ endl) ;;
  cout ("   Background jobs (&)" +:+ endl) ;;
  cout ("   Job control (jobs, fg, kill)" +:+ endl) ;;
  cout ("=============================================================" +:+ endl +:+ endl) ;;
  ret shell_init.

(** The destructor. *)
Definition WindowsShell_destroy (sh : Shell) : M unit :=
  close_jobs (in_order (jobs sh)).

(** [run], on the lines that [std::getline] gives before the end of the
    input.  The result is the outcome with the lines that were not read:
    the shell as the loop leaves it, or the code of the [exit] that ended
    the process. *)
Fixpoint run (lines : list string) (sh : Shell) : M (Outcome * list string) :=
  if running sh then
    sh <- check_background_jobs env sh ;;
    display_prompt ;;
    match lines with
    | [] => cout (endl +:+ "exit" +:+ endl) ;; ret (Running sh, [])
    | input :: rest =>
        if skipped input then run rest sh
        else
          o <- execute_pipeline env (parse_input input) sh ;;
          match o with
          | Running sh => run rest sh
          | Exited code => ret (Exited code, rest)
          end
    end
  else ret (Running sh, lines).

(** [main]: the exit status of the process, with the lines not read. *)
Definition main (lines : list string) : M (Z * list string) :=
  shell <- WindowsShell ;;
  r <- run lines shell ;;
  match r with
  | (Running shell, rest) => WindowsShell_destroy shell ;; ret (0, rest)
  | (Exited code, rest) => ret (code, rest)
  end.
End Session.

(** * Examples *)

Example parse_three_stages :
  parse_input "a | b | c"
  = [set_args Command0 ["a"]; set_args Command0 ["b"]; set_args Command0 ["c"]].
Proof. reflexivity. Qed.

Example parse_append_background :
  parse_input "a >> out.txt &"
  = [ {| args := ["a"]; input_file := ""; output_file := "out.txt";
         append_output := true; background := true |} ].
Proof. reflexivity. Qed.

Example stoi_42 : stoi "42" = Some 42. Proof. reflexivity. Qed.
Example stoi_neg : stoi "-7" = Some (-7). Proof. reflexivity. Qed.
Example stoi_prefix : stoi "12abc" = Some 12. Proof. reflexivity. Qed.
Example stoi_word : stoi "abc" = None. Proof. reflexivity. Qed.
Example stoi_big : stoi "99999999999" = None. Proof. reflexivity. Qed.

Example build_two : build_command_line ["dir"; "/b"] = "dir /b".
Proof. reflexivity. Qed.

(** * Properties of the parser *)

Lemma parse_loop_app (st : PState) (l1 l2 : list string) :
  parse_loop st (l1 ++ l2) = parse_loop (parse_loop st l1) l2.
Proof. unfold parse_loop. apply fold_left_app. Qed.

Lemma parse_loop_cons (st : PState) (t : string) (l : list string) :
  parse_loop st (t :: l) = parse_loop (parse_step st t) l.
Proof. reflexivity. Qed.

Lemma is_operator_cases (t : string) :
  is_operator t = true ->
  t = "|" \/ t = "<" \/ t = ">" \/ t = ">>" \/ t = "&".
Proof.
  unfold is_operator. rewrite !orb_true_iff, !String.eqb_eq. tauto.
Qed.

Lemma is_redirect_cases (t : string) :
  is_redirect t = true -> t = "<" \/ t = ">" \/ t = ">>".
Proof.
  unfold is_redirect. rewrite !orb_true_iff, !String.eqb_eq. tauto.
Qed.

(** What the loop body does with a plain token. *)
Lemma parse_step_plain (st : PState) (t : string) :
  is_operator t = false ->
  parse_step st t =
    if expect_input_file st then
      {| commands := commands st;
         current_cmd := set_input_file (current_cmd st) t;
         expect_input_file := false;
         expect_output_file := expect_output_file st |}
    else if expect_output_file st then
      {| commands := commands st;
         current_cmd := set_output_file (current_cmd st) t;
         expect_input_file := expect_input_file st;
         expect_output_file := false |}
    else
      {| commands := commands st;
         current_cmd := set_args (current_cmd st) (args (current_cmd st) ++ [t]);
         expect_input_file := expect_input_file st;
         expect_output_file := expect_output_file st |}.
Proof.
  unfold is_operator. rewrite !orb_false_iff.
  intros [[[[H1 H2] H3] H4] H5].
  unfold parse_step. rewrite H1, H2, H3, H4, H5. reflexivity.
Qed.

(** What the loop body does with ['|']: it closes the stage like the end of
    the input does, and keeps both expectations. *)
Lemma parse_step_pipe (st : PState) :
  commands (parse_step st "|") = parse_finish st
  /\ args (current_cmd (parse_step st "|")) = []
  /\ expect_input_file (parse_step st "|") = expect_input_file st
  /\ expect_output_file (parse_step st "|") = expect_output_file st.
Proof.
  unfold parse_step, parse_finish. simpl.
  destruct (args (current_cmd st)) eqn:E; simpl; rewrite ?E; auto.
Qed.

(** One operator after a stage without arguments. *)
Lemma parse_step_operator (st : PState) (o : string) :
  is_operator o = true ->
  args (current_cmd st) = [] ->
  let st' := parse_step st o in
  commands st' = commands st
  /\ args (current_cmd st') = []
  /\ input_file (current_cmd st') = input_file (current_cmd st)
  /\ output_file (current_cmd st') = output_file (current_cmd st)
  /\ expect_input_file st' = expect_input_file st || String.eqb "<" o
  /\ (expect_output_file st = true -> expect_output_file st' = true).
Proof.
  intros Ho Hargs.
  destruct (is_operator_cases o Ho) as [ -> | [ -> | [ -> | [ -> | -> ] ] ] ];
    unfold parse_step; simpl; rewrite ?Hargs; simpl;
    rewrite ?orb_false_r, ?orb_true_r; repeat split; auto.
Qed.

(** Operators after a stage without arguments: no stage is closed, no file
    name is assigned and no expectation is dropped. *)
Lemma parse_loop_operators (ops : list string) :
  Forall (fun o => is_operator o = true) ops ->
  forall st : PState,
    args (current_cmd st) = [] ->
    let st' := parse_loop st ops in
    commands st' = commands st
    /\ args (current_cmd st') = []
    /\ input_file (current_cmd st') = input_file (current_cmd st)
    /\ output_file (current_cmd st') = output_file (current_cmd st)
    /\ expect_input_file st'
       = expect_input_file st || existsb (String.eqb "<") ops
    /\ (expect_output_file st = true -> expect_output_file st' = true).
Proof.
  induction 1 as [|o ops Ho Hops IH]; intros st Hargs.
  - simpl. rewrite orb_false_r. repeat split; auto.
  - rewrite parse_loop_cons.
    destruct (parse_step_operator st o Ho Hargs) as (S1 & S2 & S3 & S4 & S5 & S6).
    destruct (IH (parse_step st o) S2) as (I1 & I2 & I3 & I4 & I5 & I6).
    cbv zeta. rewrite I1, I2, I3, I4, I5, S1, S3, S4, S5.
    simpl. rewrite orb_assoc. repeat split; auto.
Qed.

(** A redirection operator leaves its expectation set. *)
Lemma parse_step_redirect (st : PState) (op : string) :
  is_redirect op = true ->
  expect_input_file (parse_step st op) = true
  \/ expect_input_file (parse_step st op) = expect_input_file st
     /\ expect_output_file (parse_step st op) = true.
Proof.
  intros Hop.
  destruct (is_redirect_cases op Hop) as [ -> | [ -> | -> ] ];
    unfold parse_step; simpl; auto.
Qed.

(** Operators after any stage: at most that one stage is closed, with the
    arguments and the file names it had. *)
Lemma parse_loop_operators_stage (ops : list string) :
  Forall (fun o => is_operator o = true) ops ->
  forall st : PState,
    exists l : list Command,
      parse_finish (parse_loop st ops) = commands st ++ l
      /\ (length l <= 1)%nat
      /\ Forall (fun c => args c = args (current_cmd st)
                          /\ input_file c = input_file (current_cmd st)
                          /\ output_file c = output_file (current_cmd st)) l.
Proof.
  induction 1 as [|o ops Ho Hops IH]; intros st.
  - unfold parse_finish. simpl.
    destruct (args (current_cmd st)) eqn:E; simpl.
    + exists []. rewrite app_nil_r. repeat split; auto.
    + exists [current_cmd st]. repeat split; auto.
  - rewrite parse_loop_cons.
    destruct (is_operator_cases o Ho) as [ -> | Hother ].
    + destruct (args (current_cmd st)) eqn:E.
      * unfold parse_step at 1. simpl. rewrite E. simpl.
        destruct (IH st) as (l & L1 & L2 & L3). rewrite E in L3. eauto.
      * pose proof (parse_loop_operators ops Hops (parse_step st "|")) as P.
        unfold parse_step in P at 1 2 3 4 5 6 7 |- * at 1.
        simpl in P |- *. rewrite E in P |- *. simpl in P |- *.
        destruct (P eq_refl) as (P1 & P2 & _).
        exists [current_cmd st]. unfold parse_finish.
        rewrite P1, P2. simpl. repeat split; auto.
    + destruct (IH (parse_step st o)) as (l & L1 & L2 & L3).
      exists l.
      destruct Hother as [ -> | [ -> | [ -> | -> ] ] ];
        unfold parse_step in L1, L3 |- * at 1; simpl in L1, L3 |- *;
        repeat split; auto.
Qed.

(** C9. The expectation of a file name set by ['<'], ['>'] or ['>>'] is kept
    across a ['|'].  When such an operator is directly followed by ['|'],
    the ['|'] closes the stage as the end of the input would, and the next
    plain token after it (operators may stand in between) is not taken as an
    argument of the stage that follows: that stage still has no argument and
    the token is its input file, when ['<'] is pending, or else its output
    file.  So ["a < | b c"] has a second stage with input file ["b"] and the
    single argument ["c"]. *)
Theorem redirect_pending_across_pipe (pre mid : list string) (op t : string) :
  is_redirect op = true ->
  Forall (fun o => is_operator o = true) mid ->
  is_operator t = false ->
  let st := parse_loop parse_init (pre ++ [op]) in
  let st' := parse_loop parse_init (pre ++ [op; "|"] ++ mid ++ [t]) in
  commands st' = parse_finish st
  /\ args (current_cmd st') = []
  /\ (if expect_input_file st || existsb (String.eqb "<") mid
      then input_file (current_cmd st') = t
      else output_file (current_cmd st') = t)
  /\ parse_input "a < | b c"
     = [ set_args Command0 ["a"];
         {| args := ["c"]; input_file := "b"; output_file := "";
            append_output := false; background := false |} ].
Proof.
  intros Hop Hmid Ht st st'.
  assert (Est' : st' = parse_step (parse_loop (parse_step st "|") mid) t).
  { subst st st'.
    change (pre ++ [op; "|"] ++ mid ++ [t])
      with (pre ++ [op] ++ ["|"] ++ mid ++ [t]).
    rewrite !app_assoc. rewrite !parse_loop_app. reflexivity. }
  assert (Hpend : expect_input_file st = true \/ expect_output_file st = true).
  { subst st. rewrite parse_loop_app. simpl.
    destruct (parse_step_redirect (parse_loop parse_init pre) op Hop)
      as [H | [_ H]]; auto. }
  destruct (parse_step_pipe st) as (P1 & P2 & P3 & P4).
  destruct (parse_loop_operators mid Hmid (parse_step st "|") P2)
    as (L1 & L2 & L3 & L4 & L5 & L6).
  rewrite P3 in L5. rewrite P4 in L6.
  rewrite Est', (parse_step_plain _ t Ht), L5.
  destruct (expect_input_file st || existsb (String.eqb "<") mid) eqn:E.
  - simpl. rewrite L1, L2, P1. auto.
  - apply orb_false_iff in E as [E1 E2].
    destruct Hpend as [H | H]; [congruence |].
    rewrite (L6 H). simpl. rewrite L1, L2, P1. auto.
Qed.

(** The theorem at the input ["ls > | wc out"]: the stage after the ['|'] has
    no argument yet and ["wc"] is its output file. *)
Lemma redirect_pending_across_pipe_witness :
  let st' := parse_loop parse_init (["ls"] ++ [">"; "|"] ++ [] ++ ["wc"]) in
  args (current_cmd st') = [] /\ output_file (current_cmd st') = "wc".
Proof.
  pose proof (redirect_pending_across_pipe ["ls"] [] ">" "wc"
                eq_refl (List.Forall_nil _) eq_refl) as H.
  cbv zeta in H. destruct H as (_ & H2 & H3 & _).
  split; [exact H2 | exact H3].
Defined.

(** C10. With both expectations pending, a plain token is the input file:
    the test of [expect_input_file] comes first.  The output file is left as
    it was and stays expected.  Operators alone after that assign no file: the
    stage, if it is kept, has the input file and its former output file.  A
    plain token that follows directly is the output file.  So ["a < > f"]
    has input file ["f"] and no output file. *)
Theorem input_expectation_checked_first (st : PState) (t : string) :
  expect_input_file st = true ->
  expect_output_file st = true ->
  is_operator t = false ->
  let st' := parse_step st t in
  input_file (current_cmd st') = t
  /\ output_file (current_cmd st') = output_file (current_cmd st)
  /\ args (current_cmd st') = args (current_cmd st)
  /\ commands st' = commands st
  /\ expect_input_file st' = false
  /\ expect_output_file st' = true
  /\ (forall ops : list string,
        Forall (fun o => is_operator o = true) ops ->
        exists l : list Command,
          parse_finish (parse_loop st' ops) = commands st ++ l
          /\ Forall (fun c => input_file c = t
                        /\ output_file c = output_file (current_cmd st)) l)
  /\ (forall u : string,
        is_operator u = false ->
        output_file (current_cmd (parse_step st' u)) = u)
  /\ parse_input "a < > f"
     = [ {| args := ["a"]; input_file := "f"; output_file := "";
            append_output := false; background := false |} ].
Proof.
  intros Hin Hout Ht st'.
  assert (E : st' = {| commands := commands st;
                       current_cmd := set_input_file (current_cmd st) t;
                       expect_input_file := false;
                       expect_output_file := expect_output_file st |}).
  { subst st'. rewrite (parse_step_plain st t Ht), Hin. reflexivity. }
  rewrite E. simpl. repeat split; auto.
  - intros ops Hops.
    destruct (parse_loop_operators_stage ops Hops
                {| commands := commands st;
                   current_cmd := set_input_file (current_cmd st) t;
                   expect_input_file := false;
                   expect_output_file := expect_output_file st |})
      as (l & L1 & _ & L3).
    exists l. split; [exact L1 |].
    eapply Forall_impl; [exact L3 |]. simpl. intros c (_ & ? & ?). auto.
  - intros u Hu. rewrite (parse_step_plain _ u Hu). simpl.
    rewrite Hout. reflexivity.
Qed.

(** The theorem in the state reached after ["a < >"], at the token ["f"]. *)
Lemma input_expectation_checked_first_witness :
  let st := parse_loop parse_init ["a"; "<"; ">"] in
  input_file (current_cmd (parse_step st "f")) = "f"
  /\ output_file (current_cmd (parse_step st "f")) = ""
  /\ expect_output_file (parse_step st "f") = true.
Proof.
  pose proof (input_expectation_checked_first
                (parse_loop parse_init ["a"; "<"; ">"]) "f"
                eq_refl eq_refl eq_refl) as H.
  cbv zeta in H. destruct H as (H1 & H2 & _ & _ & _ & H6 & _).
  split; [exact H1 | split; [exact H2 | exact H6]].
Defined.

(** * Properties of the builtins *)

Lemma log_log (w : World) (l1 l2 : list Event) :
  log (log w l1) l2 = log w (l1 ++ l2).
Proof. unfold log. simpl. rewrite app_assoc. reflexivity. Qed.

(** C8, as stated, fails: ["12abc"] is not an integer, and [exit 12abc] ends
    the shell with code 12 without any message. *)
Lemma exit_integer_prefix_exits :
  is_integer "12abc" = false
  /\ execute_pipeline env_ok (parse_input "exit 12abc") shell_init world_init
     = (Exited 12, world_init).
Proof. split; reflexivity. Qed.

(** A token that starts with neither a digit nor a sign is refused by
    [stoi]. *)
Lemma stoi_no_digit (c : ascii) (rest : string) :
  is_digit c = false -> isspace c = false ->
  c <> "-"%char -> c <> "+"%char ->
  stoi (String c rest) = None.
Proof.
  intros Hd Hs Hm Hp.
  destruct c as [[] [] [] [] [] [] [] []];
    try discriminate Hd; try discriminate Hs;
    try (exfalso; apply Hm; reflexivity);
    try (exfalso; apply Hp; reflexivity);
    reflexivity.
Qed.

Lemma is_digit_not_space (c : ascii) : is_digit c = true -> isspace c = false.
Proof.
  destruct c as [[] [] [] [] [] [] [] []]; intros H;
    try discriminate H; reflexivity.
Qed.

Lemma read_digits_app (d rest : string) :
  all_digits d = true -> starts_with_digit rest = false ->
  forall acc : Z, read_digits (d +:+ rest) acc = read_digits d acc.
Proof.
  intros Hd Hrest. induction d as [|c d IH]; intros acc; simpl.
  - destruct rest as [|c rest]; simpl in *; [reflexivity|].
    rewrite Hrest. reflexivity.
  - simpl in Hd. apply andb_true_iff in Hd as [Hc Hd].
    rewrite Hc. apply IH, Hd.
Qed.

Lemma stoi_body_app (neg : bool) (d rest : string) :
  string_empty d = false -> all_digits d = true ->
  starts_with_digit rest = false ->
  stoi_body neg (d +:+ rest) = stoi_body neg d.
Proof.
  intros Hne Hd Hrest. destruct d as [|c d]; [discriminate|].
  unfold stoi_body.
  change (String c d +:+ rest) with (String c (d +:+ rest)).
  pose proof (read_digits_app (String c d) rest Hd Hrest 0) as R.
  change (String c d +:+ rest) with (String c (d +:+ rest)) in R.
  rewrite R. reflexivity.
Qed.

(** [stoi] does not look at what follows a numeral: a token that starts
    with a numeral is read as that numeral. *)
Lemma stoi_ignores_suffix (d rest : string) :
  is_integer d = true -> starts_with_digit rest = false ->
  stoi (d +:+ rest) = stoi d.
Proof.
  unfold is_integer. intros Hd Hrest.
  apply andb_true_iff in Hd as [Hne Hd]. apply negb_true_iff in Hne.
  destruct d as [|c d]; [discriminate|].
  destruct (Ascii.eqb_spec c "-"%char) as [->|Hm].
  { change (stoi (String "-" d +:+ rest)) with (stoi_body true (d +:+ rest)).
    change (stoi (String "-" d)) with (stoi_body true d).
    apply stoi_body_app; auto. }
  destruct (Ascii.eqb_spec c "+"%char) as [->|Hp].
  { change (stoi (String "+" d +:+ rest)) with (stoi_body false (d +:+ rest)).
    change (stoi (String "+" d)) with (stoi_body false d).
    apply stoi_body_app; auto. }
  assert (Hbody : negb (string_empty (String c d)) && all_digits (String c d)
                  = true).
  { destruct c as [[] [] [] [] [] [] [] []];
      try (exfalso; apply Hm; reflexivity);
      try (exfalso; apply Hp; reflexivity);
      (rewrite Hne; exact Hd). }
  clear Hne Hd. apply andb_true_iff in Hbody as [_ Hd].
  assert (Hc : is_digit c = true).
  { simpl in Hd. apply andb_true_iff in Hd as [Hc _]. exact Hc. }
  assert (E1 : stoi (String c d +:+ rest) = stoi_body false (String c d +:+ rest)).
  { unfold stoi.
    change (String c d +:+ rest) with (String c (d +:+ rest)).
    simpl skip_spaces. rewrite (is_digit_not_space c Hc).
    destruct c as [[] [] [] [] [] [] [] []]; try discriminate Hc; reflexivity. }
  assert (E2 : stoi (String c d) = stoi_body false (String c d)).
  { unfold stoi. simpl skip_spaces. rewrite (is_digit_not_space c Hc).
    destruct c as [[] [] [] [] [] [] [] []]; try discriminate Hc; reflexivity. }
  rewrite E1, E2. apply stoi_body_app; auto.
Qed.

(** C8, amended.  [exit] ends the shell with code 0 when it has no
    argument, and with the value [stoi] reads at the start of its first
    argument otherwise, whatever follows the digits.  When [stoi] reads no
    value (the argument starts with neither a digit nor a sign) the message
    [exit: invalid argument] is printed, the shell does not exit and its
    state is unchanged. *)
Theorem builtin_exit_code (a : list string) (sh : Shell) (w : World) :
  ((length a <= 1)%nat -> fst (builtin_exit a sh w) = Exited 0)
  /\ (forall n : Z,
        (1 < length a)%nat -> stoi (arg 1 a) = Some n ->
        fst (builtin_exit a sh w) = Exited n)
  /\ ((1 < length a)%nat -> stoi (arg 1 a) = None ->
      builtin_exit a sh w
      = (Running sh, log w [EvErr ("exit: invalid argument" +:+ endl)]))
  /\ (forall d rest : string,
        is_integer d = true -> starts_with_digit rest = false ->
        stoi (d +:+ rest) = stoi d)
  /\ (forall (c : ascii) (rest : string),
        is_digit c = false -> isspace c = false ->
        c <> "-"%char -> c <> "+"%char ->
        stoi (String c rest) = None).
Proof.
  split; [|split; [|split; [|split]]].
  - intros H. unfold builtin_exit.
    destruct (Nat.ltb_spec 1 (length a)); [lia|].
    unfold bind. destruct (close_jobs _ w). reflexivity.
  - intros n H Hn. unfold builtin_exit.
    destruct (Nat.ltb_spec 1 (length a)); [|lia].
    rewrite Hn. unfold bind. destruct (close_jobs _ w). reflexivity.
  - intros H Hn. unfold builtin_exit.
    destruct (Nat.ltb_spec 1 (length a)); [|lia].
    rewrite Hn. reflexivity.
  - apply stoi_ignores_suffix.
  - apply stoi_no_digit.
Qed.

(** The theorem at [exit], [exit 3], [exit 3x] and [exit x]. *)
Lemma builtin_exit_code_witness :
  fst (builtin_exit ["exit"] shell_init world_init) = Exited 0
  /\ fst (builtin_exit ["exit"; "3"] shell_init world_init) = Exited 3
  /\ stoi ("3" +:+ "x") = stoi "3"
  /\ builtin_exit ["exit"; "x"] shell_init world_init
     = (Running shell_init,
        log world_init [EvErr ("exit: invalid argument" +:+ endl)]).
Proof.
  pose proof (builtin_exit_code ["exit"] shell_init world_init)
    as (H0 & _ & _ & H4 & _).
  pose proof (builtin_exit_code ["exit"; "3"] shell_init world_init)
    as (_ & H1 & _ & _ & _).
  pose proof (builtin_exit_code ["exit"; "x"] shell_init world_init)
    as (_ & _ & H2 & _ & _).
  split; [|split; [|split]].
  - apply H0. simpl. lia.
  - apply H1; [simpl; lia | reflexivity].
  - apply H4; reflexivity.
  - apply H2; [simpl; lia | reflexivity].
Defined.

(** C7. [fg] and [kill] with the id of no tracked job print their
    [job not found] message and change nothing else: the registry, the
    counter and the handles are as before.  [kill] on a tracked job whose
    [TerminateProcess] fails prints [kill: failed to terminate process] and
    leaves the entry in the registry. *)
Theorem fg_kill_unknown_job (env : Env) (a : list string) (job_id : Z)
    (sh : Shell) (w : World) :
  (2 <= length a)%nat ->
  stoi (arg 1 a) = Some job_id ->
  (jobs sh !! job_id = None ->
   builtin_fg a sh w = (sh, log w [EvErr ("fg: job not found" +:+ endl)])
   /\ builtin_kill env a sh w
      = (sh, log w [EvErr ("kill: job not found" +:+ endl)]))
  /\ (forall job : Job,
        jobs sh !! job_id = Some job ->
        env_terminate env w (hProcess job) = false ->
        builtin_kill env a sh w
        = (sh, log w [EvTerminateProcess (hProcess job) false;
                      EvErr ("kill: failed to terminate process" +:+ endl)])
        /\ jobs (fst (builtin_kill env a sh w)) !! job_id = Some job).
Proof.
  intros Hlen Hid. split.
  - intros Hnone. unfold builtin_fg, builtin_kill.
    destruct (Nat.ltb_spec (length a) 2); [lia|].
    rewrite Hid, Hnone. split; reflexivity.
  - intros job Hjob Hterm.
    assert (E : builtin_kill env a sh w
                = (sh, log w [EvTerminateProcess (hProcess job) false;
                              EvErr ("kill: failed to terminate process"
                                     +:+ endl)])).
    { unfold builtin_kill.
      destruct (Nat.ltb_spec (length a) 2); [lia|].
      rewrite Hid, Hjob. unfold bind, TerminateProcess. rewrite Hterm.
      simpl. unfold cerr, emit. rewrite log_log. reflexivity. }
    rewrite E. split; [reflexivity | exact Hjob].
Qed.

(** The theorem at [fg 7] and [kill 7], where job 7 is unknown, and at
    [kill 1], where job 1 cannot be terminated. *)
Lemma fg_kill_unknown_job_witness :
  builtin_fg ["fg"; "7"] shell_one_job world_init
  = (shell_one_job, log world_init [EvErr ("fg: job not found" +:+ endl)])
  /\ jobs (fst (builtin_kill env_no_terminate ["kill"; "1"]
                  shell_one_job world_init)) !! 1
     = Some (mkJob 8 1000 "ping" false).
Proof.
  split.
  - pose proof (fg_kill_unknown_job env_ok ["fg"; "7"] 7 shell_one_job
                  world_init) as H.
    destruct H as [H _]; [simpl; lia | reflexivity |].
    apply H. reflexivity.
  - pose proof (fg_kill_unknown_job env_no_terminate ["kill"; "1"] 1
                  shell_one_job world_init) as H.
    destruct H as [_ H]; [simpl; lia | reflexivity |].
    apply (H (mkJob 8 1000 "ping" false)); reflexivity.
Defined.

(** * Properties of the job registry *)

Lemma in_order_elem (m : gmap Z Job) (job_id : Z) (job : Job) :
  (job_id, job) ∈ in_order m <-> m !! job_id = Some job.
Proof.
  unfold in_order. rewrite merge_sort_Permutation.
  apply elem_of_map_to_list.
Qed.

Section Poll.
Variable env : Env.

Lemma poll_jobs_sound (l : list (Z * Job)) :
  forall (acc : list Z) (w : World) (job_id : Z),
    job_id ∈ fst (poll_jobs env l acc w) ->
    job_id ∈ acc \/ exists job, (job_id, job) ∈ l /\ finished env job.
Proof.
  induction l as [|[k job] l IH]; intros acc w job_id; simpl.
  - auto.
  - destruct (Z.eqb_spec (hProcess job) NULL) as [Hnull|Hnull]; simpl.
    + intros H. destruct (IH _ _ _ H) as [?|(j & ? & ?)]; auto.
      right. exists j. split; [by apply list_elem_of_further | done].
    + unfold bind, GetExitCodeProcess. simpl.
      destruct (env_exit_code env w (hProcess job)) as [exitCode|] eqn:Hq.
      * destruct (Z.eqb_spec exitCode STILL_ACTIVE) as [Hact|Hact]; simpl.
        -- intros H. destruct (IH _ _ _ H) as [?|(j & ? & ?)]; auto.
           right. exists j. split; [by apply list_elem_of_further | done].
        -- intros H. destruct (IH _ _ _ H) as [Hin|(j & ? & ?)].
           ++ apply elem_of_app in Hin as [?|Hin]; auto.
              apply list_elem_of_singleton in Hin as ->.
              right. exists job. split; [by apply list_elem_of_here |].
              split; [done |]. eauto.
           ++ right. exists j. split; [by apply list_elem_of_further | done].
      * intros H. destruct (IH _ _ _ H) as [?|(j & ? & ?)]; auto.
        right. exists j. split; [by apply list_elem_of_further | done].
Qed.

Lemma poll_jobs_keeps (l : list (Z * Job)) :
  forall (acc : list Z) (w : World) (job_id : Z),
    job_id ∈ acc -> job_id ∈ fst (poll_jobs env l acc w).
Proof.
  induction l as [|[k job] l IH]; intros acc w job_id Hin; simpl.
  - exact Hin.
  - destruct (negb (hProcess job =? NULL)); [|by apply IH].
    unfold bind, GetExitCodeProcess. simpl.
    destruct (env_exit_code env w (hProcess job)) as [exitCode|];
      [|by apply IH].
    destruct (negb (exitCode =? STILL_ACTIVE)); [|by apply IH].
    simpl. apply IH. apply elem_of_app. auto.
Qed.

Lemma poll_jobs_complete (l : list (Z * Job)) :
  forall (acc : list Z) (w : World) (job_id : Z) (job : Job) (exitCode : Z),
    (job_id, job) ∈ l ->
    hProcess job <> NULL ->
    (forall w', env_exit_code env w' (hProcess job) = Some exitCode) ->
    exitCode <> STILL_ACTIVE ->
    job_id ∈ fst (poll_jobs env l acc w).
Proof.
  induction l as [|[k j] l IH]; intros acc w job_id job exitCode Hin Hn Hq Ha.
  - by apply elem_of_nil in Hin.
  - apply elem_of_cons in Hin as [Heq|Hin].
    + inversion Heq; subst k j. simpl.
      destruct (Z.eqb_spec (hProcess job) NULL); [done|]. simpl.
      unfold bind, GetExitCodeProcess. simpl. rewrite Hq.
      destruct (Z.eqb_spec exitCode STILL_ACTIVE); [done|]. simpl.
      apply poll_jobs_keeps. apply elem_of_app. right.
      by apply list_elem_of_singleton.
    + simpl.
      destruct (negb (hProcess j =? NULL)); [|by eapply IH].
      unfold bind, GetExitCodeProcess. simpl.
      destruct (env_exit_code env w (hProcess j)) as [c|]; [|by eapply IH].
      destruct (negb (c =? STILL_ACTIVE)); [|by eapply IH].
      simpl. by eapply IH.
Qed.
End Poll.

Lemma remove_jobs_counter (ids : list Z) (sh : Shell) :
  job_counter (fold_left (fun s job_id => remove_job job_id s) ids sh)
  = job_counter sh.
Proof. revert sh. induction ids as [|k ids IH]; intros sh; simpl; [done|]. by rewrite IH. Qed.

Lemma remove_jobs_lookup (ids : list Z) (sh : Shell) (k : Z) :
  jobs (fold_left (fun s job_id => remove_job job_id s) ids sh) !! k
  = if decide (k ∈ ids) then None else jobs sh !! k.
Proof.
  revert sh. induction ids as [|i ids IH]; intros sh; simpl.
  - destruct (decide (k ∈ [])) as [H|H]; [by apply elem_of_nil in H | done].
  - rewrite IH. unfold remove_job. simpl.
    destruct (decide (k ∈ ids)) as [Hin|Hin];
      destruct (decide (k ∈ i :: ids)) as [Hin'|Hin']; try done.
    + exfalso. apply Hin'. by apply list_elem_of_further.
    + apply elem_of_cons in Hin' as [->|?]; [|done].
      apply lookup_delete_eq.
    + apply lookup_delete_ne. intros ->. apply Hin'. apply list_elem_of_here.
Qed.

(** C3, as stated, fails: job 1 is tracked, the query of its exit code
    fails, and after the poll the job is still in the registry; nothing was
    printed and its handle was not closed. *)
Lemma poll_keeps_job_on_query_failure :
  jobs shell_one_job !! 1 = Some (mkJob 8 1000 "ping" false)
  /\ check_background_jobs env_no_query shell_one_job world_init
     = (shell_one_job, log world_init [EvGetExitCodeProcess 8 None]).
Proof. split; reflexivity. Qed.

(** C3, amended.  A tracked job whose query of the exit code fails is left
    in the registry by the poll.  The poll removes a job only when its
    handle is not [NULL] and the query succeeds with a code other than
    [STILL_ACTIVE], and it removes every job for which the system answers
    so.  The counter is not changed. *)
Theorem poll_removes_only_finished (env : Env) (sh : Shell) (w : World)
    (job_id : Z) (job : Job) :
  jobs sh !! job_id = Some job ->
  let sh' := fst (check_background_jobs env sh w) in
  ((forall w', env_exit_code env w' (hProcess job) = None) ->
   jobs sh' !! job_id = Some job)
  /\ (jobs sh' !! job_id = None -> finished env job)
  /\ (jobs sh' !! job_id <> None -> jobs sh' !! job_id = Some job)
  /\ (forall exitCode : Z,
        hProcess job <> NULL ->
        (forall w', env_exit_code env w' (hProcess job) = Some exitCode) ->
        exitCode <> STILL_ACTIVE ->
        jobs sh' !! job_id = None)
  /\ job_counter sh' = job_counter sh.
Proof.
  intros Hjob sh'.
  assert (E : sh' = fold_left (fun s i => remove_job i s)
                      (fst (poll_jobs env (in_order (jobs sh)) [] w)) sh).
  { subst sh'. unfold check_background_jobs, bind.
    destruct (poll_jobs env (in_order (jobs sh)) [] w). reflexivity. }
  assert (Hremoved : jobs sh' !! job_id = None -> finished env job).
  { rewrite E, remove_jobs_lookup.
    destruct (decide (job_id ∈ fst (poll_jobs env (in_order (jobs sh)) [] w)))
      as [Hin|Hin]; [|congruence].
    intros _. apply poll_jobs_sound in Hin as [Hin|(j & Hj & Hfin)].
    - by apply elem_of_nil in Hin.
    - apply in_order_elem in Hj. congruence. }
  assert (Hkept : jobs sh' !! job_id <> None -> jobs sh' !! job_id = Some job).
  { rewrite E, remove_jobs_lookup.
    destruct (decide (job_id ∈ fst (poll_jobs env (in_order (jobs sh)) [] w)));
      [congruence | auto]. }
  split; [|split; [exact Hremoved|split; [exact Hkept|split]]].
  - intros Hfail. apply Hkept. intros Hnone.
    destruct (Hremoved Hnone) as (_ & w' & c & Hq & _).
    rewrite Hfail in Hq. discriminate.
  - intros exitCode Hnull Hq Hact.
    rewrite E, remove_jobs_lookup.
    destruct (decide (job_id ∈ fst (poll_jobs env (in_order (jobs sh)) [] w)))
      as [Hin|Hin]; [done|].
    exfalso. apply Hin.
    eapply poll_jobs_complete; eauto. by apply in_order_elem.
  - rewrite E. apply remove_jobs_counter.
Qed.

(** The theorem at job 1: kept when the query fails, removed when the
    process has exited. *)
Lemma poll_removes_only_finished_witness :
  jobs (fst (check_background_jobs env_no_query shell_one_job world_init)) !! 1
  = Some (mkJob 8 1000 "ping" false)
  /\ jobs (fst (check_background_jobs env_all_exited shell_one_job world_init))
       !! 1 = None.
Proof.
  split.
  - pose proof (poll_removes_only_finished env_no_query shell_one_job
                  world_init 1 (mkJob 8 1000 "ping" false) eq_refl) as H.
    cbv zeta in H. destruct H as (H & _). apply H. reflexivity.
  - pose proof (poll_removes_only_finished env_all_exited shell_one_job
                  world_init 1 (mkJob 8 1000 "ping" false) eq_refl) as H.
    cbv zeta in H. destruct H as (_ & _ & _ & H & _).
    apply (H 0); [discriminate | reflexivity | discriminate].
Defined.

(** ** Job ids over a session *)

Lemma registry_step_refl (sh : Shell) : registry_step sh sh.
Proof. left. split; reflexivity. Qed.

Lemma registry_step_remove (job_id : Z) (sh : Shell) :
  registry_step sh (remove_job job_id sh).
Proof. left. split; [reflexivity|]. simpl. apply delete_subseteq. Qed.

Lemma registry_step_removes (ids : list Z) (sh : Shell) :
  registry_step sh (fold_left (fun s job_id => remove_job job_id s) ids sh).
Proof.
  left. split; [apply remove_jobs_counter|].
  apply map_subseteq_spec. intros k j.
  rewrite remove_jobs_lookup. destruct (decide (k ∈ ids)); [done | auto].
Qed.

Lemma registry_step_add (h : HANDLE) (pid : Z) (cmd : string) (sh : Shell) :
  registry_step sh (add_job h pid cmd sh).
Proof. right. eauto. Qed.

Create HintDb registry.

Local Hint Resolve registry_step_refl registry_step_remove
  registry_step_removes registry_step_add : registry.

Lemma check_background_jobs_step (env : Env) (sh : Shell) (w : World) :
  registry_step sh (fst (check_background_jobs env sh w)).
Proof.
  unfold check_background_jobs, bind.
  destruct (poll_jobs env (in_order (jobs sh)) [] w). simpl.
  auto with registry.
Qed.

Lemma builtin_fg_step (a : list string) (sh : Shell) (w : World) :
  registry_step sh (fst (builtin_fg a sh w)).
Proof.
  unfold builtin_fg, bind. repeat case_match; simpl; auto with registry.
Qed.

Lemma builtin_kill_step (env : Env) (a : list string) (sh : Shell) (w : World) :
  registry_step sh (fst (builtin_kill env a sh w)).
Proof.
  unfold builtin_kill, bind, TerminateProcess.
  repeat case_match; simpl; auto with registry.
Qed.

Lemma builtin_jobs_step (env : Env) (sh : Shell) (w : World) :
  registry_step sh (fst (builtin_jobs env sh w)).
Proof.
  unfold builtin_jobs, bind.
  pose proof (check_background_jobs_step env sh w) as H.
  destruct (check_background_jobs env sh w) as [sh1 w1]. simpl in H.
  repeat case_match; simpl; auto.
Qed.

Lemma execute_command_step (env : Env) (cmd : Command) (sh : Shell) (w : World) :
  registry_step sh (fst (execute_command env cmd sh w)).
Proof.
  unfold execute_command, execute_command_output, execute_command_launch,
    bind, CreateFileA, CreateProcessA, when.
  repeat case_match; simpl; auto with registry.
Qed.

Lemma builtin_exit_running (a : list string) (sh : Shell) (w : World) :
  forall sh' : Shell, fst (builtin_exit a sh w) = Running sh' -> sh' = sh.
Proof.
  intros sh'. unfold builtin_exit, bind.
  destruct (1 <? length a)%nat; [destruct (stoi (arg 1 a))|];
    cbv beta zeta; try destruct (close_jobs (in_order (jobs sh)) w);
    simpl; intros; simplify_eq; reflexivity.
Qed.

Lemma handle_builtin_step (env : Env) (cmd : Command) (sh : Shell) (w : World) :
  forall sh' : Shell,
    fst (handle_builtin env cmd sh w) = Some (Running sh') ->
    registry_step sh sh'.
Proof.
  intros sh'. unfold handle_builtin.
  destruct (vec_empty (args cmd)); [discriminate|].
  destruct (arg 0 (args cmd) =? "cd")%string.
  { unfold bind. destruct (builtin_cd env (args cmd) w). simpl.
    intros [= <-]. auto with registry. }
  destruct (arg 0 (args cmd) =? "exit")%string.
  { unfold bind. pose proof (builtin_exit_running (args cmd) sh w) as H.
    destruct (builtin_exit (args cmd) sh w) as [o w1]. simpl in *.
    intros [= ->]. rewrite (H sh' eq_refl). auto with registry. }
  destruct (arg 0 (args cmd) =? "jobs")%string.
  { unfold bind. pose proof (builtin_jobs_step env sh w) as H.
    destruct (builtin_jobs env sh w). simpl in *. intros [= <-]. exact H. }
  destruct (arg 0 (args cmd) =? "fg")%string.
  { unfold bind. pose proof (builtin_fg_step (args cmd) sh w) as H.
    destruct (builtin_fg (args cmd) sh w). simpl in *. intros [= <-]. exact H. }
  destruct (arg 0 (args cmd) =? "kill")%string.
  { unfold bind. pose proof (builtin_kill_step env (args cmd) sh w) as H.
    destruct (builtin_kill env (args cmd) sh w). simpl in *.
    intros [= <-]. exact H. }
  destruct (arg 0 (args cmd) =? "help")%string.
  { simpl. intros [= <-]. auto with registry. }
  destruct ((arg 0 (args cmd) =? "cls")%string
            || (arg 0 (args cmd) =? "clear")%string).
  { simpl. intros [= <-]. auto with registry. }
  discriminate.
Qed.

Lemma execute_pipeline_finish_step (cmds : list Command) (sh : Shell)
    (hProcesses : list HANDLE) (w : World) :
  registry_step sh (fst (execute_pipeline_finish cmds sh hProcesses w)).
Proof.
  unfold execute_pipeline_finish, bind, GetProcessId.
  destruct (background (back cmds)).
  - destruct hProcesses as [|h0 hs]; simpl.
    + auto with registry.
    + destruct (close_all hs _). simpl. auto with registry.
  - destruct (when _ _ w). destruct (close_all hProcesses _). simpl.
    auto with registry.
Qed.

Lemma execute_pipeline_step (env : Env) (cmds : list Command) (sh : Shell)
    (w : World) :
  forall sh' : Shell,
    fst (execute_pipeline env cmds sh w) = Running sh' ->
    registry_step sh sh'.
Proof.
  intros sh'. unfold execute_pipeline.
  destruct cmds as [|cmd [|cmd2 rest]].
  - simpl. intros [= <-]. auto with registry.
  - unfold bind. pose proof (handle_builtin_step env cmd sh w) as H.
    destruct (handle_builtin env cmd sh w) as [[o|] w1]; simpl in *.
    + intros ->. auto.
    + pose proof (execute_command_step env cmd sh w1) as H1.
      destruct (execute_command env cmd sh w1). simpl in *.
      intros [= <-]. exact H1.
  - unfold bind.
    destruct (create_pipes env _ [] [] w) as [[[rs ws]|] w1];
      cbv beta iota zeta.
    + match goal with
      | |- context [launch_stages ?e ?n ?r ?s ?i ?c ?h ?x] =>
          destruct (launch_stages e n r s i c h x) as [hp w2]
      end.
      destruct (close_all rs w2) as [[] w3].
      destruct (close_all ws w3) as [[] w4].
      pose proof (execute_pipeline_finish_step (cmd :: cmd2 :: rest) sh hp w4)
        as H.
      destruct (execute_pipeline_finish _ sh hp w4). simpl in *.
      intros [= <-]. exact H.
    + intros [= <-]. auto with registry.
Qed.

Lemma run_op_step (env : Env) (op : Op) (sh : Shell) (w : World) :
  forall sh' : Shell,
    fst (run_op env op sh w) = Running sh' -> registry_step sh sh'.
Proof.
  intros sh'. destruct op; simpl.
  - intros [= <-]. auto with registry.
  - intros [= <-]. auto with registry.
  - unfold bind. pose proof (check_background_jobs_step env sh w) as H.
    destruct (check_background_jobs env sh w). simpl in *.
    intros [= <-]. exact H.
  - unfold bind. pose proof (builtin_fg_step a sh w) as H.
    destruct (builtin_fg a sh w). simpl in *. intros [= <-]. exact H.
  - unfold bind. pose proof (builtin_kill_step env a sh w) as H.
    destruct (builtin_kill env a sh w). simpl in *. intros [= <-]. exact H.
  - apply execute_pipeline_step.
Qed.

Lemma filter_none {A} (P : A -> Prop) `{!forall x, Decision (P x)} (l : list A) :
  (forall x, x ∈ l -> ~ P x) -> filter P l = [].
Proof.
  induction l as [|x l IH]; intros Hall; [reflexivity|].
  rewrite filter_cons_False by (apply Hall, list_elem_of_here).
  apply IH. intros y Hy. apply Hall. by apply list_elem_of_further.
Qed.

Lemma job_ids_elem (sh : Shell) (k : Z) :
  k ∈ job_ids sh -> exists job, jobs sh !! k = Some job.
Proof.
  unfold job_ids. intros H. apply list_elem_of_fmap in H as ([k' j] & -> & H).
  exists j. by apply in_order_elem.
Qed.

Lemma new_ids_drop (sh sh' : Shell) :
  jobs sh' ⊆ jobs sh -> new_ids sh sh' = [].
Proof.
  intros Hsub. unfold new_ids. apply filter_none.
  intros k Hk Hnone. apply job_ids_elem in Hk as [j Hj].
  eapply lookup_weaken in Hj; [|exact Hsub]. congruence.
Qed.

Lemma new_ids_add (h : HANDLE) (pid : Z) (cmd : string) (sh : Shell) :
  jobs sh !! job_counter sh = None ->
  new_ids sh (add_job h pid cmd sh) = [job_counter sh].
Proof.
  intros Hfresh. unfold new_ids, job_ids, in_order, add_job. simpl.
  apply Permutation_singleton_r.
  rewrite merge_sort_Permutation.
  rewrite map_to_list_insert by exact Hfresh.
  rewrite fmap_cons. simpl.
  rewrite filter_cons_True by exact Hfresh.
  rewrite filter_none; [reflexivity|].
  intros k Hk Hnone.
  apply list_elem_of_fmap in Hk as ([k' j] & -> & Hk).
  apply elem_of_map_to_list in Hk. simpl in Hnone. congruence.
Qed.

Lemma wrap_int_small (x : Z) : INT_MIN <= x <= INT_MAX -> wrap_int x = x.
Proof.
  unfold wrap_int, INT_MIN, INT_MAX. intros H.
  rewrite Z.mod_small by lia. lia.
Qed.

(** One operation, seen from the registry: the ids stay below the counter,
    and either no id is assigned and the counter stays, or the id assigned
    is the counter, which goes up by one. *)
Lemma registry_step_ids (sh sh' : Shell) :
  registry_step sh sh' ->
  ids_below_counter sh ->
  job_counter sh < INT_MAX ->
  ids_below_counter sh'
  /\ (new_ids sh sh' = [] /\ job_counter sh' = job_counter sh
      \/ new_ids sh sh' = [job_counter sh]
         /\ job_counter sh' = job_counter sh + 1).
Proof.
  intros [[Hc Hsub]|(h & pid & cmd & ->)] [Hpos Hinv] Hmax.
  - split.
    + split; [lia|]. intros k j Hk. rewrite Hc.
      eapply Hinv, lookup_weaken; eauto.
    + left. split; [by apply new_ids_drop | exact Hc].
  - assert (Hfresh : jobs sh !! job_counter sh = None).
    { destruct (jobs sh !! job_counter sh) as [j|] eqn:E; [|done].
      apply Hinv in E. lia. }
    assert (Hw : wrap_int (job_counter sh + 1) = job_counter sh + 1).
    { apply wrap_int_small. unfold INT_MIN, INT_MAX in *. lia. }
    split.
    + unfold add_job. split; simpl; rewrite Hw; [lia|].
      intros k j. rewrite lookup_insert.
      destruct (decide (job_counter sh = k)) as [<-|Hne]; [lia|].
      intros Hk. apply Hinv in Hk. lia.
    + right. split; [by apply new_ids_add | exact Hw].
Qed.

Lemma Z_seq_cons (start : Z) (n : nat) :
  Z_seq start (S n) = start :: Z_seq (start + 1) n.
Proof.
  unfold Z_seq. simpl. f_equal; [lia|].
  rewrite <- seq_shift, map_map. apply map_ext. intros i. lia.
Qed.

Lemma Z_seq_sorted (n : nat) :
  forall start : Z, StronglySorted Z.lt (Z_seq start n).
Proof.
  induction n as [|n IH]; intros start.
  - constructor.
  - rewrite Z_seq_cons. constructor; [apply IH|].
    apply List.Forall_forall. intros x Hx.
    unfold Z_seq in Hx. apply in_map_iff in Hx as (i & <- & _). lia.
Qed.

(** From any registry whose ids are below the counter, the ids a session
    assigns are the consecutive values of the counter. *)
Lemma session_ids_from (env : Env) (ops : list Op) :
  forall (sh : Shell) (w : World),
    ids_below_counter sh ->
    job_counter sh + Z.of_nat (length ops) <= INT_MAX ->
    let ids := fst (session env ops sh w) in
    ids = Z_seq (job_counter sh) (length ids).
Proof.
  induction ops as [|op ops IH]; intros sh w Hinv Hmax; [reflexivity|].
  cbn [session]. unfold bind.
  pose proof (run_op_step env op sh w) as Hstep.
  destruct (run_op env op sh w) as [[sh'|code] w1]; [|reflexivity].
  simpl in Hstep. specialize (Hstep sh' eq_refl).
  cbn [length] in Hmax.
  destruct (registry_step_ids sh sh' Hstep Hinv ltac:(lia))
    as [Hinv' [[Hnew Hc]|[Hnew Hc]]].
  - specialize (IH sh' w1 Hinv' ltac:(lia)).
    destruct (session env ops sh' w1) as [ids w2]. simpl in *.
    rewrite Hnew. simpl. rewrite Hc in IH. exact IH.
  - specialize (IH sh' w1 Hinv' ltac:(lia)).
    destruct (session env ops sh' w1) as [ids w2]. simpl in *.
    rewrite Hnew. simpl. rewrite Z_seq_cons. f_equal.
    rewrite Hc in IH. exact IH.
Qed.

Lemma shell_init_ids : ids_below_counter shell_init.
Proof.
  split; [reflexivity|]. intros k j H. simpl in H.
  rewrite lookup_empty in H. discriminate.
Qed.

Lemma check_background_jobs_drops (env : Env) (sh : Shell) (w : World) :
  job_counter (fst (check_background_jobs env sh w)) = job_counter sh
  /\ jobs (fst (check_background_jobs env sh w)) ⊆ jobs sh.
Proof.
  unfold check_background_jobs, bind.
  destruct (poll_jobs env (in_order (jobs sh)) [] w) as [ids w1]. simpl.
  split; [apply remove_jobs_counter|].
  apply map_subseteq_spec. intros k j.
  rewrite remove_jobs_lookup. destruct (decide (k ∈ ids)); [done | auto].
Qed.

Lemma builtin_fg_drops (a : list string) (sh : Shell) (w : World) :
  job_counter (fst (builtin_fg a sh w)) = job_counter sh
  /\ jobs (fst (builtin_fg a sh w)) ⊆ jobs sh.
Proof.
  unfold builtin_fg, bind.
  repeat case_match; simpl; (split; [reflexivity|]);
    first [reflexivity | apply delete_subseteq].
Qed.

Lemma builtin_kill_drops (env : Env) (a : list string) (sh : Shell)
    (w : World) :
  job_counter (fst (builtin_kill env a sh w)) = job_counter sh
  /\ jobs (fst (builtin_kill env a sh w)) ⊆ jobs sh.
Proof.
  unfold builtin_kill, bind, TerminateProcess.
  repeat case_match; simpl; (split; [reflexivity|]);
    first [reflexivity | apply delete_subseteq].
Qed.

Lemma handle_builtin_other (env : Env) (cmd : Command) (sh : Shell)
    (w : World) :
  is_builtin (arg 0 (args cmd)) = false ->
  handle_builtin env cmd sh w = (None, w).
Proof.
  unfold is_builtin, handle_builtin. cbn [existsb].
  intros H. repeat (apply orb_false_iff in H as [? H]).
  destruct (vec_empty (args cmd)); [reflexivity|].
  repeat match goal with
         | E : (_ =? _)%string = false |- _ => rewrite E; clear E
         end.
  reflexivity.
Qed.

(** Where processes can be created, the launch of a single command leaves
    the registry as it was in the foreground, and registers the process in
    the background. *)
Lemma execute_pipeline_launch (env : Env) (cmd : Command) (sh : Shell)
    (w : World) :
  (forall w0 c si, env_create_process env w0 c si = true) ->
  is_launch cmd = true ->
  exists (h pid : Z),
    fst (execute_pipeline env [cmd] sh w)
    = Running (if background cmd
               then add_job h pid (build_command_line (args cmd)) sh
               else sh).
Proof.
  intros Hok H. unfold is_launch in H.
  apply andb_true_iff in H as [H Hout]. apply andb_true_iff in H as [H Hin].
  apply andb_true_iff in H as [Hargs Hb].
  apply negb_true_iff in Hargs, Hb.
  unfold execute_pipeline, bind.
  rewrite (handle_builtin_other env cmd sh w Hb).
  unfold execute_command, execute_command_output, execute_command_launch,
    bind, CreateProcessA, when.
  rewrite Hargs, Hin, Hout. cbn [negb]. rewrite Hok.
  exists (next_handle w), (next_pid w).
  destruct (background cmd); reflexivity.
Qed.

(** An operation of [registry_op], seen from the registry: it does not end
    the session, and it either registers nothing and adds no entry, or
    registers one job with [add_job]. *)
Lemma run_op_registers (env : Env) (op : Op) (sh : Shell) (w : World) :
  (forall w0 c si, env_create_process env w0 c si = true) ->
  registry_op op = true ->
  exists sh' : Shell,
    fst (run_op env op sh w) = Running sh'
    /\ (registrations op = 0%nat
         /\ job_counter sh' = job_counter sh /\ jobs sh' ⊆ jobs sh
        \/ registrations op = 1%nat
           /\ exists h pid cmd, sh' = add_job h pid cmd sh).
Proof.
  intros Hok Hop. destruct op as [h pid cmd|job_id| |a|a|cmds]; simpl.
  - eexists. split; [reflexivity|]. right. split; [reflexivity|]. eauto.
  - eexists. split; [reflexivity|]. left. split; [reflexivity|].
    split; [reflexivity | apply delete_subseteq].
  - unfold bind. pose proof (check_background_jobs_drops env sh w) as H.
    destruct (check_background_jobs env sh w) as [sh1 w1]. simpl in *.
    eexists. split; [reflexivity|]. left. split; [reflexivity | exact H].
  - unfold bind. pose proof (builtin_fg_drops a sh w) as H.
    destruct (builtin_fg a sh w) as [sh1 w1]. simpl in *.
    eexists. split; [reflexivity|]. left. split; [reflexivity | exact H].
  - unfold bind. pose proof (builtin_kill_drops env a sh w) as H.
    destruct (builtin_kill env a sh w) as [sh1 w1]. simpl in *.
    eexists. split; [reflexivity|]. left. split; [reflexivity | exact H].
  - destruct cmds as [|cmd [|cmd2 rest]]; try discriminate Hop.
    simpl in Hop.
    destruct (execute_pipeline_launch env cmd sh w Hok Hop) as (h & pid & E).
    eexists. split; [exact E|].
    destruct (background cmd).
    + right. split; [reflexivity|]. eauto.
    + left. split; [reflexivity|]. split; reflexivity.
Qed.

(** The number of ids a session of such operations assigns. *)
Lemma session_registered (env : Env) (ops : list Op) :
  (forall w0 c si, env_create_process env w0 c si = true) ->
  Forall (fun op => registry_op op = true) ops ->
  forall (sh : Shell) (w : World),
    ids_below_counter sh ->
    job_counter sh + Z.of_nat (length ops) <= INT_MAX ->
    length (fst (session env ops sh w)) = registered ops.
Proof.
  intros Hok Hops.
  induction Hops as [|op ops Hop _ IH]; intros sh w Hinv Hmax; [reflexivity|].
  cbn [session]. unfold bind, registered. cbn [map sum_list].
  destruct (run_op_registers env op sh w Hok Hop) as (sh' & E & Hcase).
  pose proof (run_op_step env op sh w sh' E) as Hstep.
  destruct (run_op env op sh w) as [o w1]. simpl in E. subst o.
  cbn [length] in Hmax.
  destruct (registry_step_ids sh sh' Hstep Hinv ltac:(lia)) as [Hinv' Hc].
  assert (Hmax' : job_counter sh' + Z.of_nat (length ops) <= INT_MAX).
  { destruct Hc as [[_ Hc]|[_ Hc]]; rewrite Hc; lia. }
  specialize (IH sh' w1 Hinv' Hmax').
  destruct (session env ops sh' w1) as [ids w2]. simpl in *.
  rewrite length_app, IH. f_equal.
  destruct Hcase as [(-> & _ & Hsub)|(-> & h & pid & cmd & ->)].
  - rewrite (new_ids_drop sh sh' Hsub). reflexivity.
  - rewrite new_ids_add; [reflexivity|].
    destruct Hinv as [_ Hinv].
    destruct (jobs sh !! job_counter sh) as [j|] eqn:Ej; [|reflexivity].
    apply Hinv in Ej. lia.
Qed.

(** C5. Over every session from the start of the shell, whatever the
    system answers and whatever is removed in between, the ids assigned are
    1, 2, 3, ... in this order: they start at 1, they increase strictly, and
    none is assigned twice.  And ids are assigned: where processes can be
    created, in a session made of [add_job], [remove_job], the poll, [fg],
    [kill] and launches of single commands, every [add_job] and every
    launch in the background gets an id, so that the ids are exactly 1 to
    the number of these operations, whatever is removed in between.  The
    session is shorter than [INT_MAX] operations, so that the [int] counter
    is not incremented past its largest value. *)
Theorem job_ids_never_reused (env : Env) (ops : list Op) (w : World) :
  Z.of_nat (length ops) < INT_MAX ->
  let ids := fst (session env ops shell_init w) in
  ids = Z_seq 1 (length ids)
  /\ StronglySorted Z.lt ids
  /\ NoDup ids
  /\ ((forall w0 c si, env_create_process env w0 c si = true) ->
      Forall (fun op => registry_op op = true) ops ->
      ids = Z_seq 1 (registered ops)).
Proof.
  intros Hlen ids.
  assert (E : ids = Z_seq 1 (length ids)).
  { apply (session_ids_from env ops shell_init w shell_init_ids).
    simpl. lia. }
  assert (S : StronglySorted Z.lt ids).
  { rewrite E. apply Z_seq_sorted. }
  split; [exact E | split; [exact S |]]. split.
  - clear E. induction S as [|x l _ IH Hx]; constructor; auto.
    intros Hin. rewrite List.Forall_forall in Hx.
    apply list_elem_of_In in Hin. apply Hx in Hin. lia.
  - intros Hok Hops. rewrite E. f_equal.
    apply (session_registered env ops Hok Hops shell_init w shell_init_ids).
    simpl. lia.
Qed.

(** The ids of the session [two_launches], computed. *)
Example two_launches_ids :
  fst (session env_all_exited two_launches shell_init world_init) = [1; 2].
Proof. vm_compute. reflexivity. Qed.

(** The theorem at the session [two_launches]: the first launch in the
    background gets the id 1 and the second the id 2, the job 1 being
    removed in between. *)
Lemma job_ids_never_reused_witness :
  let ids := fst (session env_all_exited two_launches shell_init world_init) in
  ids = [1; 2] /\ StronglySorted Z.lt ids /\ NoDup ids.
Proof.
  destruct (job_ids_never_reused env_all_exited two_launches world_init)
    as (_ & S & N & H).
  - vm_compute. reflexivity.
  - split; [|split; [exact S | exact N]].
    apply H.
    + intros w0 c si. reflexivity.
    + repeat constructor.
Defined.

(** * Properties of the pipeline *)

(** ** Traces *)

Lemma flat_map_map_nil {A B C} (f : B -> list C) (g : A -> B) (l : list A) :
  (forall x, f (g x) = []) -> flat_map f (map g l) = [].
Proof.
  intros H. induction l as [|x l IH]; simpl; [reflexivity|].
  rewrite H, IH. reflexivity.
Qed.

Lemma created_pipes_app (l1 l2 : list Event) :
  created_pipes (l1 ++ l2) = created_pipes l1 ++ created_pipes l2.
Proof. apply flat_map_app. Qed.

Lemma closed_app (l1 l2 : list Event) :
  closed (l1 ++ l2) = closed l1 ++ closed l2.
Proof. apply flat_map_app. Qed.

Lemma launches_app (l1 l2 : list Event) :
  launches (l1 ++ l2) = launches l1 ++ launches l2.
Proof. apply flat_map_app. Qed.

Lemma launched_app (l1 l2 : list Event) :
  launched (l1 ++ l2) = launched l1 ++ launched l2.
Proof. apply flat_map_app. Qed.

Lemma waited_app (l1 l2 : list Event) :
  waited (l1 ++ l2) = waited l1 ++ waited l2.
Proof. apply flat_map_app. Qed.

Lemma opened_files_app (l1 l2 : list Event) :
  opened_files (l1 ++ l2) = opened_files l1 ++ opened_files l2.
Proof. apply flat_map_app. Qed.

Lemma errors_app (l1 l2 : list Event) :
  errors (l1 ++ l2) = errors l1 ++ errors l2.
Proof. apply flat_map_app. Qed.

Lemma closed_closes (hs : list HANDLE) : closed (map EvCloseHandle hs) = hs.
Proof.
  induction hs as [|h hs IH]; [reflexivity|].
  change (closed (map EvCloseHandle (h :: hs)))
    with (h :: closed (map EvCloseHandle hs)).
  by rewrite IH.
Qed.

Lemma created_pipes_pipes (ps : list (HANDLE * HANDLE)) :
  created_pipes (map (fun p => EvCreatePipe (Some p)) ps) = ps.
Proof.
  induction ps as [|p ps IH]; [reflexivity|].
  change (created_pipes (map (fun p => EvCreatePipe (Some p)) (p :: ps)))
    with (p :: created_pipes (map (fun p => EvCreatePipe (Some p)) ps)).
  by rewrite IH.
Qed.

Lemma appends_refl (w : World) : appends w w [].
Proof. unfold appends. by rewrite app_nil_r. Qed.

Section Phases.
Variable env : Env.

Lemma close_all_spec (hs : list HANDLE) (w : World) :
  close_all hs w = (tt, log w (map EvCloseHandle hs)).
Proof.
  revert w. induction hs as [|h hs IH]; intros w; simpl.
  - unfold ret, log. destruct w; simpl. by rewrite app_nil_r.
  - unfold bind, CloseHandle, emit. rewrite IH, log_log. reflexivity.
Qed.

(** The first loop: the pipes it creates are appended to the two vectors
    in order; when [CreatePipe] fails, the function returns after the error
    message without another call. *)
Lemma create_pipes_spec (k : nat) :
  forall (rs ws : list HANDLE) (w : World),
    exists ps : list (HANDLE * HANDLE),
      match create_pipes env k rs ws w with
      | (Some (rs', ws'), w') =>
          rs' = rs ++ ps.*1 /\ ws' = ws ++ ps.*2 /\ length ps = k
          /\ appends w w' (map (fun p => EvCreatePipe (Some p)) ps)
      | (None, w') =>
          (length ps < k)%nat
          /\ (exists w0, env_create_pipe env w0 = false)
          /\ appends w w' (map (fun p => EvCreatePipe (Some p)) ps
                           ++ [EvCreatePipe None;
                               EvErr ("Error: Cannot create pipe" +:+ endl)])
      end.
Proof.
  induction k as [|k IH]; intros rs ws w.
  - exists []. simpl. rewrite !app_nil_r. repeat split. apply appends_refl.
  - cbn [create_pipes]. unfold bind, CreatePipe.
    destruct (env_create_pipe env w) eqn:Hok.
    + cbn [fst snd emit_alloc].
      set (p := (next_handle w, next_handle w + 1)).
      set (w1 := {| next_handle := next_handle w + 2; next_pid := next_pid w;
                    pids := pids w;
                    trace := trace w ++ [EvCreatePipe (Some p)] |}).
      destruct (IH (rs ++ [next_handle w]) (ws ++ [next_handle w + 1]) w1)
        as [ps Hps].
      exists (p :: ps).
      match goal with
      | |- context [create_pipes ?e ?n ?a ?b ?x] =>
          change (create_pipes e n a b x)
            with (create_pipes env k (rs ++ [next_handle w])
                    (ws ++ [next_handle w + 1]) w1)
      end.
      destruct (create_pipes env k (rs ++ [next_handle w])
                  (ws ++ [next_handle w + 1]) w1) as [[[rs' ws']|] w'].
      * destruct Hps as (-> & -> & <- & Happ).
        rewrite <- !app_assoc. repeat split.
        unfold appends in *. rewrite Happ. subst w1. simpl.
        rewrite <- app_assoc. reflexivity.
      * destruct Hps as (Hlt & Hw0 & Happ). split; [simpl; lia|].
        split; [exact Hw0|].
        unfold appends in *. rewrite Happ. subst w1. simpl.
        rewrite <- app_assoc. reflexivity.
    + exists []. simpl. split; [lia|]. split; [eauto|].
      unfold appends. simpl. rewrite <- app_assoc. reflexivity.
Qed.

End Phases.

Lemma file_events_silent (evs : list Event) :
  forallb is_file_event evs = true ->
  launches evs = [] /\ launched evs = [] /\ waited evs = []
  /\ created_pipes evs = [] /\ closed evs = [] /\ errors evs = [].
Proof.
  induction evs as [|e evs IH]; simpl; [auto 10|].
  intros H. apply andb_true_iff in H as [He H].
  destruct (IH H) as (I1 & I2 & I3 & I4 & I5 & I6).
  destruct e; try discriminate He; simpl; auto 10.
Qed.

Section Launch.
Variable env : Env.

Lemma setup_stdin_spec (i : nat) (cmd : Command) (rs : list HANDLE) (w : World) :
  exists evs : list Event,
    appends w (snd (setup_stdin env i cmd rs w)) evs
    /\ forallb is_file_event evs = true
    /\ opened_files evs
       = (if (i =? 0)%nat && negb (string_empty (input_file cmd))
          then [input_file cmd] else [])
    /\ ((0 < i)%nat -> fst (setup_stdin env i cmd rs w) = nth (i - 1) rs NULL).
Proof.
  unfold setup_stdin. destruct i as [|i]; simpl.
  - destruct (string_empty (input_file cmd)); simpl.
    + exists []. split; [apply appends_refl|].
      split; [reflexivity|]. split; [reflexivity | lia].
    + unfold CreateFileA.
      destruct (env_create_file env w _ _ _); simpl;
        eexists [_]; (split; [reflexivity|]);
        (split; [reflexivity|]); (split; [reflexivity | lia]).
  - exists []. split; [apply appends_refl|].
    split; [reflexivity|]. split; [reflexivity|].
    intros _. rewrite Nat.sub_0_r. reflexivity.
Qed.

Lemma setup_stdout_spec (n i : nat) (cmd : Command) (ws : list HANDLE)
    (w : World) :
  exists evs : list Event,
    appends w (snd (setup_stdout env n i cmd ws w)) evs
    /\ forallb is_file_event evs = true
    /\ opened_files evs
       = (if (i =? n - 1)%nat && negb (string_empty (output_file cmd))
          then [output_file cmd] else [])
    /\ ((i < n - 1)%nat -> fst (setup_stdout env n i cmd ws w) = nth i ws NULL).
Proof.
  unfold setup_stdout. destruct (Nat.eqb_spec i (n - 1)) as [Heq|Hne].
  - destruct (string_empty (output_file cmd)); simpl.
    + exists []. split; [apply appends_refl|].
      split; [reflexivity|]. split; [reflexivity | lia].
    + unfold bind, CreateFileA, when, SetFilePointerEnd.
      destruct (env_create_file env w _ _ _); simpl.
      * destruct (append_output cmd); simpl.
        -- unfold valid.
           destruct (negb (next_handle w =? INVALID_HANDLE_VALUE)); simpl.
           ++ eexists [_; _].
              split; [unfold appends; simpl; rewrite <- app_assoc;
                      reflexivity|].
              split; [reflexivity|]. split; [reflexivity | lia].
           ++ eexists [_]. split; [reflexivity|].
              split; [reflexivity|]. split; [reflexivity | lia].
        -- eexists [_]. split; [reflexivity|].
           split; [reflexivity|]. split; [reflexivity | lia].
      * rewrite andb_false_r. simpl.
        eexists [_]. split; [reflexivity|].
        split; [reflexivity|]. split; [reflexivity | lia].
  - exists []. split; [apply appends_refl|].
    split; [reflexivity|]. split; [reflexivity|].
    intros _. reflexivity.
Qed.

(** The second loop: every stage is attempted, in order and with its own
    command line; the handles of the processes launched are appended to
    [hProcesses] in order; no pipe is created, nothing is waited on. *)
Lemma launch_stages_spec (n : nat) (rs ws : list HANDLE) (rest : list Command) :
  forall (i : nat) (hp : list HANDLE) (w : World),
    exists evs : list Event,
      appends w (snd (launch_stages env n rs ws i rest hp w)) evs
      /\ fst (launch_stages env n rs ws i rest hp w) = hp ++ launched evs
      /\ map fst (launches evs) = map (fun c => build_command_line (args c)) rest
      /\ stages_wired n rs ws i (map snd (launches evs))
      /\ waited evs = []
      /\ created_pipes evs = []
      /\ opened_files evs = stage_files n i rest
      /\ (length (errors evs) + length (launched evs))%nat = length rest.
Proof.
  induction rest as [|cmd rest IH]; intros i hp w.
  - exists []. simpl. rewrite app_nil_r.
    repeat split; auto. apply appends_refl.
  - cbn [launch_stages]. unfold bind.
    destruct (setup_stdin_spec i cmd rs w) as (e1 & A1 & F1 & O1 & W1).
    destruct (setup_stdin env i cmd rs w) as [hin w1]. simpl in A1, W1.
    destruct (setup_stdout_spec n i cmd ws w1) as (e2 & A2 & F2 & O2 & W2).
    destruct (setup_stdout env n i cmd ws w1) as [hout w2]. simpl in A2, W2.
    destruct (file_events_silent e1 F1) as (S11 & S12 & S13 & S14 & _ & S16).
    destruct (file_events_silent e2 F2) as (S21 & S22 & S23 & S24 & _ & S26).
    set (si := {| hStdInput := hin; hStdOutput := hout;
                  hStdError := GetStdHandle env STD_ERROR_HANDLE;
                  dwFlags := true |}).
    assert (Hwired : stage_wired n rs ws i si) by (split; assumption).
    unfold CreateProcessA.
    destruct (env_create_process env w2 (build_command_line (args cmd)) si).
    + set (p := {| pi_hProcess := next_handle w2;
                   pi_hThread := next_handle w2 + 1;
                   dwProcessId := next_pid w2 |}).
      cbn [fst snd CloseHandle emit].
      match goal with
      | |- context [launch_stages env n rs ws (S i) rest ?h ?x] =>
          destruct (IH (S i) h x)
            as (e3 & A3 & R3 & L3 & G3 & T3 & P3 & O3 & N3);
          destruct (launch_stages env n rs ws (S i) rest h x) as [hp' w3]
      end.
      simpl in A3, R3.
      exists (e1 ++ e2 ++ [EvCreateProcess (build_command_line (args cmd)) si
                             (Some p); EvCloseHandle (pi_hThread p)] ++ e3).
      rewrite !launches_app, !launched_app, !waited_app, !created_pipes_app,
        !opened_files_app, !errors_app.
      rewrite S11, S12, S13, S14, S16, S21, S22, S23, S24, S26, T3, P3, O1, O2,
        O3.
      simpl. rewrite L3. repeat split; auto.
      * unfold appends in *. rewrite A3. simpl. rewrite A2, A1.
        rewrite <- !app_assoc. reflexivity.
      * rewrite R3, <- app_assoc. reflexivity.
      * lia.
    + cbn [fst snd cerr emit].
      match goal with
      | |- context [launch_stages env n rs ws (S i) rest ?h ?x] =>
          destruct (IH (S i) h x)
            as (e3 & A3 & R3 & L3 & G3 & T3 & P3 & O3 & N3);
          destruct (launch_stages env n rs ws (S i) rest h x) as [hp' w3]
      end.
      simpl in A3, R3.
      exists (e1 ++ e2 ++ [EvCreateProcess (build_command_line (args cmd)) si
                             None;
                           EvErr ("Error: Cannot execute "
                                  +:+ arg 0 (args cmd) +:+ endl)] ++ e3).
      rewrite !launches_app, !launched_app, !waited_app, !created_pipes_app,
        !opened_files_app, !errors_app.
      rewrite S11, S12, S13, S14, S16, S21, S22, S23, S24, S26, T3, P3, O1, O2,
        O3.
      simpl. rewrite L3. repeat split; auto.
      unfold appends in *. rewrite A3. simpl. rewrite A2, A1.
      rewrite <- !app_assoc. reflexivity.
Qed.
End Launch.

(** ** The whole of [execute_pipeline] on two stages or more *)

Lemma execute_pipeline_finish_spec (cmds : list Command) (sh : Shell)
    (hp : list HANDLE) (w : World) :
  exists fin : list Event,
    finish_spec cmds sh hp (fst (execute_pipeline_finish cmds sh hp w)) fin
    /\ appends w (snd (execute_pipeline_finish cmds sh hp w)) fin.
Proof.
  unfold finish_spec, execute_pipeline_finish, bind, GetProcessId, when.
  destruct (background (back cmds)).
  - destruct hp as [|h0 hs].
    + exists []. simpl. repeat split. apply appends_refl.
    + simpl. rewrite close_all_spec. simpl.
      eexists. split; [eexists; split; reflexivity|].
      unfold appends. simpl. rewrite <- app_assoc. reflexivity.
  - destruct hp as [|h0 hs]; cbn [vec_empty negb].
    + exists []. simpl. repeat split. apply appends_refl.
    + unfold WaitForMultipleObjects, emit. rewrite close_all_spec.
      eexists. split; [split; reflexivity|].
      unfold appends. simpl. rewrite <- app_assoc. reflexivity.
Qed.

Lemma execute_pipeline_multi (env : Env) (cmds : list Command) (sh : Shell) :
  (2 <= length cmds)%nat ->
  execute_pipeline env cmds sh
  = (pipes <- create_pipes env (length cmds - 1) [] [] ;;
     match pipes with
     | None => ret (Running sh)
     | Some (hReadPipes, hWritePipes) =>
         hProcesses <-
           launch_stages env (length cmds) hReadPipes hWritePipes 0 cmds [] ;;
         close_all hReadPipes ;;
         close_all hWritePipes ;;
         sh <- execute_pipeline_finish cmds sh hProcesses ;;
         ret (Running sh)
     end).
Proof.
  intros Hlen. destruct cmds as [|c1 [|c2 rest]]; simpl in Hlen; try lia.
  reflexivity.
Qed.

Lemma execute_pipeline_run (env : Env) (cmds : list Command) (sh : Shell)
    (w : World) :
  (2 <= length cmds)%nat ->
  pipeline_run env cmds sh w (execute_pipeline env cmds sh w).
Proof.
  intros Hlen. rewrite (execute_pipeline_multi env cmds sh Hlen).
  unfold bind.
  destruct (create_pipes_spec env (length cmds - 1) [] [] w) as [ps Hps].
  destruct (create_pipes env (length cmds - 1) [] [] w) as [[[rs ws]|] w1].
  - destruct Hps as (-> & -> & Hn & A1). simpl.
    destruct (launch_stages_spec env (length cmds) ps.*1 ps.*2 cmds 0 [] w1)
      as (evs & A2 & R2 & L2 & G2 & T2 & P2 & O2 & N2).
    destruct (launch_stages env (length cmds) ps.*1 ps.*2 0 cmds [] w1)
      as [hp w2].
    simpl in A2, R2. subst hp.
    cbv beta iota zeta. rewrite close_all_spec.
    cbv beta iota zeta. rewrite close_all_spec. cbv beta iota zeta.
    match goal with
    | |- context [execute_pipeline_finish cmds sh ?h ?x] =>
        destruct (execute_pipeline_finish_spec cmds sh h x) as (fin & F & A3);
        destruct (execute_pipeline_finish cmds sh h x) as [sh' w3]
    end.
    simpl in F, A3.
    apply (PipeLaunched env cmds sh w ps evs fin sh' w3); auto.
    unfold appends in *. rewrite A3. simpl. rewrite A2, A1.
    unfold pipe_events. rewrite <- !app_assoc. reflexivity.
  - destruct Hps as (Hlt & Hw0 & A1). simpl.
    apply (PipeFailed env cmds sh w ps w1); auto.
Qed.

(** ** The pipes *)

Lemma launches_pipe_events (ps : list (HANDLE * HANDLE)) :
  launches (pipe_events ps) = [] /\ launched (pipe_events ps) = []
  /\ waited (pipe_events ps) = [] /\ closed (pipe_events ps) = [].
Proof.
  unfold launches, launched, waited, closed, pipe_events.
  repeat split; apply flat_map_map_nil; reflexivity.
Qed.

Lemma launches_closes (hs : list HANDLE) :
  launches (map EvCloseHandle hs) = []
  /\ launched (map EvCloseHandle hs) = []
  /\ waited (map EvCloseHandle hs) = []
  /\ created_pipes (map EvCloseHandle hs) = [].
Proof.
  unfold launches, launched, waited, created_pipes.
  repeat split; apply flat_map_map_nil; reflexivity.
Qed.

(** What the events of the end of the function show. *)
Lemma finish_spec_events (cmds : list Command) (sh sh' : Shell)
    (hp : list HANDLE) (fin : list Event) :
  finish_spec cmds sh hp sh' fin ->
  launches fin = [] /\ launched fin = [] /\ created_pipes fin = []
  /\ waited fin = if background (back cmds) then [] else hp.
Proof.
  unfold finish_spec. destruct (background (back cmds)).
  - destruct hp as [|h0 hs].
    + intros [_ ->]. auto.
    + intros (pid & _ & ->).
      rewrite launches_app, launched_app, created_pipes_app, waited_app.
      destruct (launches_closes hs) as (-> & -> & -> & ->). auto.
  - intros [_ ->].
    rewrite launches_app, launched_app, created_pipes_app, waited_app.
    destruct (launches_closes hp) as (-> & -> & -> & ->).
    destruct hp; simpl; rewrite ?app_nil_r; auto.
Qed.

Lemma pipe_ends_pipes (ps : list (HANDLE * HANDLE)) (h : HANDLE) :
  h ∈ flat_map (fun p => [fst p; snd p]) ps -> h ∈ ps.*1 ++ ps.*2.
Proof.
  induction ps as [|[r x] ps IH]; simpl; [auto|].
  rewrite !elem_of_cons, elem_of_app, elem_of_cons.
  intros [->|[->|H]]; auto.
  apply IH, elem_of_app in H as [?|?]; auto.
Qed.

(** The path on which every [CreatePipe] succeeds: one pipe less than
    stages is created, every stage is attempted, and both ends of every
    pipe are closed by the parent after the launches. *)
Lemma pipeline_closes_every_pipe (env : Env) (cmds : list Command)
    (sh : Shell) (w : World) :
  (2 <= length cmds)%nat ->
  (forall w0, env_create_pipe env w0 = true) ->
  exists evs : list Event,
    appends w (snd (execute_pipeline env cmds sh w)) evs
    /\ length (created_pipes evs) = (length cmds - 1)%nat
    /\ length (launches evs) = length cmds
    /\ leaked_pipe_ends evs = []
    /\ forall h, h ∈ pipe_ends evs -> h ∈ closed evs.
Proof.
  intros Hlen Hok.
  destruct (execute_pipeline_run env cmds sh w Hlen)
    as [ps w' Hlt [w0 Hw0] A | ps evs fin sh' w' Hn L G T P O N F A].
  { rewrite Hok in Hw0. discriminate. }
  exists (pipe_events ps ++ evs ++ map EvCloseHandle ps.*1
          ++ map EvCloseHandle ps.*2 ++ fin).
  destruct (finish_spec_events _ _ _ _ _ F) as (F1 & F2 & F3 & F4).
  destruct (launches_pipe_events ps) as (E1 & E2 & E3 & E4).
  destruct (launches_closes ps.*1) as (C1 & _ & _ & C4).
  destruct (launches_closes ps.*2) as (D1 & _ & _ & D4).
  assert (Hpipes : created_pipes (pipe_events ps ++ evs
                     ++ map EvCloseHandle ps.*1
                     ++ map EvCloseHandle ps.*2 ++ fin) = ps).
  { rewrite !created_pipes_app, P, C4, D4, F3.
    unfold pipe_events. rewrite created_pipes_pipes, !app_nil_r. reflexivity. }
  assert (Hclosed : forall h,
            h ∈ pipe_ends (pipe_events ps ++ evs ++ map EvCloseHandle ps.*1
                           ++ map EvCloseHandle ps.*2 ++ fin) ->
            h ∈ closed (pipe_events ps ++ evs ++ map EvCloseHandle ps.*1
                        ++ map EvCloseHandle ps.*2 ++ fin)).
  { intros h. unfold pipe_ends. rewrite Hpipes. intros Hh.
    apply pipe_ends_pipes in Hh.
    rewrite !closed_app, !closed_closes, !elem_of_app.
    apply elem_of_app in Hh as [?|?]; auto. }
  split; [exact A|]. split; [by rewrite Hpipes|]. split; [|split].
  - rewrite !launches_app, E1, C1, D1, F1, !app_nil_r. simpl.
    rewrite <- (length_map fst), L, length_map. reflexivity.
  - unfold leaked_pipe_ends. apply elem_of_nil_inv. intros h Hh.
    apply list_elem_of_difference in Hh as [Hin Hout]. auto.
  - exact Hclosed.
Qed.

Lemma list_difference_nil_r (l : list HANDLE) : list_difference l [] = l.
Proof. induction l as [|x l IH]; simpl; [reflexivity|]. by rewrite IH. Qed.

(** The path on which a [CreatePipe] fails: the function returns at once.
    Whenever fewer pipes than needed were created, no stage was launched
    and no handle was closed, so that every pipe end opened before the
    failure is still open in the parent. *)
Lemma pipe_failure_closes_nothing (env : Env) (cmds : list Command)
    (sh : Shell) (w : World) :
  (2 <= length cmds)%nat ->
  exists evs : list Event,
    appends w (snd (execute_pipeline env cmds sh w)) evs
    /\ ((length (created_pipes evs) < length cmds - 1)%nat ->
        closed evs = [] /\ launches evs = []
        /\ leaked_pipe_ends evs = pipe_ends evs
        /\ fst (execute_pipeline env cmds sh w) = Running sh).
Proof.
  intros Hlen.
  destruct (execute_pipeline_run env cmds sh w Hlen)
    as [ps w' Hlt [w0 Hw0] A | ps evs fin sh' w' Hn L G T P O N F A].
  - exists (pipe_events ps
            ++ [EvCreatePipe None; EvErr ("Error: Cannot create pipe" +:+ endl)]).
    split; [exact A|]. intros _.
    destruct (launches_pipe_events ps) as (E1 & E2 & E3 & E4).
    assert (Hc : closed (pipe_events ps ++ [EvCreatePipe None;
                   EvErr ("Error: Cannot create pipe" +:+ endl)]) = []).
    { rewrite closed_app, E4. reflexivity. }
    split; [exact Hc|]. split; [|split; [|reflexivity]].
    + rewrite launches_app, E1. reflexivity.
    + unfold leaked_pipe_ends. rewrite Hc. apply list_difference_nil_r.
  - exists (pipe_events ps ++ evs ++ map EvCloseHandle ps.*1
            ++ map EvCloseHandle ps.*2 ++ fin).
    split; [exact A|]. intros Hfew. exfalso.
    destruct (finish_spec_events _ _ _ _ _ F) as (_ & _ & F3 & _).
    destruct (launches_closes ps.*1) as (_ & _ & _ & C4).
    destruct (launches_closes ps.*2) as (_ & _ & _ & D4).
    rewrite !created_pipes_app, P, C4, D4, F3 in Hfew.
    unfold pipe_events in Hfew.
    rewrite created_pipes_pipes, !app_nil_r in Hfew. lia.
Qed.

(** C1, on the path where the second [CreatePipe] of ["a | b | c"] fails:
    one pipe was created, with the handles 4 and 5; the function prints the
    error and returns, so no stage is launched and neither handle is
    closed: both ends of the first pipe stay open in the parent. *)
Theorem pipe_failure_leaks_first_pipe :
  execute_pipeline env_one_pipe (parse_input "a | b | c") shell_init world_init
  = (Running shell_init,
     {| next_handle := 6; next_pid := 1000; pids := [];
        trace := [EvCreatePipe (Some (4, 5)); EvCreatePipe None;
                  EvErr ("Error: Cannot create pipe" +:+ endl)] |})
  /\ let tr := trace (snd (execute_pipeline env_one_pipe
                             (parse_input "a | b | c") shell_init world_init)) in
     pipe_ends tr = [4; 5] /\ closed tr = [] /\ launches tr = []
     /\ leaked_pipe_ends tr = [4; 5].
Proof. split; [reflexivity|]. repeat split; reflexivity. Qed.

(** ** What [execute_pipeline] reads of the stages *)

Lemma stages_equiv_length (l : list Command) :
  forall (i : nat) (l' : list Command),
    stages_equiv i l l' -> length l = length l'.
Proof.
  induction l as [|c l IH]; intros i [|c' l'] H; simpl in *; try tauto.
  destruct H as [_ H]. f_equal. eapply IH, H.
Qed.

Lemma setup_stdin_equiv (env : Env) (i : nat) (c c' : Command)
    (rs : list HANDLE) (w : World) :
  stage_equiv i c c' -> setup_stdin env i c rs w = setup_stdin env i c' rs w.
Proof.
  intros (_ & _ & _ & Hin). unfold setup_stdin.
  destruct i as [|i]; simpl; [|reflexivity]. rewrite (Hin eq_refl). reflexivity.
Qed.

Lemma setup_stdout_equiv (env : Env) (n i : nat) (c c' : Command)
    (ws : list HANDLE) (w : World) :
  stage_equiv i c c' ->
  setup_stdout env n i c ws w = setup_stdout env n i c' ws w.
Proof.
  intros (_ & Hout & Happ & _). unfold setup_stdout.
  rewrite Hout, Happ. reflexivity.
Qed.

Lemma launch_stages_equiv (env : Env) (n : nat) (rs ws : list HANDLE)
    (l : list Command) :
  forall (l' : list Command) (i : nat) (hp : list HANDLE) (w : World),
    stages_equiv i l l' ->
    launch_stages env n rs ws i l hp w = launch_stages env n rs ws i l' hp w.
Proof.
  induction l as [|c l IH]; intros [|c' l'] i hp w H; simpl in H; try tauto.
  destruct H as [Hc Hl]. cbn [launch_stages]. unfold bind.
  rewrite (setup_stdin_equiv env i c c' rs w Hc).
  destruct (setup_stdin env i c' rs w) as [hin w1].
  rewrite (setup_stdout_equiv env n i c c' ws w1 Hc).
  destruct (setup_stdout env n i c' ws w1) as [hout w2].
  destruct Hc as (Hargs & _). rewrite Hargs.
  destruct (CreateProcessA env _ _ w2) as [[p|] w3].
  - destruct (CloseHandle (pi_hThread p) w3) as [[] w4]. apply IH, Hl.
  - destruct (cerr _ w3) as [[] w4]. apply IH, Hl.
Qed.

Lemma pipeline_text_equiv (l : list Command) :
  forall (l' : list Command) (i : nat) (s : string),
    stages_equiv i l l' -> pipeline_text l s = pipeline_text l' s.
Proof.
  induction l as [|c l IH]; intros [|c' l'] i s H; simpl in H; try tauto.
  destruct H as [(Hargs & _) Hl]. simpl. rewrite Hargs.
  assert (E : vec_empty l = vec_empty l').
  { destruct l, l'; simpl in Hl; tauto. }
  rewrite E. eapply IH, Hl.
Qed.

(** [execute_pipeline] on two stages or more reads of its stages only the
    arguments, the input file of the first, the output redirection, and the
    background flag of the last. *)
Lemma execute_pipeline_reads (env : Env) (cmds cmds' : list Command)
    (sh : Shell) (w : World) :
  (2 <= length cmds)%nat ->
  stages_equiv 0 cmds cmds' ->
  background (back cmds) = background (back cmds') ->
  execute_pipeline env cmds sh w = execute_pipeline env cmds' sh w.
Proof.
  intros Hlen Heq Hbg.
  pose proof (stages_equiv_length _ _ _ Heq) as Hl.
  rewrite (execute_pipeline_multi env cmds sh Hlen).
  rewrite (execute_pipeline_multi env cmds' sh ltac:(lia)).
  unfold bind. rewrite <- Hl.
  destruct (create_pipes env (length cmds - 1) [] [] w) as [[[rs ws]|] w1];
    [|reflexivity].
  rewrite (launch_stages_equiv env _ rs ws cmds cmds' 0 [] w1 Heq).
  destruct (launch_stages env (length cmds) rs ws 0 cmds' [] w1) as [hp w2].
  destruct (close_all rs w2) as [[] w3].
  destruct (close_all ws w3) as [[] w4].
  unfold execute_pipeline_finish.
  rewrite Hbg, (pipeline_text_equiv cmds cmds' 0 "" Heq). reflexivity.
Qed.

(** ** The background flag *)









(** ** The input of the stages *)

(** C6, as stated, fails: in ["a | b < f"] the second stage has the input
    file ["f"]. *)
Lemma later_stage_input_file_set :
  parse_input "a | b < f"
  = [ set_args Command0 ["a"];
      {| args := ["b"]; input_file := "f"; output_file := "";
         append_output := false; background := false |} ].
Proof. reflexivity. Qed.

Lemma same_but_input_equiv (l l' : list Command) :
  Forall2 same_but_input l l' -> forall i, stages_equiv (S i) l l'.
Proof.
  induction 1 as [|c c' l l' (H1 & H2 & H3 & H4) _ IH]; intros i; simpl; auto.
  split; [|apply IH]. repeat split; auto. discriminate.
Qed.

Lemma same_but_input_back (l l' : list Command) :
  Forall2 same_but_input l l' ->
  forall c0, background (back (c0 :: l)) = background (back (c0 :: l')).
Proof.
  unfold back.
  induction 1 as [|c c' l l' (H1 & H2 & H3 & H4) H IH]; intros c0;
    [reflexivity|].
  change (background (List.last (c :: l) Command0)
          = background (List.last (c' :: l') Command0)).
  destruct H as [|d d' l l' Hd H].
  - exact H4.
  - apply (IH c).
Qed.

Lemma stages_wired_lookup (n : nat) (rs ws : list HANDLE)
    (l : list (string * STARTUPINFO)) :
  forall (i0 k : nat) (c : string) (si : STARTUPINFO),
    stages_wired n rs ws i0 (map snd l) ->
    l !! k = Some (c, si) ->
    stage_wired n rs ws (i0 + k) si.
Proof.
  induction l as [|[c0 si0] l IH]; intros i0 k c si Hw Hk; [discriminate|].
  simpl in Hw. destruct Hw as [H0 Hw]. destruct k as [|k]; simpl in Hk.
  - injection Hk as <- <-. rewrite Nat.add_0_r. exact H0.
  - replace (i0 + S k)%nat with (S i0 + k)%nat by lia. eapply IH; eauto.
Qed.

Lemma nth_pipe_ends (ps : list (HANDLE * HANDLE)) :
  forall (k : nat) (p : HANDLE * HANDLE),
    ps !! k = Some p ->
    nth k ps.*1 NULL = p.1 /\ nth k ps.*2 NULL = p.2.
Proof.
  induction ps as [|q ps IH]; intros k p Hk; [discriminate|].
  destruct k as [|k]; simpl in Hk.
  - injection Hk as <-. auto.
  - simpl. apply IH, Hk.
Qed.

(** C6, amended.  In every pipeline of two stages or more that gets its
    pipes, each stage after the first is launched with the read end of the
    pipe whose write end is the output of the stage before it.  The input
    file of a stage after the first is not read by [execute_pipeline]: the
    parser may set it (as in ["a | b < f"]), and replacing it by any other
    changes nothing of the execution. *)
Theorem later_stage_reads_previous_pipe :
  (forall (env : Env) (cmds : list Command) (sh : Shell) (w : World),
     (2 <= length cmds)%nat ->
     exists evs : list Event,
       appends w (snd (execute_pipeline env cmds sh w)) evs
       /\ ((forall w0, env_create_pipe env w0 = true) ->
           length (launches evs) = length cmds)
       /\ forall (i : nat) (c : string) (si : STARTUPINFO),
            (0 < i)%nat ->
            launches evs !! i = Some (c, si) ->
            exists (p : HANDLE * HANDLE) (c' : string) (si' : STARTUPINFO),
              created_pipes evs !! (i - 1)%nat = Some p
              /\ launches evs !! (i - 1)%nat = Some (c', si')
              /\ hStdInput si = p.1
              /\ hStdOutput si' = p.2)
  /\ (forall (env : Env) (c0 : Command) (rest rest' : list Command)
             (sh : Shell) (w : World),
        (1 <= length rest)%nat ->
        Forall2 same_but_input rest rest' ->
        execute_pipeline env (c0 :: rest) sh w
        = execute_pipeline env (c0 :: rest') sh w).
Proof.
  split.
  - intros env cmds sh w Hlen.
    destruct (execute_pipeline_run env cmds sh w Hlen)
      as [ps w' Hlt [w0 Hw0] A | ps evs fin sh' w' Hn L G T P O N F A].
    + eexists. split; [exact A|].
      destruct (launches_pipe_events ps) as (E1 & _).
      rewrite launches_app, E1. simpl. split.
      * intros Hok. rewrite Hok in Hw0. discriminate.
      * intros i c si _ Hi. destruct i; discriminate Hi.
    + eexists. split; [exact A|].
      destruct (finish_spec_events _ _ _ _ _ F) as (F1 & _ & F3 & _).
      destruct (launches_pipe_events ps) as (E1 & _).
      destruct (launches_closes ps.*1) as (C1 & _ & _ & C4).
      destruct (launches_closes ps.*2) as (D1 & _ & _ & D4).
      rewrite !launches_app, !created_pipes_app, E1, C1, D1, F1, P, C4, D4, F3.
      unfold pipe_events. rewrite created_pipes_pipes, !app_nil_r. simpl.
      assert (Hll : length (launches evs) = length cmds).
      { rewrite <- (length_map fst), L, length_map. reflexivity. }
      split; [intros _; exact Hll|].
      intros i c si Hpos Hi.
      assert (Hi_lt : (i < length cmds)%nat).
      { rewrite <- Hll. eapply lookup_lt_Some, Hi. }
      destruct (lookup_lt_is_Some_2 ps (i - 1)) as [p Hp]; [lia|].
      destruct (lookup_lt_is_Some_2 (launches evs) (i - 1))
        as [[c' si'] Hprev]; [lia|].
      exists p, c', si'. split; [exact Hp|]. split; [exact Hprev|].
      destruct (nth_pipe_ends ps (i - 1) p Hp) as [Hr Hw].
      pose proof (stages_wired_lookup _ _ _ _ 0 i c si G Hi) as [Win _].
      pose proof (stages_wired_lookup _ _ _ _ 0 (i - 1) c' si' G Hprev)
        as [_ Wout].
      simpl in Win, Wout. split.
      * rewrite (Win Hpos). exact Hr.
      * rewrite (Wout ltac:(lia)). exact Hw.
  - intros env c0 rest rest' sh w Hlen Hsame.
    apply execute_pipeline_reads.
    + simpl. lia.
    + simpl. split; [repeat split; reflexivity|].
      apply same_but_input_equiv, Hsame.
    + apply same_but_input_back, Hsame.
Qed.

(** The theorem at ["a | b < f"]: the second stage is launched with the
    read end 4 of the pipe (4, 5) whose write end is the output of the
    first; with the input file ["g"] in place of ["f"] the execution is the
    same. *)
Lemma later_stage_reads_previous_pipe_witness :
  (exists evs : list Event,
     appends world_init
       (snd (execute_pipeline env_ok (parse_input "a | b < f")
               shell_init world_init)) evs
     /\ length (launches evs)
        = length (parse_input "a | b < f"))
  /\ execute_pipeline env_ok (parse_input "a | b < f") shell_init world_init
     = execute_pipeline env_ok (parse_input "a | b < g") shell_init world_init.
Proof.
  destruct later_stage_reads_previous_pipe as [H1 H2]. split.
  - destruct (H1 env_ok (parse_input "a | b < f") shell_init world_init)
      as (evs & A & Hl & _).
    + vm_compute. lia.
    + exists evs. split; [exact A|]. apply Hl. reflexivity.
  - apply (H2 env_ok (set_args Command0 ["a"])
             [set_input_file (set_args Command0 ["b"]) "f"]
             [set_input_file (set_args Command0 ["b"]) "g"]).
    + simpl. lia.
    + repeat constructor.
Defined.

(** ** A missing file named as an argument *)

Lemma quiet_pipe_events (ps : list (HANDLE * HANDLE)) :
  opened_files (pipe_events ps) = [] /\ errors (pipe_events ps) = [].
Proof.
  unfold opened_files, errors, pipe_events.
  split; apply flat_map_map_nil; reflexivity.
Qed.

Lemma quiet_closes (hs : list HANDLE) :
  opened_files (map EvCloseHandle hs) = []
  /\ errors (map EvCloseHandle hs) = [].
Proof.
  unfold opened_files, errors.
  split; apply flat_map_map_nil; reflexivity.
Qed.

Lemma quiet_finish (cmds : list Command) (sh sh' : Shell)
    (hp : list HANDLE) (fin : list Event) :
  finish_spec cmds sh hp sh' fin -> opened_files fin = [] /\ errors fin = [].
Proof.
  unfold finish_spec. destruct (background (back cmds)).
  - destruct hp as [|h0 hs].
    + intros [_ ->]. auto.
    + intros (pid & _ & ->). rewrite opened_files_app, errors_app.
      destruct (quiet_closes hs) as (-> & ->). auto.
  - intros [_ ->]. rewrite opened_files_app, errors_app.
    destruct (quiet_closes hp) as (-> & ->). destruct hp; auto.
Qed.

(** A foreground pipeline that gets its pipes: every stage is attempted in
    order, whether or not the stages before it could be launched; each
    stage is either launched or reported; the only files opened are the
    input file of the first stage and the output file of the last; and the
    shell waits on exactly the processes launched. *)
Lemma pipeline_attempts_every_stage (env : Env) (cmds : list Command)
    (sh : Shell) (w : World) :
  (2 <= length cmds)%nat ->
  (forall w0, env_create_pipe env w0 = true) ->
  background (back cmds) = false ->
  fst (execute_pipeline env cmds sh w) = Running sh
  /\ exists evs : list Event,
       appends w (snd (execute_pipeline env cmds sh w)) evs
       /\ map fst (launches evs)
          = map (fun c => build_command_line (args c)) cmds
       /\ (length (errors evs) + length (launched evs))%nat = length cmds
       /\ opened_files evs = stage_files (length cmds) 0 cmds
       /\ waited evs = launched evs.
Proof.
  intros Hlen Hok Hbg.
  destruct (execute_pipeline_run env cmds sh w Hlen)
    as [ps w' Hlt [w0 Hw0] A | ps evs fin sh' w' Hn L G T P O N F A].
  { rewrite Hok in Hw0. discriminate. }
  destruct (finish_spec_events _ _ _ _ _ F) as (F1 & F2 & _ & F4).
  destruct (quiet_finish _ _ _ _ _ F) as (F5 & F6).
  rewrite Hbg in F4. unfold finish_spec in F. rewrite Hbg in F.
  destruct F as [-> _].
  split; [reflexivity|]. eexists. split; [exact A|].
  destruct (launches_pipe_events ps) as (E1 & E2 & E3 & _).
  destruct (quiet_pipe_events ps) as (E5 & E6).
  destruct (launches_closes ps.*1) as (C1 & C2 & C3 & _).
  destruct (quiet_closes ps.*1) as (C5 & C6).
  destruct (launches_closes ps.*2) as (D1 & D2 & D3 & _).
  destruct (quiet_closes ps.*2) as (D5 & D6).
  rewrite !launches_app, !launched_app, !waited_app, !opened_files_app,
    !errors_app.
  rewrite E1, E2, E3, E5, E6, C1, C2, C3, C5, C6, D1, D2, D3, D5, D6,
    F1, F2, F4, F5, F6, T.
  simpl. rewrite !app_nil_r. auto.
Qed.

(** In the line ["cat missing.txt | sort"], written without [<], the name
    [missing.txt] is an argument of [cat], not an input file: where no file
    can be opened, the shell tries to open none and prints no error. *)
Lemma missing_file_argument_no_error :
  let r := execute_pipeline env_no_files (parse_input "cat missing.txt | sort")
             shell_init world_init in
  map input_file (parse_input "cat missing.txt | sort") = [""; ""]
  /\ opened_files (trace (snd r)) = []
  /\ errors (trace (snd r)) = [].
Proof. repeat split; reflexivity. Qed.

(** The stages of ["cat missing.txt | sort"]. *)
Lemma parse_cat_missing :
  parse_input "cat missing.txt | sort"
  = [set_args Command0 ["cat"; "missing.txt"]; set_args Command0 ["sort"]].
Proof. reflexivity. Qed.

(** The line without [<].  ["cat missing.txt | sort"] has two stages
    without input file: [missing.txt] is the argument of [cat].  When the
    pipe can be created, the shell opens no file, so it reports no file that
    cannot be opened; it attempts [cat missing.txt] and then [sort], whether
    or not the first could be launched; each of the two is either launched
    or reported; and the shell waits on exactly the processes launched. *)
Theorem cat_missing_pipeline (env : Env) (sh : Shell) (w : World) :
  (forall w0, env_create_pipe env w0 = true) ->
  let cmds := parse_input "cat missing.txt | sort" in
  map args cmds = [["cat"; "missing.txt"]; ["sort"]]
  /\ map input_file cmds = [""; ""]
  /\ fst (execute_pipeline env cmds sh w) = Running sh
  /\ exists evs : list Event,
       appends w (snd (execute_pipeline env cmds sh w)) evs
       /\ opened_files evs = []
       /\ map fst (launches evs) = ["cat missing.txt"; "sort"]
       /\ (length (errors evs) + length (launched evs) = 2)%nat
       /\ waited evs = launched evs.
Proof.
  intros Hok cmds. subst cmds. rewrite parse_cat_missing.
  split; [reflexivity|]. split; [reflexivity|].
  destruct (pipeline_attempts_every_stage env
              [set_args Command0 ["cat"; "missing.txt"];
               set_args Command0 ["sort"]] sh w)
    as (Hrun & evs & A & L & N & O & W); [simpl; lia | exact Hok | reflexivity |].
  split; [exact Hrun|]. exists evs. auto.
Qed.

(** Where [cat missing.txt] cannot be launched, [sort] is still launched,
    and it is the one process waited on. *)
Example cat_fails_sort_runs :
  let tr := trace (snd (execute_pipeline env_no_cat
                          (parse_input "cat missing.txt | sort")
                          shell_init world_init)) in
  map fst (launches tr) = ["cat missing.txt"; "sort"]
  /\ errors tr = ["Error: Cannot execute cat" +:+ endl]
  /\ launched tr = [6] /\ waited tr = [6].
Proof. repeat split; reflexivity. Qed.

(** With a real input redirection the two launchers differ: the single
    command reports the file that cannot be opened and launches nothing,
    the pipeline does not look at the handle [CreateFileA] returns and
    launches [cat] with it. *)
Example input_file_checked_in_single_command_only :
  let single := trace (snd (execute_pipeline env_no_files
                              (parse_input "cat < missing.txt")
                              shell_init world_init)) in
  let piped := trace (snd (execute_pipeline env_no_files
                             (parse_input "cat < missing.txt | sort")
                             shell_init world_init)) in
  errors single = ["Error: Cannot open input file missing.txt" +:+ endl]
  /\ launches single = []
  /\ opened_files piped = ["missing.txt"]
  /\ errors piped = []
  /\ map (fun l => hStdInput (snd l)) (launches piped)
     = [INVALID_HANDLE_VALUE; 4].
Proof. repeat split; reflexivity. Qed.

(** The theorem where [cat missing.txt] cannot be launched. *)
Lemma cat_missing_pipeline_witness :
  exists evs : list Event,
    appends world_init
      (snd (execute_pipeline env_no_cat (parse_input "cat missing.txt | sort")
              shell_init world_init)) evs
    /\ opened_files evs = []
    /\ map fst (launches evs) = ["cat missing.txt"; "sort"]
    /\ (length (errors evs) + length (launched evs) = 2)%nat
    /\ waited evs = launched evs.
Proof.
  destruct (cat_missing_pipeline env_no_cat shell_init world_init)
    as (_ & _ & _ & H).
  - reflexivity.
  - exact H.
Defined.

(** ** An input file that cannot be opened *)

Lemma setup_stdin_missing (env : Env) (cmd : Command) (rs : list HANDLE)
    (w : World) :
  string_empty (input_file cmd) = false ->
  env_create_file env w (input_file cmd) GENERIC_READ OPEN_EXISTING = false ->
  setup_stdin env 0 cmd rs w
  = (INVALID_HANDLE_VALUE,
     log w [EvCreateFile (input_file cmd) GENERIC_READ OPEN_EXISTING
              INVALID_HANDLE_VALUE]).
Proof.
  intros He Hf. unfold setup_stdin, CreateFileA. cbn [Nat.eqb].
  rewrite He. cbn [negb]. rewrite Hf. reflexivity.
Qed.

(** The messages of the launch loop: one [Cannot execute] for each stage
    that could not be launched, and nothing about a file.  When the input
    file of the first stage cannot be opened, the loop goes on with the
    handle [INVALID_HANDLE_VALUE]: it is the standard input of the first
    process it tries to create. *)
Lemma launch_stages_reports (env : Env) (n : nat) (rs ws : list HANDLE)
    (rest : list Command) :
  forall (i : nat) (hp : list HANDLE) (w : World),
    exists evs : list Event,
      appends w (snd (launch_stages env n rs ws i rest hp w)) evs
      /\ Forall (fun t => exists c, c ∈ rest
                          /\ t = "Error: Cannot execute "
                                 +:+ arg 0 (args c) +:+ endl)
           (errors evs)
      /\ ((forall w0 c si, env_create_process env w0 c si = true) ->
          errors evs = [])
      /\ (i = 0%nat ->
          forall (cmd : Command) (rest' : list Command),
            rest = cmd :: rest' ->
            string_empty (input_file cmd) = false ->
            env_create_file env w (input_file cmd) GENERIC_READ OPEN_EXISTING
            = false ->
            exists (evs' : list Event) (c : string) (si : STARTUPINFO),
              evs = EvCreateFile (input_file cmd) GENERIC_READ OPEN_EXISTING
                      INVALID_HANDLE_VALUE :: evs'
              /\ head (launches evs) = Some (c, si)
              /\ hStdInput si = INVALID_HANDLE_VALUE).
Proof.
  induction rest as [|cmd rest IH]; intros i hp w.
  - exists []. split; [apply appends_refl|]. split; [constructor|].
    split; [reflexivity|]. intros _ cmd rest' H. discriminate H.
  - cbn [launch_stages]. unfold bind.
    pose proof (setup_stdin_missing env cmd rs w) as Hm.
    destruct (setup_stdin_spec env i cmd rs w) as (e1 & A1 & F1 & _).
    destruct (setup_stdin env i cmd rs w) as [hin w1] eqn:Ein. simpl in A1.
    destruct (setup_stdout_spec env n i cmd ws w1) as (e2 & A2 & F2 & _).
    destruct (setup_stdout env n i cmd ws w1) as [hout w2]. simpl in A2.
    destruct (file_events_silent e1 F1) as (S11 & _ & _ & _ & _ & S16).
    destruct (file_events_silent e2 F2) as (S21 & _ & _ & _ & _ & S26).
    set (si := {| hStdInput := hin; hStdOutput := hout;
                  hStdError := GetStdHandle env STD_ERROR_HANDLE;
                  dwFlags := true |}).
    assert (Hfirst :
      forall (r : option PROCESS_INFORMATION) (tl : list Event),
        i = 0%nat ->
        forall (cmd0 : Command) (rest' : list Command),
          cmd :: rest = cmd0 :: rest' ->
          string_empty (input_file cmd0) = false ->
          env_create_file env w (input_file cmd0) GENERIC_READ OPEN_EXISTING
          = false ->
          exists (evs' : list Event) (c : string) (si0 : STARTUPINFO),
            e1 ++ e2 ++ EvCreateProcess (build_command_line (args cmd)) si r
                        :: tl
            = EvCreateFile (input_file cmd0) GENERIC_READ OPEN_EXISTING
                INVALID_HANDLE_VALUE :: evs'
            /\ head (launches
                       (e1 ++ e2
                        ++ EvCreateProcess (build_command_line (args cmd)) si r
                           :: tl))
               = Some (c, si0)
            /\ hStdInput si0 = INVALID_HANDLE_VALUE).
    { intros r tl -> cmd0 rest' [= <- <-] He Hf.
      rewrite (Hm He Hf) in Ein. injection Ein as <- <-.
      unfold appends in A1. cbn [trace log] in A1.
      apply app_inv_head in A1. subst e1.
      eexists _, _, si. split; [reflexivity|].
      rewrite !launches_app, S21. split; reflexivity. }
    unfold CreateProcessA.
    destruct (env_create_process env w2 (build_command_line (args cmd)) si)
      eqn:Ecp.
    + set (p := {| pi_hProcess := next_handle w2;
                   pi_hThread := next_handle w2 + 1;
                   dwProcessId := next_pid w2 |}).
      cbn [fst snd CloseHandle emit].
      match goal with
      | |- context [launch_stages env n rs ws (S i) rest ?h ?x] =>
          destruct (IH (S i) h x) as (e3 & A3 & R3 & N3 & _);
          destruct (launch_stages env n rs ws (S i) rest h x) as [hp' w3]
      end.
      simpl in A3.
      exists (e1 ++ e2 ++ EvCreateProcess (build_command_line (args cmd)) si
                             (Some p) :: EvCloseHandle (pi_hThread p) :: e3).
      split; [|split; [|split]].
      * unfold appends in *. cbn [snd]. rewrite A3. cbn [trace log].
        rewrite A2, A1. rewrite <- !app_assoc. reflexivity.
      * rewrite !errors_app, S16, S26. simpl.
        eapply List.Forall_impl; [|exact R3].
        intros t (c & Hc & ->). exists c. split; [|reflexivity].
        by apply list_elem_of_further.
      * intros Hok. rewrite !errors_app, S16, S26. simpl. apply N3, Hok.
      * apply Hfirst.
    + cbn [fst snd cerr emit].
      match goal with
      | |- context [launch_stages env n rs ws (S i) rest ?h ?x] =>
          destruct (IH (S i) h x) as (e3 & A3 & R3 & N3 & _);
          destruct (launch_stages env n rs ws (S i) rest h x) as [hp' w3]
      end.
      simpl in A3.
      exists (e1 ++ e2 ++ EvCreateProcess (build_command_line (args cmd)) si
                             None
                          :: EvErr ("Error: Cannot execute "
                                    +:+ arg 0 (args cmd) +:+ endl) :: e3).
      split; [|split; [|split]].
      * unfold appends in *. cbn [snd]. rewrite A3. cbn [trace log].
        rewrite A2, A1. rewrite <- !app_assoc. reflexivity.
      * rewrite !errors_app, S16, S26. simpl. constructor.
        -- exists cmd. split; [apply list_elem_of_here | reflexivity].
        -- eapply List.Forall_impl; [|exact R3].
           intros t (c & Hc & ->). exists c. split; [|reflexivity].
           by apply list_elem_of_further.
      * intros Hok. rewrite Hok in Ecp. discriminate Ecp.
      * apply Hfirst.
Qed.

(** C2.  In a pipeline that gets its pipes and whose first stage has an
    input file that cannot be opened, as ["cat < missing.txt | sort"] where
    [missing.txt] does not exist, [execute_pipeline] reports no error for
    the file.  [CreateFileA] is called and returns [INVALID_HANDLE_VALUE];
    the result is not looked at; the first stage is handed to
    [CreateProcessA] like the others, with this handle as its input.  The
    only messages are [Cannot execute] for the stages that could not be
    launched, and there is none when every process can be created.  The
    other two parts hold: every later stage is attempted, and in the
    foreground the shell waits on exactly the processes launched. *)
Theorem pipeline_missing_input_not_reported (env : Env) (cmds : list Command)
    (sh : Shell) (w : World) :
  (2 <= length cmds)%nat ->
  (forall w0, env_create_pipe env w0 = true) ->
  background (back cmds) = false ->
  string_empty (input_file (hd Command0 cmds)) = false ->
  (forall w0, env_create_file env w0 (input_file (hd Command0 cmds))
                GENERIC_READ OPEN_EXISTING = false) ->
  fst (execute_pipeline env cmds sh w) = Running sh
  /\ exists evs : list Event,
       appends w (snd (execute_pipeline env cmds sh w)) evs
       /\ EvCreateFile (input_file (hd Command0 cmds)) GENERIC_READ
            OPEN_EXISTING INVALID_HANDLE_VALUE ∈ evs
       /\ Forall (fun t => exists c, c ∈ cmds
                           /\ t = "Error: Cannot execute "
                                  +:+ arg 0 (args c) +:+ endl)
            (errors evs)
       /\ ((forall w0 c si, env_create_process env w0 c si = true) ->
           errors evs = [])
       /\ map fst (launches evs)
          = map (fun c => build_command_line (args c)) cmds
       /\ (exists (c : string) (si : STARTUPINFO),
             head (launches evs) = Some (c, si)
             /\ hStdInput si = INVALID_HANDLE_VALUE)
       /\ waited evs = launched evs.
Proof.
  intros Hlen Hpipe Hbg He Hf.
  rewrite (execute_pipeline_multi env cmds sh Hlen).
  unfold bind.
  destruct (create_pipes_spec env (length cmds - 1) [] [] w) as [ps Hps].
  destruct (create_pipes env (length cmds - 1) [] [] w) as [[[rs ws]|] w1].
  2: { destruct Hps as (_ & [w0 Hw0] & _). rewrite Hpipe in Hw0.
       discriminate Hw0. }
  destruct Hps as (-> & -> & Hn & A1). simpl.
  destruct (launch_stages_spec env (length cmds) ps.*1 ps.*2 cmds 0 [] w1)
    as (evs & A2 & R2 & L2 & G2 & T2 & P2 & O2 & N2).
  destruct (launch_stages_reports env (length cmds) ps.*1 ps.*2 cmds 0 [] w1)
    as (evs0 & A0 & E0 & Q0 & H0).
  assert (Heq : evs0 = evs).
  { unfold appends in A0, A2. rewrite A2 in A0.
    apply app_inv_head in A0. auto. }
  subst evs0.
  destruct cmds as [|cmd rest]; [simpl in Hlen; lia|].
  destruct (H0 eq_refl cmd rest eq_refl He (Hf w1))
    as (evs' & c & si & Eevs & Hhd & Hin).
  destruct (launch_stages env (length (cmd :: rest)) ps.*1 ps.*2 0
              (cmd :: rest) [] w1) as [hp w2].
  simpl in A2, R2. subst hp.
  cbv beta iota zeta. rewrite close_all_spec.
  cbv beta iota zeta. rewrite close_all_spec. cbv beta iota zeta.
  match goal with
  | |- context [execute_pipeline_finish ?cs sh ?h ?x] =>
      destruct (execute_pipeline_finish_spec cs sh h x) as (fin & F & A3);
      destruct (execute_pipeline_finish cs sh h x) as [sh' w3]
  end.
  simpl in F, A3.
  destruct (finish_spec_events _ _ _ _ _ F) as (F1 & F2 & _ & F4).
  destruct (quiet_finish _ _ _ _ _ F) as (_ & F6).
  rewrite Hbg in F4. unfold finish_spec in F. rewrite Hbg in F.
  destruct F as [-> _].
  split; [reflexivity|].
  exists (pipe_events ps ++ evs ++ map EvCloseHandle ps.*1
          ++ map EvCloseHandle ps.*2 ++ fin).
  destruct (launches_pipe_events ps) as (E1 & E2 & E3 & _).
  destruct (quiet_pipe_events ps) as (_ & E6).
  destruct (launches_closes ps.*1) as (C1 & C2 & C3 & _).
  destruct (quiet_closes ps.*1) as (_ & C6).
  destruct (launches_closes ps.*2) as (D1 & D2 & D3 & _).
  destruct (quiet_closes ps.*2) as (_ & D6).
  rewrite !launches_app, !launched_app, !waited_app, !errors_app.
  rewrite E1, E2, E3, E6, C1, C2, C3, C6, D1, D2, D3, D6, F1, F2, F4, F6, T2.
  cbn [app]. rewrite !app_nil_r.
  split; [|split; [|split; [|split; [|split; [|split]]]]].
  - unfold appends, ret in *. cbn [snd]. rewrite A3. simpl.
    rewrite A2, A1. unfold pipe_events. rewrite <- !app_assoc. reflexivity.
  - apply elem_of_app. right. apply elem_of_app. left.
    rewrite Eevs. apply list_elem_of_here.
  - exact E0.
  - exact Q0.
  - exact L2.
  - exists c, si. split; [exact Hhd | exact Hin].
  - reflexivity.
Qed.

(** The theorem at ["cat < missing.txt | sort"] where no file can be
    opened: no message at all, and [cat] is created with
    [INVALID_HANDLE_VALUE] as its input. *)
Lemma pipeline_missing_input_not_reported_witness :
  exists evs : list Event,
    appends world_init
      (snd (execute_pipeline env_no_files
              (parse_input "cat < missing.txt | sort") shell_init world_init))
      evs
    /\ errors evs = []
    /\ map fst (launches evs) = ["cat"; "sort"]
    /\ (exists (c : string) (si : STARTUPINFO),
          head (launches evs) = Some (c, si)
          /\ hStdInput si = INVALID_HANDLE_VALUE)
    /\ waited evs = launched evs.
Proof.
  destruct (pipeline_missing_input_not_reported env_no_files
              (parse_input "cat < missing.txt | sort") shell_init world_init)
    as (_ & evs & A & _ & _ & Q & L & H & W).
  - vm_compute. lia.
  - reflexivity.
  - reflexivity.
  - reflexivity.
  - reflexivity.
  - exists evs. split; [exact A|]. split; [apply Q; reflexivity|].
    split; [exact L|]. split; [exact H | exact W].
Defined.

(** * Further properties of the parser *)

Lemma read_tokens_all_space (s : string) :
  all_space s = true -> read_tokens s "" = [].
Proof.
  induction s as [|c s IH]; simpl; [reflexivity|].
  intros H. apply andb_true_iff in H as [Hc Hs]. rewrite Hc. simpl. auto.
Qed.

(** X1. A line that is empty or made of white space only has no token and
    parses to no stage, and [execute_pipeline] then does nothing: no call
    of the system, no message, the shell as before. *)
Theorem blank_line_does_nothing (env : Env) (input : string) (sh : Shell)
    (w : World) :
  all_space input = true ->
  tokenize input = []
  /\ parse_input input = []
  /\ execute_pipeline env (parse_input input) sh w = (Running sh, w).
Proof.
  intros H. unfold parse_input, tokenize.
  rewrite (read_tokens_all_space input H). repeat split.
Qed.

(** The theorem at a line of two spaces and a tabulation. *)
Lemma blank_line_does_nothing_witness :
  execute_pipeline env_ok (parse_input ("  " +:+ String "009"%char ""))
    shell_init world_init
  = (Running shell_init, world_init).
Proof.
  apply (blank_line_does_nothing env_ok ("  " +:+ String "009"%char "")
           shell_init world_init).
  reflexivity.
Defined.

(** X2. A line made of operators only, such as ["| | >"] or ["< &"], parses
    to no stage. *)
Theorem operators_only_no_stage (tokens : list string) :
  Forall (fun o => is_operator o = true) tokens ->
  parse_tokens tokens = [].
Proof.
  intros H. unfold parse_tokens, parse_finish.
  destruct (parse_loop_operators tokens H parse_init eq_refl)
    as (H1 & H2 & _).
  rewrite H1, H2. reflexivity.
Qed.

(** The theorem at ["| | >"]. *)
Lemma operators_only_no_stage_witness : parse_input "| | >" = [].
Proof.
  apply (operators_only_no_stage ["|"; "|"; ">"]).
  repeat constructor.
Defined.

Lemma no_space_app (a b : string) :
  no_space (a +:+ b) = no_space a && no_space b.
Proof.
  induction a as [|c a IH]; simpl; [reflexivity|].
  rewrite IH, andb_assoc. reflexivity.
Qed.

Lemma string_empty_app (a b : string) :
  string_empty (a +:+ b) = string_empty a && string_empty b.
Proof. destruct a; reflexivity. Qed.

(** Every token read is a word, when the run being read has no white
    space. *)
Lemma read_tokens_words (s : string) :
  forall tok : string,
    no_space tok = true ->
    Forall (fun t => is_word t = true) (read_tokens s tok).
Proof.
  induction s as [|c s IH]; intros tok Htok; simpl.
  - destruct (string_empty tok) eqn:E; [constructor|].
    constructor; [|constructor]. unfold is_word. rewrite E, Htok. reflexivity.
  - destruct (isspace c) eqn:Hc.
    + destruct (string_empty tok) eqn:E; [apply IH; reflexivity|].
      constructor; [|apply IH; reflexivity].
      unfold is_word. rewrite E, Htok. reflexivity.
    + apply IH. rewrite no_space_app, Htok. simpl. rewrite Hc. reflexivity.
Qed.

Lemma no_space_has_space (s : string) : no_space s = true -> has_space s = false.
Proof.
  induction s as [|c s IH]; simpl; [reflexivity|].
  intros H. apply andb_true_iff in H as [Hc Hs].
  destruct (Ascii.eqb_spec c " "%char) as [->|_]; [discriminate Hc | auto].
Qed.

Lemma stage_of_mono (l1 l2 : list string) (c : Command) :
  l1 ⊆ l2 -> stage_of l1 c -> stage_of l2 c.
Proof.
  intros Hsub (Ha & Hi & Ho). split; [|split].
  - eapply Forall_impl; [exact Ha|]. intros a [H1 H2]. auto.
  - destruct Hi as [?|[? ?]]; auto.
  - destruct Ho as [?|[? ?]]; auto.
Qed.

Lemma parse_step_stages (tokens : list string) (st : PState) (t : string) :
  Forall (fun c => args c <> [] /\ stage_of tokens c) (commands st) ->
  stage_of tokens (current_cmd st) ->
  t ∈ tokens ->
  Forall (fun c => args c <> [] /\ stage_of tokens c)
    (commands (parse_step st t))
  /\ stage_of tokens (current_cmd (parse_step st t)).
Proof.
  intros Hc Hcur Ht. pose proof Hcur as (Ha & Hi & Ho).
  destruct (is_operator t) eqn:Hop.
  - destruct (is_operator_cases t Hop) as [ -> | [ -> | [ -> | [ -> | -> ] ] ] ];
      unfold parse_step; simpl; auto.
    destruct (args (current_cmd st)) eqn:E; simpl; [auto|].
    split.
    + apply Forall_app. split; [exact Hc|].
      constructor; [|constructor]. split; [congruence | exact Hcur].
    + repeat split; simpl; auto.
  - rewrite (parse_step_plain st t Hop).
    destruct (expect_input_file st); [|destruct (expect_output_file st)];
      simpl; (split; [exact Hc|]); split; simpl; auto.
    apply Forall_app. split; [exact Ha|]. constructor; auto.
Qed.

Lemma parse_loop_stages (tokens : list string) (l : list string) :
  forall st : PState,
    l ⊆ tokens ->
    Forall (fun c => args c <> [] /\ stage_of tokens c) (commands st) ->
    stage_of tokens (current_cmd st) ->
    Forall (fun c => args c <> [] /\ stage_of tokens c)
      (commands (parse_loop st l))
    /\ stage_of tokens (current_cmd (parse_loop st l)).
Proof.
  induction l as [|t l IH]; intros st Hsub Hc Hcur; [auto|].
  rewrite parse_loop_cons.
  destruct (parse_step_stages tokens st t Hc Hcur) as [H1 H2].
  { apply Hsub. apply list_elem_of_here. }
  apply IH; auto. intros x Hx. apply Hsub. by apply list_elem_of_further.
Qed.

(** The stages returned have an argument and are made from the tokens of
    the line. *)
Lemma parse_input_stages (input : string) :
  Forall (fun c => args c <> [] /\ stage_of (tokenize input) c)
    (parse_input input).
Proof.
  unfold parse_input, parse_tokens.
  destruct (parse_loop_stages (tokenize input) (tokenize input) parse_init)
    as [Hc Hcur].
  { reflexivity. }
  { constructor. }
  { repeat split; simpl; auto. }
  unfold parse_finish.
  destruct (args (current_cmd (parse_loop parse_init (tokenize input))))
    eqn:E; simpl; [exact Hc|].
  apply Forall_app. split; [exact Hc|].
  constructor; [|constructor]. split; [congruence | exact Hcur].
Qed.

(** The arguments of a stage made from the tokens of a line are plain
    words. *)
Lemma stage_args_plain (input : string) (c : Command) :
  stage_of (tokenize input) c ->
  Forall (fun a => is_plain a = true /\ has_space a = false) (args c).
Proof.
  intros (Ha & _).
  eapply Forall_impl; [exact Ha|]. intros a [Hin Hop].
  pose proof (read_tokens_words input "" eq_refl) as Hw.
  rewrite Forall_forall in Hw. specialize (Hw a Hin).
  unfold is_plain. rewrite Hw, Hop. split; [reflexivity|].
  apply no_space_has_space. unfold is_word in Hw.
  apply andb_true_iff in Hw as [_ Hw]. exact Hw.
Qed.

(** X3. Every stage the parser returns has at least one argument, and its
    arguments are plain tokens of the line: never an operator, never the
    empty string, never a string with white space.  Its input and output
    files, when set, are plain tokens of the line too.  So [args[0]] exists
    for every stage handed to [execute_pipeline], and [build_command_line]
    never has to quote an argument that comes from the parser. *)
Theorem parsed_stages_have_plain_arguments (input : string) :
  Forall (fun c =>
            args c <> []
            /\ stage_of (tokenize input) c
            /\ Forall (fun a => is_plain a = true /\ has_space a = false)
                 (args c))
    (parse_input input).
Proof.
  eapply Forall_impl; [apply parse_input_stages|].
  intros c [Hne Hst]. split; [exact Hne|]. split; [exact Hst|].
  eapply stage_args_plain, Hst.
Qed.

Lemma string_app_assoc (a b c : string) : (a +:+ b) +:+ c = a +:+ (b +:+ c).
Proof.
  induction a as [|x a IH]; [reflexivity|].
  change (String x ((a +:+ b) +:+ c) = String x (a +:+ (b +:+ c))).
  by rewrite IH.
Qed.

Lemma string_app_nil_r (a : string) : a +:+ "" = a.
Proof.
  induction a as [|x a IH]; [reflexivity|].
  change (String x (a +:+ "") = String x a). by rewrite IH.
Qed.

(** The loop of [build_command_line] appends the arguments to what it has
    built. *)
Lemma build_loop_acc (rest : list string) :
  forall (i : nat) (acc : string),
    build_loop (S i) rest acc = acc +:+ build_loop (S i) rest "".
Proof.
  induction rest as [|a rest IH]; intros i acc; simpl.
  - by rewrite string_app_nil_r.
  - destruct (has_space a).
    + rewrite (IH (S i) ((acc +:+ " ") +:+ (dquote +:+ a +:+ dquote))).
      rewrite (IH (S i) (("" +:+ " ") +:+ (dquote +:+ a +:+ dquote))).
      rewrite !string_app_assoc. reflexivity.
    + rewrite (IH (S i) ((acc +:+ " ") +:+ a)).
      rewrite (IH (S i) (("" +:+ " ") +:+ a)).
      rewrite !string_app_assoc. reflexivity.
Qed.

Lemma build_loop_succ (rest : list string) (i : nat) :
  build_loop (S (S i)) rest "" = build_loop 1 rest "".
Proof.
  revert i. induction rest as [|a rest IH]; intros i; simpl; [reflexivity|].
  rewrite build_loop_acc, (build_loop_acc rest 1), (IH (S i)), (IH 0%nat).
  reflexivity.
Qed.

Lemma build_command_line_concat (a : list string) :
  build_command_line a = String.concat " " (map quote_arg a).
Proof.
  unfold build_command_line. destruct a as [|x a]; [reflexivity|].
  simpl build_loop. fold (quote_arg x).
  assert (E : (if has_space x then "" +:+ (dquote +:+ x +:+ dquote)
               else "" +:+ x) = quote_arg x).
  { unfold quote_arg. destruct (has_space x); reflexivity. }
  rewrite E. clear E. revert x.
  induction a as [|y a IH]; intros x; [reflexivity|].
  change (String.concat " " (map quote_arg (x :: y :: a)))
    with (quote_arg x +:+ " " +:+ String.concat " " (map quote_arg (y :: a))).
  rewrite <- (IH y). simpl build_loop.
  generalize (quote_arg x). intros qx.
  assert (E : (if has_space y then (qx +:+ " ") +:+ (dquote +:+ y +:+ dquote)
               else (qx +:+ " ") +:+ y)
              = (qx +:+ " ") +:+ quote_arg y).
  { unfold quote_arg. destruct (has_space y); reflexivity. }
  rewrite E. clear E.
  rewrite build_loop_acc, build_loop_succ.
  rewrite (build_loop_acc a 0 (quote_arg y)).
  rewrite !string_app_assoc. reflexivity.
Qed.

Lemma pipeline_text_acc (l : list Command) :
  forall acc : string,
    pipeline_text l acc
    = acc +:+ String.concat " | "
                (map (fun c => build_command_line (args c)) l).
Proof.
  induction l as [|c l IH]; intros acc; simpl.
  - by rewrite string_app_nil_r.
  - rewrite IH. destruct l as [|d l]; simpl.
    + by rewrite !string_app_nil_r.
    + rewrite !string_app_assoc. reflexivity.
Qed.

(** X4. [build_command_line] is the concatenation of the arguments with a
    single space between them, an argument with a space in it being put
    between double quotes.  [pipeline_text], the text of a background
    pipeline, is the concatenation of the command lines of the stages with
    [" | "] between them. *)
Theorem command_line_is_concat (a : list string) (cmds : list Command) :
  build_command_line a = String.concat " " (map quote_arg a)
  /\ pipeline_text cmds ""
     = String.concat " | " (map (fun c => build_command_line (args c)) cmds).
Proof.
  split; [apply build_command_line_concat | apply pipeline_text_acc].
Qed.

(** Plain tokens with no file name expected are appended to the arguments
    of the current stage. *)
Lemma parse_loop_plain (l : list string) :
  forall st : PState,
    Forall (fun t => is_operator t = false) l ->
    expect_input_file st = false ->
    expect_output_file st = false ->
    parse_loop st l
    = {| commands := commands st;
         current_cmd := set_args (current_cmd st) (args (current_cmd st) ++ l);
         expect_input_file := false;
         expect_output_file := false |}.
Proof.
  induction l as [|t l IH]; intros st Hl Hi Ho.
  - simpl. rewrite app_nil_r. destruct st as [cs [a i o ap bg] ei eo].
    simpl in *. subst. reflexivity.
  - inversion Hl as [|? ? Ht Hl']; subst.
    rewrite parse_loop_cons, (parse_step_plain st t Ht), Hi, Ho.
    rewrite IH by auto. simpl. rewrite <- app_assoc. reflexivity.
Qed.

Lemma parse_pipe_tokens (stages : list (list string)) :
  Forall (fun a => a <> [] /\ Forall (fun t => is_operator t = false) a) stages ->
  forall cs : list Command,
    parse_finish
      (parse_loop {| commands := cs; current_cmd := Command0;
                     expect_input_file := false;
                     expect_output_file := false |} (pipe_tokens stages))
    = cs ++ map plain_stage stages.
Proof.
  induction 1 as [|a stages [Hne Ha] Hst IH]; intros cs.
  - simpl. unfold parse_finish. simpl. by rewrite app_nil_r.
  - destruct stages as [|b stages].
    + simpl pipe_tokens. rewrite parse_loop_plain by auto.
      unfold parse_finish. simpl. destruct a; [contradiction|]. reflexivity.
    + change (pipe_tokens (a :: b :: stages))
        with (a ++ "|" :: pipe_tokens (b :: stages)).
      rewrite parse_loop_app. rewrite (parse_loop_plain a) by auto.
      rewrite parse_loop_cons. unfold parse_step at 1. simpl.
      destruct a as [|x a]; [contradiction|]. simpl.
      rewrite IH. rewrite <- app_assoc. reflexivity.
Qed.

(** X5. A line of commands without redirection, separated by ['|'], parses
    to one stage per command, in order, each with the words of its command
    as arguments, no file and no flag.  Each command has at least one word
    and no word is an operator. *)
Theorem parse_plain_pipeline (stages : list (list string)) :
  Forall (fun a => a <> [] /\ Forall (fun t => is_operator t = false) a) stages ->
  parse_tokens (pipe_tokens stages) = map plain_stage stages.
Proof.
  intros H. apply (parse_pipe_tokens stages H []).
Qed.

(** The theorem at the stages of ["dir /b | sort | more"]. *)
Lemma parse_plain_pipeline_witness :
  parse_input "dir /b | sort | more"
  = [plain_stage ["dir"; "/b"]; plain_stage ["sort"]; plain_stage ["more"]].
Proof.
  apply (parse_plain_pipeline [["dir"; "/b"]; ["sort"]; ["more"]]).
  repeat constructor; discriminate.
Defined.

Lemma read_tokens_word (u : string) :
  no_space u = true ->
  forall (s tok : string), read_tokens (u +:+ s) tok = read_tokens s (tok +:+ u).
Proof.
  induction u as [|c u IH]; intros Hu s tok.
  - simpl. by rewrite string_app_nil_r.
  - simpl in Hu. apply andb_true_iff in Hu as [Hc Hu].
    apply negb_true_iff in Hc.
    change (String c u +:+ s) with (String c (u +:+ s)).
    simpl read_tokens. rewrite Hc, (IH Hu), string_app_assoc. reflexivity.
Qed.

Lemma tokenize_concat (a : list string) :
  Forall (fun t => is_word t = true) a ->
  tokenize (String.concat " " a) = a.
Proof.
  unfold tokenize. induction 1 as [|x a Hx Ha IH]; [reflexivity|].
  unfold is_word in Hx. apply andb_true_iff in Hx as [Hne Hx].
  apply negb_true_iff in Hne.
  destruct a as [|y a].
  - simpl String.concat. rewrite <- (string_app_nil_r x) at 1.
    rewrite (read_tokens_word x Hx). change ("" +:+ x) with x.
    cbn [read_tokens]. rewrite Hne. reflexivity.
  - change (String.concat " " (x :: y :: a))
      with (x +:+ String " " (String.concat " " (y :: a))).
    rewrite (read_tokens_word x Hx). change ("" +:+ x) with x.
    cbn [read_tokens]. change (isspace " ") with true. cbv iota.
    rewrite Hne, IH. reflexivity.
Qed.

Lemma quote_words (a : list string) :
  Forall (fun t => is_word t = true) a -> map quote_arg a = a.
Proof.
  induction 1 as [|x a Hx Ha IH]; [reflexivity|]. simpl. rewrite IH.
  unfold quote_arg, is_word in *. apply andb_true_iff in Hx as [_ Hx].
  rewrite (no_space_has_space x Hx). reflexivity.
Qed.

(** X6. A command line read back: when the arguments are words (not empty, no
    white space), the tokens of [build_command_line] are the arguments
    again.  So for every stage the parser returns, parsing the command line
    built from its arguments gives one stage with the same arguments and
    no redirection. *)
Theorem command_line_round_trip (a : list string) (input : string) :
  (Forall (fun t => is_word t = true) a ->
   tokenize (build_command_line a) = a)
  /\ Forall (fun c => parse_input (build_command_line (args c))
                      = [plain_stage (args c)])
       (parse_input input).
Proof.
  assert (Hrt : forall l, Forall (fun t => is_word t = true) l ->
                          tokenize (build_command_line l) = l).
  { intros l Hl.
    rewrite build_command_line_concat, (quote_words l Hl). apply tokenize_concat, Hl. }
  split; [apply Hrt|].
  eapply Forall_impl; [apply parse_input_stages|].
  intros c (Hne & Hst). simpl in *.
  pose proof (stage_args_plain input c Hst) as Hplain.
  unfold parse_input. rewrite Hrt.
  - apply (parse_pipe_tokens [args c]). constructor; [|constructor].
    split; [exact Hne|].
    eapply Forall_impl; [exact Hplain|]. intros t [Ht _].
    unfold is_plain in Ht. apply andb_true_iff in Ht as [_ Ht].
    by apply negb_true_iff in Ht.
  - eapply Forall_impl; [exact Hplain|]. intros t [Ht _].
    unfold is_plain in Ht. by apply andb_true_iff in Ht as [Ht _].
Qed.

(** X7. A command followed by an input and an output redirection, and
    possibly ['&']: the parser returns the single stage with the words of
    the command as arguments, the two file names, the append flag set for
    ['>>'] and not for ['>'], and the background flag set when ['&'] is
    there. *)
Theorem parse_redirections (a : list string) (fin fout : string)
    (append amp : bool) :
  a <> [] ->
  Forall (fun t => is_operator t = false) a ->
  is_operator fin = false ->
  is_operator fout = false ->
  parse_tokens (a ++ ["<"; fin; (if append then ">>" else ">"); fout]
                  ++ (if amp then ["&"] else []))
  = [ {| args := a; input_file := fin; output_file := fout;
         append_output := append; background := amp |} ].
Proof.
  intros Hne Ha Hfin Hfout. unfold parse_tokens.
  rewrite parse_loop_app, (parse_loop_plain a) by auto.
  rewrite parse_loop_app.
  rewrite !parse_loop_cons.
  assert (E : forall st, parse_step st "<"
                = {| commands := commands st; current_cmd := current_cmd st;
                     expect_input_file := true;
                     expect_output_file := expect_output_file st |})
    by reflexivity.
  rewrite E, (parse_step_plain _ fin Hfin). simpl expect_input_file. cbv iota.
  assert (E2 : forall st,
             parse_step st (if append then ">>" else ">")
             = {| commands := commands st;
                  current_cmd := set_append_output (current_cmd st) append;
                  expect_input_file := expect_input_file st;
                  expect_output_file := true |}).
  { intros st. destruct append; reflexivity. }
  rewrite E2, (parse_step_plain _ fout Hfout). simpl.
  destruct a as [|x a]; [contradiction|].
  destruct amp; reflexivity.
Qed.

(** The theorem at ["sort < in.txt >> out.txt &"]. *)
Lemma parse_redirections_witness :
  parse_input "sort < in.txt >> out.txt &"
  = [ {| args := ["sort"]; input_file := "in.txt"; output_file := "out.txt";
         append_output := true; background := true |} ].
Proof.
  apply (parse_redirections ["sort"] "in.txt" "out.txt" true true);
    [discriminate | repeat constructor | reflexivity | reflexivity].
Defined.

(** * Further properties of the builtins *)

(** X8. [fg] on a tracked job prints its command, waits for its process,
    closes its handle and removes its entry; the other entries and the
    counter are as before. *)
Theorem fg_waits_and_removes (a : list string) (job_id : Z) (job : Job)
    (sh : Shell) (w : World) :
  (2 <= length a)%nat ->
  stoi (arg 1 a) = Some job_id ->
  jobs sh !! job_id = Some job ->
  builtin_fg a sh w
  = (remove_job job_id sh,
     log w [EvOut (command job +:+ endl);
            EvWaitForSingleObject (hProcess job);
            EvCloseHandle (hProcess job)])
  /\ jobs (remove_job job_id sh) !! job_id = None
  /\ (forall k, k <> job_id ->
        jobs (remove_job job_id sh) !! k = jobs sh !! k)
  /\ job_counter (remove_job job_id sh) = job_counter sh.
Proof.
  intros Hlen Hid Hjob. split; [|split; [|split]].
  - unfold builtin_fg. destruct (Nat.ltb_spec (length a) 2); [lia|].
    rewrite Hid, Hjob. unfold bind, cout, WaitForSingleObject, CloseHandle, emit.
    rewrite !log_log. reflexivity.
  - apply lookup_delete_eq.
  - intros k Hk. simpl. apply lookup_delete_ne. congruence.
  - reflexivity.
Qed.

(** The theorem at [fg 1] with the job 1 tracked. *)
Lemma fg_waits_and_removes_witness :
  builtin_fg ["fg"; "1"] shell_one_job world_init
  = (remove_job 1 shell_one_job,
     log world_init [EvOut ("ping" +:+ endl); EvWaitForSingleObject 8;
                     EvCloseHandle 8]).
Proof.
  apply (fg_waits_and_removes ["fg"; "1"] 1 (mkJob 8 1000 "ping" false)
           shell_one_job world_init); [simpl; lia | reflexivity | reflexivity].
Defined.

(** X9. [kill] on a tracked job whose [TerminateProcess] succeeds prints
    the notice, closes the handle and removes the entry; the other entries
    and the counter are as before.  It does not wait for the process. *)
Theorem kill_terminates_and_removes (env : Env) (a : list string) (job_id : Z)
    (job : Job) (sh : Shell) (w : World) :
  (2 <= length a)%nat ->
  stoi (arg 1 a) = Some job_id ->
  jobs sh !! job_id = Some job ->
  env_terminate env w (hProcess job) = true ->
  builtin_kill env a sh w
  = (remove_job job_id sh,
     log w [EvTerminateProcess (hProcess job) true;
            EvOut ("[" +:+ show job_id +:+ "] Terminated" +:+ endl);
            EvCloseHandle (hProcess job)])
  /\ jobs (remove_job job_id sh) !! job_id = None
  /\ (forall k, k <> job_id ->
        jobs (remove_job job_id sh) !! k = jobs sh !! k)
  /\ job_counter (remove_job job_id sh) = job_counter sh.
Proof.
  intros Hlen Hid Hjob Hterm. split; [|split; [|split]].
  - unfold builtin_kill. destruct (Nat.ltb_spec (length a) 2); [lia|].
    rewrite Hid, Hjob. unfold bind, TerminateProcess. rewrite Hterm.
    simpl. unfold cout, CloseHandle, emit. rewrite !log_log. reflexivity.
  - apply lookup_delete_eq.
  - intros k Hk. simpl. apply lookup_delete_ne. congruence.
  - reflexivity.
Qed.

(** The theorem at [kill 1] with the job 1 tracked. *)
Lemma kill_terminates_and_removes_witness :
  jobs (fst (builtin_kill env_ok ["kill"; "1"] shell_one_job world_init)) !! 1
  = None.
Proof.
  destruct (kill_terminates_and_removes env_ok ["kill"; "1"] 1
              (mkJob 8 1000 "ping" false) shell_one_job world_init)
    as (E & H & _); [simpl; lia | reflexivity | reflexivity | reflexivity |].
  rewrite E. exact H.
Defined.

(** X10. [fg] and [kill] without an id, or with an id [stoi] does not read,
    print their message and change nothing: no call of the system and the
    registry as before. *)
Theorem fg_kill_invalid_argument (env : Env) (a : list string) (sh : Shell)
    (w : World) :
  ((length a < 2)%nat ->
   builtin_fg a sh w = (sh, log w [EvErr ("fg: job id required" +:+ endl)])
   /\ builtin_kill env a sh w
      = (sh, log w [EvErr ("kill: job id required" +:+ endl)]))
  /\ ((2 <= length a)%nat -> stoi (arg 1 a) = None ->
      builtin_fg a sh w = (sh, log w [EvErr ("fg: invalid job id" +:+ endl)])
      /\ builtin_kill env a sh w
         = (sh, log w [EvErr ("kill: invalid job id" +:+ endl)])).
Proof.
  split.
  - intros H. unfold builtin_fg, builtin_kill.
    destruct (Nat.ltb_spec (length a) 2); [|lia]. split; reflexivity.
  - intros H Hs. unfold builtin_fg, builtin_kill.
    destruct (Nat.ltb_spec (length a) 2); [lia|]. rewrite Hs.
    split; reflexivity.
Qed.

(** The theorem at [fg] and at [kill abc]. *)
Lemma fg_kill_invalid_argument_witness :
  builtin_fg ["fg"] shell_one_job world_init
  = (shell_one_job, log world_init [EvErr ("fg: job id required" +:+ endl)])
  /\ builtin_kill env_ok ["kill"; "abc"] shell_one_job world_init
     = (shell_one_job,
        log world_init [EvErr ("kill: invalid job id" +:+ endl)]).
Proof.
  split.
  - destruct (fg_kill_invalid_argument env_ok ["fg"] shell_one_job world_init)
      as [H _]. apply H. simpl. lia.
  - destruct (fg_kill_invalid_argument env_ok ["kill"; "abc"] shell_one_job
                world_init) as [_ H].
    apply H; [simpl; lia | reflexivity].
Defined.

Lemma close_jobs_spec (l : list (Z * Job)) (w : World) :
  close_jobs l w
  = (tt, log w (map EvCloseHandle
                  (List.filter (fun h => negb (Z.eqb h NULL))
                     (map (fun e => hProcess (snd e)) l)))).
Proof.
  revert w. induction l as [|[k job] l IH]; intros w; simpl.
  - unfold ret, log. destruct w; simpl. by rewrite app_nil_r.
  - unfold bind, when. destruct (negb (hProcess job =? NULL)); simpl.
    + unfold CloseHandle, emit. rewrite IH, log_log. reflexivity.
    + unfold ret. apply IH.
Qed.

(** X11. When [exit] ends the shell it first closes the handle of every
    tracked job, in the order of the ids, and does nothing else; each
    tracked handle that is not [NULL] is among those closed.  This is the
    case without argument and with an argument [stoi] reads. *)
Theorem exit_closes_tracked_handles (a : list string) (sh : Shell) (w : World) :
  ((1 < length a)%nat -> stoi (arg 1 a) <> None) ->
  builtin_exit a sh w
  = (Exited (if (1 <? length a)%nat then default 0 (stoi (arg 1 a)) else 0),
     log w (map EvCloseHandle (tracked_handles sh)))
  /\ forall (job_id : Z) (job : Job),
       jobs sh !! job_id = Some job ->
       hProcess job <> NULL ->
       hProcess job ∈ tracked_handles sh.
Proof.
  intros Hok. split.
  - unfold builtin_exit, bind.
    destruct (Nat.ltb_spec 1 (length a)) as [Hl|Hl].
    + destruct (stoi (arg 1 a)) as [n|] eqn:E; [|exfalso; by apply Hok].
      cbv beta zeta. rewrite close_jobs_spec. reflexivity.
    + cbv beta zeta. rewrite close_jobs_spec. reflexivity.
  - intros job_id job Hjob Hnull. unfold tracked_handles.
    apply list_elem_of_In, filter_In. split.
    + apply in_map_iff. exists (job_id, job). split; [reflexivity|].
      apply list_elem_of_In, in_order_elem, Hjob.
    + apply negb_true_iff, Z.eqb_neq, Hnull.
Qed.

(** The theorem at [exit 3] with the job 1 tracked: its handle 8 is
    closed. *)
Lemma exit_closes_tracked_handles_witness :
  builtin_exit ["exit"; "3"] shell_one_job world_init
  = (Exited 3, log world_init [EvCloseHandle 8]).
Proof.
  destruct (exit_closes_tracked_handles ["exit"; "3"] shell_one_job world_init)
    as [E _]; [discriminate|].
  rewrite E. reflexivity.
Defined.

(** * Further properties of the job registry *)

Lemma printed_app (l1 l2 : list Event) :
  printed (l1 ++ l2) = printed l1 ++ printed l2.
Proof. apply flat_map_app. Qed.

(** The first loop of the poll, in full: the jobs it picks are a
    subsequence of those it visits; their ids are appended to
    [completed_jobs]; for each one, in order, it prints a line and closes
    the handle. *)
Lemma poll_jobs_events (env : Env) (l : list (Z * Job)) :
  forall (acc : list Z) (w : World),
    exists (chosen : list (Z * Job)) (evs : list Event),
      chosen `sublist_of` l
      /\ fst (poll_jobs env l acc w) = acc ++ chosen.*1
      /\ appends w (snd (poll_jobs env l acc w)) evs
      /\ closed evs = map (fun e => hProcess (snd e)) chosen
      /\ printed evs = map done_line chosen.
Proof.
  induction l as [|[k job] l IH]; intros acc w.
  - exists [], []. simpl. rewrite app_nil_r. repeat split; auto.
    apply appends_refl.
  - cbn [poll_jobs].
    destruct (negb (hProcess job =? NULL)).
    + unfold bind, GetExitCodeProcess. cbn [fst snd].
      destruct (env_exit_code env w (hProcess job)) as [c|].
      * destruct (negb (c =? STILL_ACTIVE)).
        -- unfold cout, CloseHandle, emit. cbn [fst snd]. rewrite !log_log.
           match goal with
           | |- context [poll_jobs env l ?a ?x] =>
               destruct (IH a x) as (ch & evs & S1 & S2 & S3 & S4 & S5)
           end.
           exists ((k, job) :: ch). eexists. split; [by constructor|].
           split; [rewrite S2, <- app_assoc; reflexivity|].
           split; [unfold appends in *; rewrite S3; simpl;
                   rewrite <- app_assoc; reflexivity|].
           rewrite closed_app, printed_app, S4, S5. split; reflexivity.
        -- match goal with
           | |- context [poll_jobs env l ?a ?x] =>
               destruct (IH a x) as (ch & evs & S1 & S2 & S3 & S4 & S5)
           end.
           exists ch. eexists. split; [by constructor|].
           split; [exact S2|].
           split; [unfold appends in *; rewrite S3; simpl;
                   rewrite <- app_assoc; reflexivity|].
           rewrite closed_app, printed_app, S4, S5. split; reflexivity.
      * match goal with
        | |- context [poll_jobs env l ?a ?x] =>
            destruct (IH a x) as (ch & evs & S1 & S2 & S3 & S4 & S5)
        end.
        exists ch. eexists. split; [by constructor|].
        split; [exact S2|].
        split; [unfold appends in *; rewrite S3; simpl;
                rewrite <- app_assoc; reflexivity|].
        rewrite closed_app, printed_app, S4, S5. split; reflexivity.
    + destruct (IH acc w) as (ch & evs & S1 & S2 & S3 & S4 & S5).
      exists ch, evs. split; [by constructor|]. auto.
Qed.

(** X12. The poll releases the handle of a job exactly when it removes it:
    the jobs removed are a subsequence of the registry in the order of the
    ids, and for each of them, in this order, one line [Done] is printed
    and its handle is closed once; no other handle is closed and no other
    line printed.  A job is among them exactly when it was tracked before
    the poll and is not after it. *)
Theorem poll_closes_removed_jobs (env : Env) (sh : Shell) (w : World) :
  exists (removed : list (Z * Job)) (evs : list Event),
    removed `sublist_of` in_order (jobs sh)
    /\ appends w (snd (check_background_jobs env sh w)) evs
    /\ closed evs = map (fun e => hProcess (snd e)) removed
    /\ printed evs = map done_line removed
    /\ forall (job_id : Z) (job : Job),
         (job_id, job) ∈ removed
         <-> jobs sh !! job_id = Some job
             /\ jobs (fst (check_background_jobs env sh w)) !! job_id = None.
Proof.
  destruct (poll_jobs_events env (in_order (jobs sh)) [] w)
    as (ch & evs & S1 & S2 & S3 & S4 & S5).
  exists ch, evs. unfold check_background_jobs, bind.
  destruct (poll_jobs env (in_order (jobs sh)) [] w) as [ids w1].
  simpl in *. subst ids.
  split; [exact S1|]. split; [exact S3|]. split; [exact S4|].
  split; [exact S5|].
  intros job_id job. rewrite remove_jobs_lookup. split.
  - intros Hin. split.
    + apply in_order_elem. eapply elem_of_sublist; eauto.
    + destruct (decide (job_id ∈ ch.*1)) as [_|Hn]; [reflexivity|].
      exfalso. apply Hn. apply list_elem_of_fmap. by exists (job_id, job).
  - intros [Hjob Hnone].
    destruct (decide (job_id ∈ ch.*1)) as [Hin|_]; [|congruence].
    apply list_elem_of_fmap in Hin as ([k j] & -> & Hin). simpl in *.
    assert (Hj : jobs sh !! k = Some j).
    { apply in_order_elem. eapply elem_of_sublist; eauto. }
    rewrite Hjob in Hj. injection Hj as ->. exact Hin.
Qed.

(** X13. Polling twice in a row when no job changes state: the second poll
    removes nothing, prints nothing and closes nothing; the registry is the
    one the first poll left. *)
Theorem poll_twice_reports_once (env : Env) (sh : Shell) (w : World) :
  exit_codes_stable env ->
  let r1 := check_background_jobs env sh w in
  let r2 := check_background_jobs env (fst r1) (snd r1) in
  fst r2 = fst r1
  /\ exists evs : list Event,
       appends (snd r1) (snd r2) evs
       /\ printed evs = []
       /\ closed evs = [].
Proof.
  intros Hstable r1 r2.
  set (sh1 := fst r1). set (w1 := snd r1).
  assert (Hsh1 : sh1 = fold_left (fun s i => remove_job i s)
                         (fst (poll_jobs env (in_order (jobs sh)) [] w)) sh).
  { subst sh1 r1. unfold check_background_jobs, bind.
    destruct (poll_jobs env (in_order (jobs sh)) [] w). reflexivity. }
  destruct (poll_jobs_events env (in_order (jobs sh1)) [] w1)
    as (ch & evs & S1 & S2 & S3 & S4 & S5).
  assert (Hch : ch = []).
  { destruct ch as [|[k j] ch]; [reflexivity|]. exfalso.
    assert (Hk : k ∈ fst (poll_jobs env (in_order (jobs sh1)) [] w1)).
    { rewrite S2. simpl. apply list_elem_of_here. }
    apply poll_jobs_sound in Hk as [Hk|(j' & Hj' & Hn & w0 & c & Hq & Hc)];
      [by apply elem_of_nil in Hk|].
    apply in_order_elem in Hj'.
    rewrite Hsh1, remove_jobs_lookup in Hj'.
    destruct (decide (k ∈ fst (poll_jobs env (in_order (jobs sh)) [] w)))
      as [Hin|Hin]; [discriminate|].
    apply Hin. eapply (poll_jobs_complete env _ [] w k j' c); eauto.
    - by apply in_order_elem.
    - intros w'. rewrite <- Hq. apply Hstable. }
  subst ch. simpl in *.
  assert (E : r2 = (sh1, snd (poll_jobs env (in_order (jobs sh1)) [] w1))).
  { subst r2. fold sh1 w1. unfold check_background_jobs, bind.
    destruct (poll_jobs env (in_order (jobs sh1)) [] w1) as [ids w2].
    simpl in *. subst ids. reflexivity. }
  rewrite E. simpl. split; [reflexivity|]. exists evs. auto.
Qed.

(** The theorem with the job 1, whose process has exited: the first poll
    reports it, the second reports nothing. *)
Lemma poll_twice_reports_once_witness :
  let r1 := check_background_jobs env_job_exited shell_one_job world_init in
  let r2 := check_background_jobs env_job_exited (fst r1) (snd r1) in
  printed (trace (snd r1)) = [done_line (1, mkJob 8 1000 "ping" false)]
  /\ fst r2 = fst r1.
Proof.
  split; [reflexivity|].
  apply (poll_twice_reports_once env_job_exited shell_one_job world_init).
  intros w1 w2 h. reflexivity.
Defined.

Lemma list_jobs_spec (l : list (Z * Job)) (w : World) :
  list_jobs l w
  = (tt, log w (map (fun e => EvOut (job_line e))
                  (List.filter (fun e => negb (completed (snd e))) l))).
Proof.
  revert w. induction l as [|[k job] l IH]; intros w; simpl.
  - unfold ret, log. destruct w; simpl. by rewrite app_nil_r.
  - unfold bind, when. destruct (negb (completed job)); simpl.
    + unfold cout, emit. rewrite IH, log_log. reflexivity.
    + unfold ret. apply IH.
Qed.

(** X14. [jobs] polls first and lists what is left: the registry it returns
    is the one the poll leaves, so a job the poll has just reported as done
    is not listed.  When nothing is left it prints [No background jobs];
    otherwise it prints one line per job whose [completed] flag is not set
    (no code sets it), in the order of the ids. *)
Theorem jobs_lists_after_poll (env : Env) (sh : Shell) (w : World) :
  let r := check_background_jobs env sh w in
  builtin_jobs env sh w
  = (fst r,
     log (snd r)
       (if bool_decide (jobs (fst r) = ∅)
        then [EvOut ("No background jobs" +:+ endl)]
        else map (fun e => EvOut (job_line e))
               (List.filter (fun e => negb (completed (snd e)))
                  (in_order (jobs (fst r))))))
  /\ forall (job_id : Z) (job : Job),
       jobs sh !! job_id = Some job ->
       jobs (fst r) !! job_id = None ->
       (job_id, job) ∉ in_order (jobs (fst r)).
Proof.
  intros r. split.
  - unfold builtin_jobs, bind. subst r.
    destruct (check_background_jobs env sh w) as [sh1 w1]. simpl.
    destruct (bool_decide (jobs sh1 = ∅)); [reflexivity|].
    rewrite list_jobs_spec. reflexivity.
  - intros job_id job _ Hnone Hin. apply in_order_elem in Hin. congruence.
Qed.

(** X15. [handle_builtin] handles a command exactly when its first argument
    is one of [cd], [exit], [jobs], [fg], [kill], [help], [cls], [clear],
    compared as written.  For any other command, and for a command without
    argument, it returns at once: no call of the system, no message. *)
Theorem builtin_dispatch (env : Env) (cmd : Command) (sh : Shell) (w : World) :
  (is_builtin (arg 0 (args cmd)) = false \/ args cmd = [] ->
   handle_builtin env cmd sh w = (None, w))
  /\ (is_builtin (arg 0 (args cmd)) = true -> args cmd <> [] ->
      fst (handle_builtin env cmd sh w) <> None).
Proof.
  unfold is_builtin, handle_builtin. cbn [existsb]. split.
  - intros [H|H]; [|rewrite H; reflexivity].
    rewrite !orb_false_iff in H.
    destruct H as (H1 & H2 & H3 & H4 & H5 & H6 & H7 & H8 & _).
    rewrite H1, H2, H3, H4, H5, H6, H7, H8.
    destruct (vec_empty (args cmd)); reflexivity.
  - intros H Hne. destruct (args cmd) as [|x a] eqn:E; [contradiction|].
    cbn [vec_empty arg nth] in *.
    destruct (x =? "cd")%string.
    { unfold bind. destruct (builtin_cd env (x :: a) w). discriminate. }
    destruct (x =? "exit")%string.
    { unfold bind. destruct (builtin_exit (x :: a) sh w). discriminate. }
    destruct (x =? "jobs")%string.
    { unfold bind. destruct (builtin_jobs env sh w). discriminate. }
    destruct (x =? "fg")%string.
    { unfold bind. destruct (builtin_fg (x :: a) sh w). discriminate. }
    destruct (x =? "kill")%string.
    { unfold bind. destruct (builtin_kill env (x :: a) sh w). discriminate. }
    destruct (x =? "help")%string; [discriminate|].
    destruct (x =? "cls")%string; [discriminate|].
    destruct (x =? "clear")%string; [discriminate|].
    discriminate H.
Qed.

(** The theorem at [dir], which is no builtin, and at [help]. *)
Lemma builtin_dispatch_witness :
  handle_builtin env_ok (plain_stage ["dir"]) shell_init world_init
  = (None, world_init)
  /\ fst (handle_builtin env_ok (plain_stage ["help"]) shell_init world_init)
     <> None.
Proof.
  split.
  - destruct (builtin_dispatch env_ok (plain_stage ["dir"]) shell_init
                world_init) as [H _]. apply H. left. reflexivity.
  - destruct (builtin_dispatch env_ok (plain_stage ["help"]) shell_init
                world_init) as [_ H]. apply H; [reflexivity | discriminate].
Defined.

(** X16. [cd] goes to its argument, or without argument to [USERPROFILE],
    or to [HOME] when [USERPROFILE] is not set.  When neither is set it
    prints [cd: HOME not set] and does not call [chdir].  A [chdir] that
    fails is reported.  In every case the shell goes on with its registry
    as before. *)
Theorem cd_changes_directory_only (env : Env) (cmd : Command) (sh : Shell)
    (w : World) :
  arg 0 (args cmd) = "cd" ->
  args cmd <> [] ->
  handle_builtin env cmd sh w
  = (Some (Running sh),
     log w match cd_target env (args cmd) with
           | None => [EvErr ("cd: HOME not set" +:+ endl)]
           | Some path =>
               EvChdir path (env_chdir env w path)
               :: (if env_chdir env w path then []
                   else [EvErr ("cd: cannot change directory to "
                                +:+ path +:+ endl)])
           end).
Proof.
  intros Hcd Hne. unfold handle_builtin.
  destruct (args cmd) as [|x a] eqn:E; [contradiction|].
  cbn [vec_empty]. rewrite Hcd. cbn [String.eqb Ascii.eqb Bool.eqb].
  assert (Hgo : forall path,
            bind (chdir env path)
              (fun ok => when (negb ok)
                 (cerr ("cd: cannot change directory to " +:+ path +:+ endl))) w
            = (tt, log w (EvChdir path (env_chdir env w path)
                          :: (if env_chdir env w path then []
                              else [EvErr ("cd: cannot change directory to "
                                           +:+ path +:+ endl)])))).
  { intros path. unfold bind, chdir, when. simpl.
    destruct (env_chdir env w path); simpl; [reflexivity|].
    unfold cerr, emit. rewrite log_log. reflexivity. }
  unfold bind at 1. unfold builtin_cd, cd_target.
  destruct (length (x :: a) <? 2)%nat.
  - destruct (env_getenv env "USERPROFILE") as [p|]; [by rewrite Hgo|].
    destruct (env_getenv env "HOME") as [p|]; [by rewrite Hgo|]. reflexivity.
  - by rewrite Hgo.
Qed.

(** The theorem at [cd src], and at [cd] in a system without [USERPROFILE]
    and [HOME]. *)
Lemma cd_changes_directory_only_witness :
  handle_builtin env_ok (plain_stage ["cd"; "src"]) shell_one_job world_init
  = (Some (Running shell_one_job), log world_init [EvChdir "src" true])
  /\ handle_builtin env_ok (plain_stage ["cd"]) shell_one_job world_init
     = (Some (Running shell_one_job),
        log world_init [EvErr ("cd: HOME not set" +:+ endl)]).
Proof.
  split.
  - apply (cd_changes_directory_only env_ok (plain_stage ["cd"; "src"])
             shell_one_job world_init); [reflexivity | discriminate].
  - apply (cd_changes_directory_only env_ok (plain_stage ["cd"])
             shell_one_job world_init); [reflexivity | discriminate].
Defined.

(** * Further properties of the launchers *)

Ltac solve_appends :=
  first [ apply appends_refl
        | unfold appends; cbn [trace log snd fst]; rewrite <- ?app_assoc;
          reflexivity ].

Ltac unfold_command :=
  unfold execute_command, execute_command_output, execute_command_launch,
    bind, CreateFileA, CreateProcessA, GetLastError, when, cout, cerr,
    WaitForSingleObject, CloseHandle, SetFilePointerEnd, emit, emit_alloc, ret;
  repeat case_match; simplify_eq; cbn [fst snd] in *.

Ltac split_valid :=
  cbn [next_handle] in *;
  repeat match goal with
         | H : negb (valid _) = true |- _ => apply negb_true_iff in H
         | H : negb (valid _) = false |- _ => apply negb_false_iff in H
         end;
  repeat match goal with
         | H : valid ?x = _ |- context [valid ?x] => rewrite H
         end;
  repeat match goal with
         | |- context [valid ?x] => destruct (valid x)
         end.

(** X17. [execute_command] holds no file handle when it returns: on every
    path, also when the output file cannot be opened or the process cannot
    be created, each handle [CreateFileA] gave it has been closed.  It
    creates at most one process, and when it creates none it waits on
    nothing and leaves the registry as it was. *)
Theorem execute_command_releases_files (env : Env) (cmd : Command)
    (sh : Shell) (w : World) :
  exists evs : list Event,
    appends w (snd (execute_command env cmd sh w)) evs
    /\ (forall h, h ∈ opened_handles evs -> h ∈ closed evs)
    /\ (length (launches evs) <= 1)%nat
    /\ (launched evs = [] ->
        fst (execute_command env cmd sh w) = sh /\ waited evs = []).
Proof.
  unfold_command.
  all: eexists; (split; [solve_appends|]).
  all: split; [intros h; cbn [opened_handles closed flat_map app fst snd
                             next_handle];
               split_valid; simpl; try congruence; rewrite ?elem_of_cons;
               try tauto|].
  all: split; [simpl; lia|].
  all: simpl; intros Hl; try discriminate Hl; split; reflexivity.
Qed.

Lemma wrap_int_pred_succ (c : Z) :
  INT_MIN <= c <= INT_MAX -> wrap_int (wrap_int (c + 1) - 1) = c.
Proof.
  unfold wrap_int, INT_MIN, INT_MAX. intros H.
  destruct (Z.eq_dec c (2 ^ 31 - 1)) as [->|Hne]; [reflexivity|].
  rewrite (Z.mod_small (c + 1 + 2 ^ 31)) by lia.
  rewrite Z.mod_small by lia. lia.
Qed.

(** X18. When [execute_command] creates its process, the thread handle is
    closed, and then: in the background the process is registered under the
    value of the counter with the command line as text, that id and the
    process id are printed, nothing is waited on and the process handle
    stays open; in the foreground the shell waits for the process, closes
    its handle and leaves the registry as it was. *)
Theorem execute_command_launched (env : Env) (cmd : Command) (sh : Shell)
    (w : World) :
  INT_MIN <= job_counter sh <= INT_MAX ->
  exists evs : list Event,
    appends w (snd (execute_command env cmd sh w)) evs
    /\ forall h : HANDLE,
         launched evs = [h] ->
         (forall t, t ∈ launched_threads evs -> t ∈ closed evs)
         /\ if background cmd then
              (exists pid : Z,
                 fst (execute_command env cmd sh w)
                 = add_job h pid (build_command_line (args cmd)) sh
                 /\ printed evs = ["[" +:+ show (job_counter sh) +:+ "] "
                                   +:+ show pid +:+ endl])
              /\ waited evs = []
              /\ h ∉ closed evs
            else
              fst (execute_command env cmd sh w) = sh
              /\ waited evs = [h]
              /\ h ∈ closed evs.
Proof.
  intros Hc. pose proof (wrap_int_pred_succ (job_counter sh) Hc) as Hw.
  unfold_command.
  all: eexists; (split; [solve_appends|]).
  all: intros h Hl; simpl in Hl; try discriminate Hl; injection Hl as <-.
  all: split; [intros t; simpl; rewrite ?elem_of_cons; tauto|].
  all: simpl; rewrite ?Hw.
  all: repeat match goal with
              | |- _ /\ _ => split
              | |- exists _, _ => eexists
              end; try reflexivity.
  all: rewrite ?elem_of_cons, ?elem_of_nil; lia.
Qed.

(** The theorem at ["ping host &"] from the start of the shell: the process
    handle 4 is registered as job 1 and stays open, its thread handle 5 is
    closed. *)
Lemma execute_command_launched_witness :
  let r := execute_command env_ok
             (set_background (plain_stage ["ping"; "host"]) true)
             shell_init world_init in
  (exists pid : Z, fst r = add_job 4 pid "ping host" shell_init)
  /\ closed (trace (snd r)) = [5].
Proof.
  split; [|reflexivity].
  destruct (execute_command_launched env_ok
              (set_background (plain_stage ["ping"; "host"]) true)
              shell_init world_init) as (evs & A & H).
  - vm_compute. split; discriminate.
  - assert (E : evs = trace (snd (execute_command env_ok
                  (set_background (plain_stage ["ping"; "host"]) true)
                  shell_init world_init))).
    { unfold appends in A. rewrite A. reflexivity. }
    destruct (H 4) as (_ & (pid & E1 & _) & _); [rewrite E; reflexivity|].
    exists pid. exact E1.
Defined.


(** X19. A single command whose input file cannot be opened: the error is
    printed and the function returns.  The output file is not opened (so
    not created or truncated), no process is created and the registry is as
    before. *)
Theorem execute_command_missing_input (env : Env) (cmd : Command) (sh : Shell)
    (w : World) :
  args cmd <> [] ->
  input_file cmd <> "" ->
  env_create_file env w (input_file cmd) GENERIC_READ OPEN_EXISTING = false ->
  execute_command env cmd sh w
  = (sh, log w [EvCreateFile (input_file cmd) GENERIC_READ OPEN_EXISTING
                  INVALID_HANDLE_VALUE;
                EvErr ("Error: Cannot open input file " +:+ input_file cmd
                       +:+ endl)]).
Proof.
  intros Ha Hi Hf. unfold execute_command.
  destruct (args cmd); [contradiction|]. cbn [vec_empty].
  destruct (input_file cmd) eqn:E; [contradiction|]. cbn [string_empty negb].
  unfold bind, CreateFileA. rewrite Hf. simpl.
  unfold cerr, emit. rewrite log_log. reflexivity.
Qed.

(** The theorem at ["sort < missing.txt > out.txt"] where no file can be
    opened. *)
Lemma execute_command_missing_input_witness :
  opened_files
    (trace (snd (execute_pipeline env_no_files
                   (parse_input "sort < missing.txt > out.txt")
                   shell_init world_init)))
  = ["missing.txt"].
Proof.
  change (execute_pipeline env_no_files
            (parse_input "sort < missing.txt > out.txt") shell_init world_init)
    with (bind (execute_command env_no_files
                  {| args := ["sort"]; input_file := "missing.txt";
                     output_file := "out.txt"; append_output := false;
                     background := false |} shell_init)
            (fun sh => ret (Running sh)) world_init).
  unfold bind.
  rewrite (execute_command_missing_input env_no_files
             {| args := ["sort"]; input_file := "missing.txt";
                output_file := "out.txt"; append_output := false;
                background := false |} shell_init world_init);
    [reflexivity | discriminate | discriminate | reflexivity].
Defined.


(** * Further properties of the pipeline *)

Lemma launched_threads_app (l1 l2 : list Event) :
  launched_threads (l1 ++ l2) = launched_threads l1 ++ launched_threads l2.
Proof. apply flat_map_app. Qed.

Lemma file_events_no_thread (evs : list Event) :
  forallb is_file_event evs = true -> launched_threads evs = [].
Proof.
  induction evs as [|e evs IH]; simpl; [reflexivity|].
  intros H. apply andb_true_iff in H as [He H].
  destruct e; try discriminate He; simpl; auto.
Qed.

(** The handles the launch loop closes are the thread handles of the
    processes it launched. *)
Lemma launch_stages_closes (env : Env) (n : nat) (rs ws : list HANDLE)
    (rest : list Command) :
  forall (i : nat) (hp : list HANDLE) (w : World),
    exists evs : list Event,
      appends w (snd (launch_stages env n rs ws i rest hp w)) evs
      /\ fst (launch_stages env n rs ws i rest hp w) = hp ++ launched evs
      /\ closed evs = launched_threads evs
      /\ created_pipes evs = [].
Proof.
  induction rest as [|cmd rest IH]; intros i hp w.
  - exists []. simpl. rewrite app_nil_r. repeat split. apply appends_refl.
  - cbn [launch_stages]. unfold bind.
    destruct (setup_stdin_spec env i cmd rs w) as (e1 & A1 & F1 & _).
    destruct (setup_stdin env i cmd rs w) as [hin w1]. simpl in A1.
    destruct (setup_stdout_spec env n i cmd ws w1) as (e2 & A2 & F2 & _).
    destruct (setup_stdout env n i cmd ws w1) as [hout w2]. simpl in A2.
    destruct (file_events_silent e1 F1) as (_ & S12 & _ & S14 & S15 & _).
    destruct (file_events_silent e2 F2) as (_ & S22 & _ & S24 & S25 & _).
    pose proof (file_events_no_thread e1 F1) as S17.
    pose proof (file_events_no_thread e2 F2) as S27.
    unfold CreateProcessA.
    destruct (env_create_process env w2 _ _).
    + cbn [fst snd CloseHandle emit].
      match goal with
      | |- context [launch_stages env n rs ws (S i) rest ?h ?x] =>
          destruct (IH (S i) h x) as (e3 & A3 & R3 & C3 & P3);
          destruct (launch_stages env n rs ws (S i) rest h x) as [hp' w3]
      end.
      simpl in A3, R3.
      eexists (e1 ++ e2 ++ [_; _] ++ e3).
      split.
      { unfold appends in *. cbn [snd]. rewrite A3. cbn [trace log].
        rewrite A2, A1. rewrite <- !app_assoc. reflexivity. }
      rewrite !launched_app, !closed_app, !launched_threads_app,
        !created_pipes_app.
      rewrite S12, S14, S15, S17, S22, S24, S25, S27, C3, P3.
      split; [|split; reflexivity].
      rewrite R3. simpl. rewrite <- app_assoc. reflexivity.
    + cbn [fst snd cerr emit].
      match goal with
      | |- context [launch_stages env n rs ws (S i) rest ?h ?x] =>
          destruct (IH (S i) h x) as (e3 & A3 & R3 & C3 & P3);
          destruct (launch_stages env n rs ws (S i) rest h x) as [hp' w3]
      end.
      simpl in A3, R3.
      eexists (e1 ++ e2 ++ [_; _] ++ e3).
      split.
      { unfold appends in *. cbn [snd]. rewrite A3. cbn [trace log].
        rewrite A2, A1. rewrite <- !app_assoc. reflexivity. }
      rewrite !launched_app, !closed_app, !launched_threads_app,
        !created_pipes_app.
      rewrite S12, S14, S15, S17, S22, S24, S25, S27, C3, P3.
      split; [|split; reflexivity].
      rewrite R3. reflexivity.
Qed.

Lemma launched_threads_closes (hs : list HANDLE) :
  launched_threads (map EvCloseHandle hs) = [].
Proof. unfold launched_threads. apply flat_map_map_nil. reflexivity. Qed.

Lemma finish_spec_closes (cmds : list Command) (sh sh' : Shell)
    (hp : list HANDLE) (fin : list Event) :
  finish_spec cmds sh hp sh' fin ->
  closed fin = (if background (back cmds) then tail hp else hp)
  /\ launched_threads fin = [].
Proof.
  unfold finish_spec. destruct (background (back cmds)).
  - destruct hp as [|h0 hs].
    + intros [_ ->]. auto.
    + intros (pid & _ & ->).
      rewrite closed_app, launched_threads_app, closed_closes,
        launched_threads_closes.
      split; reflexivity.
  - intros [_ ->].
    rewrite closed_app, launched_threads_app, closed_closes,
      launched_threads_closes.
    destruct hp; split; reflexivity.
Qed.

(** X20. The [CloseHandle] calls of a pipeline that got all its pipes are,
    in this order: the thread handle of each process launched, the read
    end of each pipe, the write end of each pipe, and then the handles of
    the processes launched (in the background: of all but the first, which
    is the job).  No other handle is closed: in particular there is no call
    for the redirection files that [execute_pipeline] opens. *)
Theorem pipeline_close_calls (env : Env) (cmds : list Command) (sh : Shell)
    (w : World) :
  (2 <= length cmds)%nat ->
  exists evs : list Event,
    appends w (snd (execute_pipeline env cmds sh w)) evs
    /\ (length (created_pipes evs) = (length cmds - 1)%nat ->
        closed evs
        = launched_threads evs
          ++ (created_pipes evs).*1 ++ (created_pipes evs).*2
          ++ (if background (back cmds) then tail (launched evs)
              else launched evs)).
Proof.
  intros Hlen. rewrite (execute_pipeline_multi env cmds sh Hlen).
  unfold bind.
  destruct (create_pipes_spec env (length cmds - 1) [] [] w) as [ps Hps].
  destruct (create_pipes env (length cmds - 1) [] [] w) as [[[rs ws]|] w1].
  - destruct Hps as (-> & -> & Hn & A1). simpl.
    destruct (launch_stages_closes env (length cmds) ps.*1 ps.*2 cmds 0 [] w1)
      as (evs & A2 & R2 & C2 & P2).
    destruct (launch_stages env (length cmds) ps.*1 ps.*2 0 cmds [] w1)
      as [hp w2].
    simpl in A2, R2. subst hp.
    cbv beta iota zeta. rewrite close_all_spec.
    cbv beta iota zeta. rewrite close_all_spec. cbv beta iota zeta.
    match goal with
    | |- context [execute_pipeline_finish cmds sh ?h ?x] =>
        destruct (execute_pipeline_finish_spec cmds sh h x) as (fin & F & A3);
        destruct (execute_pipeline_finish cmds sh h x) as [sh' w3]
    end.
    simpl in F, A3.
    exists (pipe_events ps ++ evs ++ map EvCloseHandle ps.*1
            ++ map EvCloseHandle ps.*2 ++ fin).
    split.
    + unfold appends, ret in *. cbn [snd]. rewrite A3. simpl.
      rewrite A2, A1.
      unfold pipe_events. rewrite <- !app_assoc. reflexivity.
    + intros _.
      destruct (finish_spec_closes _ _ _ _ _ F) as (F1 & F2).
      destruct (finish_spec_events _ _ _ _ _ F) as (_ & F3 & F4 & _).
      destruct (launches_pipe_events ps) as (_ & E2 & _ & E4).
      destruct (launches_closes ps.*1) as (_ & C12 & _ & C14).
      destruct (launches_closes ps.*2) as (_ & D12 & _ & D14).
      assert (T1 : launched_threads (pipe_events ps) = []).
      { unfold launched_threads, pipe_events.
        apply flat_map_map_nil. reflexivity. }
      assert (T2 : forall hs, launched_threads (map EvCloseHandle hs) = []).
      { intros hs. unfold launched_threads.
        apply flat_map_map_nil. reflexivity. }
      rewrite !closed_app, !launched_threads_app, !created_pipes_app,
        !launched_app.
      rewrite E2, E4, C12, C14, D12, D14, T1, !T2, F1, F2, F3, F4, C2, P2,
        !closed_closes.
      unfold pipe_events. rewrite created_pipes_pipes.
      simpl. rewrite !app_nil_r. reflexivity.
  - destruct Hps as (Hlt & _ & A1). simpl.
    eexists. split; [exact A1|]. intros Hall. exfalso.
    rewrite created_pipes_app in Hall. simpl in Hall.
    rewrite app_nil_r in Hall.
    change (map (fun p => EvCreatePipe (Some p)) ps) with (pipe_events ps)
      in Hall.
    unfold pipe_events in Hall. rewrite created_pipes_pipes in Hall. lia.
Qed.

(** The theorem at ["type a.txt | sort > out.txt"]: the file handle 8 of
    [out.txt] is not among the handles closed. *)
Lemma pipeline_close_calls_witness :
  exists evs : list Event,
    appends world_init
      (snd (execute_pipeline env_ok (parse_input "type a.txt | sort > out.txt")
              shell_init world_init)) evs
    /\ opened_handles evs = [8]
    /\ closed evs = [7; 10] ++ [4] ++ [5] ++ [6; 9].
Proof.
  destruct (pipeline_close_calls env_ok
              (parse_input "type a.txt | sort > out.txt") shell_init world_init)
    as (evs & A & H); [vm_compute; lia|].
  assert (E : evs = trace (snd (execute_pipeline env_ok
                (parse_input "type a.txt | sort > out.txt")
                shell_init world_init))).
  { unfold appends in A. rewrite A. reflexivity. }
  exists evs. split; [exact A|]. split; [rewrite E; reflexivity|].
  rewrite H; [|rewrite E; reflexivity]. rewrite E. reflexivity.
Defined.

(** X21. A pipeline whose last stage has the background flag is not waited
    on.  When at least one stage was launched, the first process launched,
    and only this one, is registered as a job under the value of the
    counter, with the command lines of all stages joined by [" | "] as
    text; when none was launched, or no pipe could be created, the registry
    is as before. *)
Theorem pipeline_background_job (env : Env) (cmds : list Command) (sh : Shell)
    (w : World) :
  (2 <= length cmds)%nat ->
  background (back cmds) = true ->
  exists (evs : list Event) (sh' : Shell),
    appends w (snd (execute_pipeline env cmds sh w)) evs
    /\ fst (execute_pipeline env cmds sh w) = Running sh'
    /\ waited evs = []
    /\ match launched evs with
       | [] => sh' = sh
       | h0 :: _ =>
           exists pid : Z,
             sh' = add_job h0 pid
                     (String.concat " | "
                        (map (fun c => build_command_line (args c)) cmds)) sh
       end.
Proof.
  intros Hlen Hbg.
  destruct (execute_pipeline_run env cmds sh w Hlen)
    as [ps w' Hlt _ A | ps evs fin sh' w' Hn L G T P O N F A].
  - eexists. exists sh. split; [exact A|]. split; [reflexivity|].
    destruct (launches_pipe_events ps) as (_ & E2 & E3 & _).
    rewrite waited_app, launched_app, E2, E3. simpl. auto.
  - eexists. exists sh'. split; [exact A|]. split; [reflexivity|].
    destruct (finish_spec_events _ _ _ _ _ F) as (_ & F2 & _ & F4).
    rewrite Hbg in F4.
    destruct (launches_pipe_events ps) as (_ & E2 & E3 & _).
    destruct (launches_closes ps.*1) as (_ & C2 & C3 & _).
    destruct (launches_closes ps.*2) as (_ & D2 & D3 & _).
    rewrite !waited_app, !launched_app, E2, E3, C2, C3, D2, D3, T, F2, F4.
    simpl. rewrite !app_nil_r. split; [reflexivity|].
    unfold finish_spec in F. rewrite Hbg in F.
    destruct (launched evs) as [|h0 hs]; [tauto|].
    destruct F as (pid & -> & _). exists pid.
    rewrite (pipeline_text_acc cmds ""). reflexivity.
Qed.

(** The theorem at ["ping a | sort &"]: the process of [ping a], of handle
    6, becomes the job 1 with the text ["ping a | sort"]. *)
Lemma pipeline_background_job_witness :
  exists pid : Z,
    fst (execute_pipeline env_ok (parse_input "ping a | sort &")
           shell_init world_init)
    = Running (add_job 6 pid "ping a | sort" shell_init).
Proof.
  destruct (pipeline_background_job env_ok (parse_input "ping a | sort &")
              shell_init world_init) as (evs & sh' & A & R & _ & H);
    [vm_compute; lia | reflexivity |].
  assert (E : evs = trace (snd (execute_pipeline env_ok
                (parse_input "ping a | sort &") shell_init world_init))).
  { unfold appends in A. rewrite A. reflexivity. }
  rewrite E in H. change (launched _) with [6; 8] in H.
  destruct H as [pid ->]. exists pid. exact R.
Defined.

(** X22. A line of two stages or more never ends the shell and never runs a
    builtin: [execute_pipeline] returns with the shell running, and when
    the pipes can be created every stage is handed to [CreateProcessA] with
    its own command line, in order, also a stage named [exit], [cd] or
    [jobs]; each stage is either launched or reported. *)
Theorem pipeline_never_runs_builtin (env : Env) (cmds : list Command)
    (sh : Shell) (w : World) :
  (2 <= length cmds)%nat ->
  (exists sh', fst (execute_pipeline env cmds sh w) = Running sh'
               /\ running sh' = running sh)
  /\ ((forall w0, env_create_pipe env w0 = true) ->
      exists evs : list Event,
        appends w (snd (execute_pipeline env cmds sh w)) evs
        /\ map fst (launches evs)
           = map (fun c => build_command_line (args c)) cmds
        /\ (length (errors evs) + length (launched evs))%nat = length cmds).
Proof.
  intros Hlen.
  destruct (execute_pipeline_run env cmds sh w Hlen)
    as [ps w' Hlt [w0 Hw0] A | ps evs fin sh' w' Hn L G T P O N F A].
  - split; [exists sh; auto|].
    intros Hok. rewrite Hok in Hw0. discriminate.
  - split.
    + exists sh'. split; [reflexivity|].
      unfold finish_spec in F. destruct (background (back cmds)).
      * destruct (launched evs); [by destruct F as [-> _]|].
        destruct F as (pid & -> & _). reflexivity.
      * by destruct F as [-> _].
    + intros _. eexists. split; [exact A|].
      destruct (finish_spec_events _ _ _ _ _ F) as (F1 & F2 & _).
      destruct (quiet_finish _ _ _ _ _ F) as (_ & F6).
      destruct (launches_pipe_events ps) as (E1 & E2 & _).
      destruct (quiet_pipe_events ps) as (_ & E6).
      destruct (launches_closes ps.*1) as (C1 & C2 & _).
      destruct (quiet_closes ps.*1) as (_ & C6).
      destruct (launches_closes ps.*2) as (D1 & D2 & _).
      destruct (quiet_closes ps.*2) as (_ & D6).
      rewrite !launches_app, !launched_app, !errors_app.
      rewrite E1, E2, E6, C1, C2, C6, D1, D2, D6, F1, F2, F6.
      simpl. rewrite !app_nil_r. auto.
Qed.

(** The theorem at ["exit 3 | sort"]: the shell goes on, and [exit 3] is
    handed to the system as a command. *)
Lemma pipeline_never_runs_builtin_witness :
  fst (execute_pipeline env_ok (parse_input "exit 3 | sort") shell_init
         world_init) = Running shell_init
  /\ exists evs : list Event,
       appends world_init
         (snd (execute_pipeline env_ok (parse_input "exit 3 | sort")
                 shell_init world_init)) evs
       /\ map fst (launches evs) = ["exit 3"; "sort"].
Proof.
  split; [reflexivity|].
  destruct (pipeline_never_runs_builtin env_ok (parse_input "exit 3 | sort")
              shell_init world_init) as [_ H]; [vm_compute; lia|].
  destruct H as (evs & A & L & _); [reflexivity|].
  exists evs. split; [exact A | exact L].
Defined.

Lemma stage_files_later (n : nat) (rest : list Command) (i : nat) :
  (0 < i)%nat -> (i + length rest)%nat = n ->
  stage_files n i rest
  = match rest with
    | [] => []
    | _ => if negb (string_empty (output_file (back rest)))
           then [output_file (back rest)] else []
    end.
Proof.
  revert i. induction rest as [|c rest IH]; intros i Hi Hn; [reflexivity|].
  cbn [stage_files].
  replace (i =? 0)%nat with false by (symmetry; apply Nat.eqb_neq; lia).
  cbn [andb app].
  destruct rest as [|c' rest].
  - replace (i =? n - 1)%nat with true
      by (symmetry; apply Nat.eqb_eq; simpl in Hn; lia).
    cbn [andb stage_files]. rewrite app_nil_r. reflexivity.
  - replace (i =? n - 1)%nat with false
      by (symmetry; apply Nat.eqb_neq; simpl in Hn; lia).
    cbn [andb app]. rewrite (IH (S i)) by (simpl in *; lia).
    reflexivity.
Qed.

Lemma stage_files_outer (cmds : list Command) :
  (2 <= length cmds)%nat ->
  stage_files (length cmds) 0 cmds
  = (if negb (string_empty (input_file (hd Command0 cmds)))
     then [input_file (hd Command0 cmds)] else [])
    ++ (if negb (string_empty (output_file (back cmds)))
        then [output_file (back cmds)] else []).
Proof.
  destruct cmds as [|c [|c' rest]]; simpl length; try lia. intros _.
  change (stage_files (S (S (length rest))) 0 (c :: c' :: rest))
    with ((if negb (string_empty (input_file c)) then [input_file c] else [])
          ++ stage_files (S (S (length rest))) 1 (c' :: rest)).
  rewrite (stage_files_later (S (S (length rest))) (c' :: rest) 1)
    by (simpl; lia).
  reflexivity.
Qed.

(** X23. The only files a pipeline opens are the input file of its first
    stage and the output file of its last stage, in this order and each
    when it is set; a file named after [<] in a later stage, or after [>]
    or [>>] in a stage before the last, is never opened. *)
Theorem pipeline_opens_outer_files (env : Env) (cmds : list Command)
    (sh : Shell) (w : World) :
  (2 <= length cmds)%nat ->
  exists evs : list Event,
    appends w (snd (execute_pipeline env cmds sh w)) evs
    /\ (length (created_pipes evs) = (length cmds - 1)%nat ->
        opened_files evs
        = (if negb (string_empty (input_file (hd Command0 cmds)))
           then [input_file (hd Command0 cmds)] else [])
          ++ (if negb (string_empty (output_file (back cmds)))
              then [output_file (back cmds)] else [])).
Proof.
  intros Hlen.
  destruct (execute_pipeline_run env cmds sh w Hlen)
    as [ps w' Hlt _ A | ps evs fin sh' w' Hn L G T P O N F A].
  - eexists. split; [exact A|].
    rewrite created_pipes_app. unfold pipe_events at 1.
    rewrite created_pipes_pipes. simpl. rewrite app_nil_r. lia.
  - eexists. split; [exact A|]. intros _.
    destruct (quiet_finish _ _ _ _ _ F) as (F5 & _).
    destruct (quiet_pipe_events ps) as (E5 & _).
    destruct (quiet_closes ps.*1) as (C5 & _).
    destruct (quiet_closes ps.*2) as (D5 & _).
    rewrite !opened_files_app, E5, C5, D5, F5, O. simpl.
    rewrite !app_nil_r. apply stage_files_outer, Hlen.
Qed.

(** The theorem at ["a < in | b > mid < mid2 | c > out"]. *)
Lemma pipeline_opens_outer_files_witness :
  exists evs : list Event,
    appends world_init
      (snd (execute_pipeline env_ok
              (parse_input "a < in | b > mid < mid2 | c > out")
              shell_init world_init)) evs
    /\ opened_files evs = ["in"; "out"].
Proof.
  destruct (pipeline_opens_outer_files env_ok
              (parse_input "a < in | b > mid < mid2 | c > out")
              shell_init world_init) as (evs & A & H); [vm_compute; lia|].
  exists evs. split; [exact A|].
  assert (E : evs = trace (snd (execute_pipeline env_ok
                (parse_input "a < in | b > mid < mid2 | c > out")
                shell_init world_init))).
  { unfold appends in A. rewrite A. reflexivity. }
  rewrite H; [reflexivity|]. rewrite E. reflexivity.
Defined.

Lemma skipped_all_space (input : string) :
  skipped input = true -> all_space input = true.
Proof.
  unfold skipped. destruct input as [|c s]; [reflexivity|].
  cbn [string_empty orb]. generalize 0%nat.
  generalize (String c s). clear c s.
  induction s as [|c s IH]; intros n; [reflexivity|].
  cbn [find_first_not_of list_ascii_of_string existsb all_space].
  destruct (Ascii.eqb_spec c " ") as [->|_].
  { cbn [orb]. intros H. rewrite (IH _ H). reflexivity. }
  destruct (Ascii.eqb_spec c "009") as [->|_].
  { cbn [orb]. intros H. rewrite (IH _ H). reflexivity. }
  destruct (Ascii.eqb_spec c "010") as [->|_].
  { cbn [orb]. intros H. rewrite (IH _ H). reflexivity. }
  cbn [orb]. discriminate.
Qed.

Lemma remove_jobs_running (ids : list Z) (sh : Shell) :
  running (fold_left (fun s job_id => remove_job job_id s) ids sh)
  = running sh.
Proof.
  revert sh. induction ids as [|k ids IH]; intros sh; simpl; [done|].
  by rewrite IH.
Qed.

Lemma check_background_jobs_running (env : Env) (sh : Shell) (w : World) :
  running (fst (check_background_jobs env sh w)) = running sh.
Proof.
  unfold check_background_jobs, bind.
  destruct (poll_jobs env (in_order (jobs sh)) [] w). simpl.
  apply remove_jobs_running.
Qed.

Lemma builtin_fg_running (a : list string) (sh : Shell) (w : World) :
  running (fst (builtin_fg a sh w)) = running sh.
Proof.
  unfold builtin_fg, bind. repeat case_match; simpl; reflexivity.
Qed.

Lemma builtin_kill_running (env : Env) (a : list string) (sh : Shell)
    (w : World) :
  running (fst (builtin_kill env a sh w)) = running sh.
Proof.
  unfold builtin_kill, bind, TerminateProcess.
  repeat case_match; simpl; reflexivity.
Qed.

Lemma builtin_jobs_running (env : Env) (sh : Shell) (w : World) :
  running (fst (builtin_jobs env sh w)) = running sh.
Proof.
  unfold builtin_jobs, bind.
  pose proof (check_background_jobs_running env sh w) as H.
  destruct (check_background_jobs env sh w) as [sh1 w1]. simpl in H.
  repeat case_match; simpl; auto.
Qed.

Lemma execute_command_running (env : Env) (cmd : Command) (sh : Shell)
    (w : World) :
  running (fst (execute_command env cmd sh w)) = running sh.
Proof.
  unfold execute_command, execute_command_output, execute_command_launch,
    bind, CreateFileA, CreateProcessA, when.
  repeat case_match; simpl; reflexivity.
Qed.

Lemma handle_builtin_running (env : Env) (cmd : Command) (sh : Shell)
    (w : World) :
  forall sh' : Shell,
    fst (handle_builtin env cmd sh w) = Some (Running sh') ->
    running sh' = running sh.
Proof.
  intros sh'. unfold handle_builtin.
  destruct (vec_empty (args cmd)); [discriminate|].
  destruct (arg 0 (args cmd) =? "cd")%string.
  { unfold bind. destruct (builtin_cd env (args cmd) w). simpl.
    intros [= <-]. reflexivity. }
  destruct (arg 0 (args cmd) =? "exit")%string.
  { unfold bind. pose proof (builtin_exit_running (args cmd) sh w) as H.
    destruct (builtin_exit (args cmd) sh w) as [o w1]. simpl in *.
    intros [= ->]. rewrite (H sh' eq_refl). reflexivity. }
  destruct (arg 0 (args cmd) =? "jobs")%string.
  { unfold bind. pose proof (builtin_jobs_running env sh w) as H.
    destruct (builtin_jobs env sh w). simpl in *. intros [= <-]. exact H. }
  destruct (arg 0 (args cmd) =? "fg")%string.
  { unfold bind. pose proof (builtin_fg_running (args cmd) sh w) as H.
    destruct (builtin_fg (args cmd) sh w). simpl in *. intros [= <-]. exact H. }
  destruct (arg 0 (args cmd) =? "kill")%string.
  { unfold bind. pose proof (builtin_kill_running env (args cmd) sh w) as H.
    destruct (builtin_kill env (args cmd) sh w). simpl in *.
    intros [= <-]. exact H. }
  destruct (arg 0 (args cmd) =? "help")%string.
  { simpl. intros [= <-]. reflexivity. }
  destruct ((arg 0 (args cmd) =? "cls")%string
            || (arg 0 (args cmd) =? "clear")%string).
  { simpl. intros [= <-]. reflexivity. }
  discriminate.
Qed.

Lemma execute_pipeline_finish_running (cmds : list Command) (sh : Shell)
    (hProcesses : list HANDLE) (w : World) :
  running (fst (execute_pipeline_finish cmds sh hProcesses w)) = running sh.
Proof.
  unfold execute_pipeline_finish, bind, GetProcessId.
  destruct (background (back cmds)).
  - destruct hProcesses as [|h0 hs]; simpl.
    + reflexivity.
    + destruct (close_all hs _). simpl. reflexivity.
  - destruct (when _ _ w). destruct (close_all hProcesses _). simpl.
    reflexivity.
Qed.

Lemma execute_pipeline_running (env : Env) (cmds : list Command) (sh : Shell)
    (w : World) :
  forall sh' : Shell,
    fst (execute_pipeline env cmds sh w) = Running sh' ->
    running sh' = running sh.
Proof.
  intros sh'. unfold execute_pipeline.
  destruct cmds as [|cmd [|cmd2 rest]].
  - simpl. intros [= <-]. reflexivity.
  - unfold bind. pose proof (handle_builtin_running env cmd sh w) as H.
    destruct (handle_builtin env cmd sh w) as [[o|] w1]; simpl in *.
    + intros ->. auto.
    + pose proof (execute_command_running env cmd sh w1) as H1.
      destruct (execute_command env cmd sh w1). simpl in *.
      intros [= <-]. exact H1.
  - unfold bind.
    destruct (create_pipes env _ [] [] w) as [[[rs ws]|] w1];
      cbv beta iota zeta.
    + match goal with
      | |- context [launch_stages ?e ?n ?r ?s ?i ?c ?h ?x] =>
          destruct (launch_stages e n r s i c h x) as [hp w2]
      end.
      destruct (close_all rs w2) as [[] w3].
      destruct (close_all ws w3) as [[] w4].
      pose proof (execute_pipeline_finish_running (cmd :: cmd2 :: rest) sh hp w4)
        as H.
      destruct (execute_pipeline_finish _ sh hp w4). simpl in *.
      intros [= <-]. exact H.
    + intros [= <-]. reflexivity.
Qed.

(** The outcome of a line, from its [exit_code]. *)
Lemma execute_pipeline_exit_code (env : Env) (input : string) (sh : Shell)
    (w : World) :
  match exit_code input with
  | Some code => fst (execute_pipeline env (parse_input input) sh w) = Exited code
  | None =>
      exists sh', fst (execute_pipeline env (parse_input input) sh w)
                  = Running sh'
  end.
Proof.
  unfold exit_code.
  destruct (parse_input input) as [|cmd [|cmd2 rest]] eqn:P.
  - exists sh. reflexivity.
  - unfold execute_pipeline, handle_builtin, bind.
    destruct (vec_empty (args cmd)) eqn:V.
    { destruct (args cmd); [|discriminate]. simpl.
      destruct (execute_command env cmd sh w). eauto. }
    destruct (arg 0 (args cmd) =? "exit")%string eqn:E.
    + apply String.eqb_eq in E. rewrite E. simpl.
      unfold builtin_exit, bind.
      destruct (1 <? length (args cmd))%nat.
      * destruct (stoi (arg 1 (args cmd))).
        -- destruct (close_jobs _ w). reflexivity.
        -- simpl. eauto.
      * destruct (close_jobs _ w). reflexivity.
    + destruct (arg 0 (args cmd) =? "cd")%string.
      { destruct (builtin_cd env (args cmd) w). simpl. eauto. }
      destruct (arg 0 (args cmd) =? "jobs")%string.
      { destruct (builtin_jobs env sh w). simpl. eauto. }
      destruct (arg 0 (args cmd) =? "fg")%string.
      { destruct (builtin_fg (args cmd) sh w). simpl. eauto. }
      destruct (arg 0 (args cmd) =? "kill")%string.
      { destruct (builtin_kill env (args cmd) sh w). simpl. eauto. }
      destruct (arg 0 (args cmd) =? "help")%string.
      { simpl. eauto. }
      destruct ((arg 0 (args cmd) =? "cls")%string
                || (arg 0 (args cmd) =? "clear")%string).
      { simpl. eauto. }
      simpl. destruct (execute_command env cmd sh w). simpl. eauto.
  - assert (Hlen : (2 <= length (cmd :: cmd2 :: rest))%nat) by (simpl; lia).
    destruct (execute_pipeline_run env _ sh w Hlen); eauto.
Qed.

Lemma exit_code_not_skipped (input : string) (code : Z) :
  exit_code input = Some code -> skipped input = false.
Proof.
  intros H. destruct (skipped input) eqn:S; [|reflexivity].
  apply skipped_all_space in S. unfold exit_code, parse_input, tokenize in H.
  rewrite (read_tokens_all_space input S) in H. discriminate.
Qed.

Lemma WindowsShell_shell (w : World) : fst (WindowsShell w) = shell_init.
Proof. reflexivity. Qed.

(** [run] up to a line that ends the shell. *)
Lemma run_exit (env : Env) (getcwd : World -> option string)
    (pre : list string) (line : string) (post : list string) (code : Z) :
  Forall (fun l => exit_code l = None) pre ->
  exit_code line = Some code ->
  forall (sh : Shell) (w : World),
    running sh = true ->
    fst (run env getcwd (pre ++ line :: post) sh w) = (Exited code, post).
Proof.
  intros Hpre Hline. induction Hpre as [|l pre Hl _ IH]; intros sh w Hrun.
  - cbn [app run]. rewrite Hrun. unfold bind.
    destruct (check_background_jobs env sh w) as [sh1 w1].
    destruct (display_prompt getcwd w1) as [[] w2].
    rewrite (exit_code_not_skipped line code Hline).
    pose proof (execute_pipeline_exit_code env line sh1 w2) as H.
    rewrite Hline in H.
    destruct (execute_pipeline env (parse_input line) sh1 w2) as [o w3].
    simpl in H. subst o. reflexivity.
  - cbn [app run]. rewrite Hrun. unfold bind.
    pose proof (check_background_jobs_running env sh w) as R1.
    destruct (check_background_jobs env sh w) as [sh1 w1]. simpl in R1.
    destruct (display_prompt getcwd w1) as [[] w2].
    destruct (skipped l).
    + apply IH. congruence.
    + pose proof (execute_pipeline_exit_code env l sh1 w2) as H.
      rewrite Hl in H. destruct H as [sh2 H].
      pose proof (execute_pipeline_running env (parse_input l) sh1 w2 sh2 H)
        as R2.
      destruct (execute_pipeline env (parse_input l) sh1 w2) as [o w3].
      simpl in H. subst o. apply IH. congruence.
Qed.

(** [run] on lines none of which ends the shell. *)
Lemma run_end (env : Env) (getcwd : World -> option string)
    (lines : list string) :
  Forall (fun l => exit_code l = None) lines ->
  forall (sh : Shell) (w : World),
    running sh = true ->
    exists (sh' : Shell) (w' : World),
      run env getcwd lines sh w
      = ((Running sh', []), log w' [EvOut (endl +:+ "exit" +:+ endl)])
      /\ running sh' = true.
Proof.
  intros Hall. induction Hall as [|l lines Hl _ IH]; intros sh w Hrun.
  - cbn [run]. rewrite Hrun. unfold bind.
    pose proof (check_background_jobs_running env sh w) as R1.
    destruct (check_background_jobs env sh w) as [sh1 w1]. simpl in R1.
    destruct (display_prompt getcwd w1) as [[] w2].
    exists sh1, w2. split; [reflexivity | congruence].
  - cbn [run]. rewrite Hrun. unfold bind.
    pose proof (check_background_jobs_running env sh w) as R1.
    destruct (check_background_jobs env sh w) as [sh1 w1]. simpl in R1.
    destruct (display_prompt getcwd w1) as [[] w2].
    destruct (skipped l).
    + apply IH. congruence.
    + pose proof (execute_pipeline_exit_code env l sh1 w2) as H.
      rewrite Hl in H. destruct H as [sh2 H].
      pose proof (execute_pipeline_running env (parse_input l) sh1 w2 sh2 H)
        as R2.
      destruct (execute_pipeline env (parse_input l) sh1 w2) as [o w3].
      simpl in H. subst o. apply IH. congruence.
Qed.

(** X24. The shell ends at the first line that parses to the single stage
    [exit] with no argument or with an argument [stoi] reads: the status of
    the process is 0 or the value read, the lines before it have been run
    whatever they are (also an [exit] with an argument [stoi] does not
    read, or an [exit] stage inside a pipeline), and the lines after it are
    not read. *)
Theorem main_exit_status (env : Env) (getcwd : World -> option string)
    (pre : list string) (line : string) (post : list string) (code : Z)
    (w : World) :
  Forall (fun l => exit_code l = None) pre ->
  exit_code line = Some code ->
  fst (main env getcwd (pre ++ line :: post) w) = (code, post).
Proof.
  intros Hpre Hline. unfold main, bind.
  destruct (WindowsShell w) as [sh0 w0] eqn:E.
  assert (R : running sh0 = true).
  { pose proof (WindowsShell_shell w) as H. rewrite E in H. simpl in H.
    subst sh0. reflexivity. }
  pose proof (run_exit env getcwd pre line post code Hpre Hline sh0 w0 R) as H.
  destruct (run env getcwd (pre ++ line :: post) sh0 w0) as [[o rest] w1].
  simpl in H. inversion H. subst. reflexivity.
Qed.

(** The theorem at the lines [exit x], [dir | exit], [exit 3], [dir]: the
    status is 3 and [dir] is not read. *)
Lemma main_exit_status_witness :
  fst (main env_ok (fun _ => None) ["exit x"; "dir | exit"; "exit 3"; "dir"]
         world_init) = (3, ["dir"]).
Proof.
  apply (main_exit_status env_ok (fun _ => None) ["exit x"; "dir | exit"]
           "exit 3" ["dir"] 3 world_init).
  - repeat constructor.
  - reflexivity.
Defined.

(** X25. When no line ends the shell, every line is read, [run] prints the
    text [exit] on a line of its own at the end of the input and leaves the
    loop with the shell still marked as running; the destructor then closes
    the handle of every job that is still registered, and nothing else
    happens; the status of the process is 0. *)
Theorem main_end_of_input (env : Env) (getcwd : World -> option string)
    (lines : list string) (w : World) :
  Forall (fun l => exit_code l = None) lines ->
  exists (sh' : Shell) (w' : World),
    run env getcwd lines shell_init (snd (WindowsShell w))
    = ((Running sh', []), log w' [EvOut (endl +:+ "exit" +:+ endl)])
    /\ running sh' = true
    /\ main env getcwd lines w
       = ((0, []),
          log w' (EvOut (endl +:+ "exit" +:+ endl)
                  :: map EvCloseHandle (tracked_handles sh'))).
Proof.
  intros Hall.
  destruct (run_end env getcwd lines Hall shell_init (snd (WindowsShell w))
              eq_refl) as (sh' & w' & H & R).
  exists sh', w'. split; [exact H|]. split; [exact R|].
  unfold main, bind.
  destruct (WindowsShell w) as [sh0 w0] eqn:E.
  assert (S0 : sh0 = shell_init).
  { pose proof (WindowsShell_shell w) as H0. rewrite E in H0. exact H0. }
  subst sh0. simpl in H. rewrite H.
  unfold WindowsShell_destroy. rewrite close_jobs_spec.
  unfold tracked_handles. rewrite log_log. reflexivity.
Qed.

(** The theorem at the lines [ping a &], [exit x]: the status is 0, and
    the handle 4 of the job is closed at the end. *)
Lemma main_end_of_input_witness :
  exists tr : list Event,
    fst (main env_ok (fun _ => None) ["ping a &"; "exit x"] world_init)
    = (0, [])
    /\ trace (snd (main env_ok (fun _ => None) ["ping a &"; "exit x"]
                     world_init))
       = tr ++ [EvOut (endl +:+ "exit" +:+ endl); EvCloseHandle 4].
Proof.
  destruct (main_end_of_input env_ok (fun _ => None) ["ping a &"; "exit x"]
              world_init) as (sh' & w' & H & _ & M).
  { repeat constructor. }
  exists (trace w'). rewrite M. split; [reflexivity|].
  assert (S : sh' = match fst (run env_ok (fun _ => None)
                                 ["ping a &"; "exit x"] shell_init
                                 (snd (WindowsShell world_init))) with
                    | (Running s, _) => s
                    | _ => shell_init
                    end).
  { rewrite H. reflexivity. }
  rewrite S. reflexivity.
Defined.

Lemma ids_below_counter_drop (sh sh' : Shell) :
  job_counter sh' = job_counter sh -> jobs sh' ⊆ jobs sh ->
  ids_below_counter sh -> ids_below_counter sh'.
Proof.
  intros Hc Hsub [H1 H2]. split; [by rewrite Hc|].
  intros k job Hk. rewrite Hc. apply (H2 k job).
  eapply lookup_weaken; [exact Hk | exact Hsub].
Qed.

Lemma executed_cons (l : string) (lines : list string) :
  executed (l :: lines)
  = if skipped l then executed lines else l :: executed lines.
Proof. unfold executed. simpl. destruct (skipped l); reflexivity. Qed.

(** X26. Over a whole run of the shell, whatever the lines and whatever the
    system answers, the ids in use stay positive and below the counter, and
    the counter never goes down and goes up by at most one for each line
    executed: a line, also a pipeline of many stages, registers at most one
    job.  The lines executed are fewer than what is left of the [int]
    counter. *)
Theorem run_keeps_ids_below_counter (env : Env)
    (getcwd : World -> option string) (lines : list string) (sh : Shell)
    (w : World) :
  ids_below_counter sh ->
  job_counter sh + Z.of_nat (length (executed lines)) <= INT_MAX ->
  match fst (fst (run env getcwd lines sh w)) with
  | Running sh' =>
      ids_below_counter sh'
      /\ job_counter sh <= job_counter sh'
         <= job_counter sh + Z.of_nat (length (executed lines))
  | Exited _ => True
  end.
Proof.
  revert sh w. induction lines as [|l lines IH]; intros sh w Hinv Hmax.
  - cbn [run]. destruct (running sh); [|simpl; split; [exact Hinv | simpl; lia]].
    unfold bind.
    destruct (check_background_jobs_drops env sh w) as [C1 C2].
    destruct (check_background_jobs env sh w) as [sh1 w1]. simpl in C1, C2.
    destruct (display_prompt getcwd w1) as [[] w2]. simpl.
    split; [exact (ids_below_counter_drop sh sh1 C1 C2 Hinv) | lia].
  - cbn [run]. rewrite executed_cons in Hmax. rewrite executed_cons.
    destruct (running sh);
      [|simpl; split; [exact Hinv | destruct (skipped l); simpl length; lia]].
    unfold bind.
    destruct (check_background_jobs_drops env sh w) as [C1 C2].
    destruct (check_background_jobs env sh w) as [sh1 w1]. simpl in C1, C2.
    pose proof (ids_below_counter_drop sh sh1 C1 C2 Hinv) as Hinv1.
    destruct (display_prompt getcwd w1) as [[] w2].
    destruct (skipped l).
    + specialize (IH sh1 w2 Hinv1). rewrite C1 in IH. apply IH, Hmax.
    + simpl length in *.
      pose proof (execute_pipeline_step env (parse_input l) sh1 w2) as Hstep.
      destruct (execute_pipeline env (parse_input l) sh1 w2) as [[sh2|c] w3];
        [|exact I].
      simpl in Hstep. specialize (Hstep sh2 eq_refl).
      destruct (registry_step_ids sh1 sh2 Hstep Hinv1) as (Hinv2 & Hc);
        [lia|].
      specialize (IH sh2 w3 Hinv2).
      destruct (fst (fst (run env getcwd lines sh2 w3))) as [sh'|c];
        [|exact I].
      destruct Hc as [[_ Hc]|[_ Hc]]; rewrite Hc, C1 in IH;
        (destruct IH as [I1 I2]; [lia|]); (split; [exact I1 | lia]).
Qed.

(** The theorem at the lines [ping a &], an empty line, [dir | sort &] and
    [dir]: the counter ends at 3. *)
Lemma run_keeps_ids_below_counter_witness :
  match fst (fst (run env_ok (fun _ => None)
                    ["ping a &"; ""; "dir | sort &"; "dir"]
                    shell_init world_init)) with
  | Running sh' =>
      ids_below_counter sh'
      /\ 1 <= job_counter sh'
         <= 1 + Z.of_nat (length (executed
                                    ["ping a &"; ""; "dir | sort &"; "dir"]))
  | Exited _ => True
  end.
Proof.
  apply (run_keeps_ids_below_counter env_ok (fun _ => None)
           ["ping a &"; ""; "dir | sort &"; "dir"] shell_init world_init).
  - apply shell_init_ids.
  - vm_compute. discriminate.
Defined.

(** X27. A line of white space only polls and prompts: [run] on such a line
    is a poll and a prompt followed by [run] on the lines after it.  This
    holds for the lines that the test of [run] skips, made of spaces,
    tabulations and line feeds, and also for those it does not skip, which
    contain a carriage return, a vertical tabulation or a form feed: these
    are parsed, to no stage. *)
Theorem run_white_space_line (env : Env) (getcwd : World -> option string)
    (input : string) (rest : list string) (sh : Shell) (w : World) :
  all_space input = true ->
  running sh = true ->
  run env getcwd (input :: rest) sh w
  = (sh1 <- check_background_jobs env sh ;;
     display_prompt getcwd ;;
     run env getcwd rest sh1) w.
Proof.
  intros Hs Hrun. cbn [run]. rewrite Hrun. unfold bind.
  destruct (check_background_jobs env sh w) as [sh1 w1].
  destruct (display_prompt getcwd w1) as [[] w2].
  destruct (skipped input); [reflexivity|].
  unfold parse_input, tokenize. rewrite (read_tokens_all_space input Hs).
  reflexivity.
Qed.

(** The theorem at a line made of a carriage return, which [run] does not
    skip. *)
Lemma run_white_space_line_witness :
  skipped (String "013" "") = false
  /\ run env_ok (fun _ => None) [String "013" ""; "exit 2"] shell_init
       world_init
     = (sh1 <- check_background_jobs env_ok shell_init ;;
        display_prompt (fun _ => None) ;;
        run env_ok (fun _ => None) ["exit 2"] sh1) world_init.
Proof.
  split; [reflexivity|].
  apply (run_white_space_line env_ok (fun _ => None) (String "013" "")
           ["exit 2"] shell_init world_init); reflexivity.
Defined.
